(** * Axiom Agent: a shallow embedding of the agent core and its properties

    The development follows the Python sources:

    - [main.py]  : the command-line agent (SecurityManager with the compound
                   heuristics and its default rule set);
    - [agent.py] : the API agent (SecurityManager, DialogueManager,
                   ModelCommunicator.parse_response, AIAgent.process_message,
                   AIAgent.complete_interaction);
    - [app.py]   : the Flask surface ([chat], [cleanup_expired_data]);
    - [tools/*.py] : the tool bodies that the registry loads ([info],
                   [interact], and [execute] with its own copy of the gate).

    Python values are modelled as follows.  A [str] is the list of its code
    points, so that [len] is [length] and slicing is [firstn]/[skipn]; an
    [int] is a [Z]; a dict whose iteration order is observable (tool
    arguments, tool descriptions) is an association list in insertion order,
    a dict used as a keyed table (sessions, pending interactions) is a
    [gmap]; an exception is an explicit result constructor. *)

From Stdlib Require Import String Ascii List NArith ZArith QArith Bool Lia DecimalString.
From stdpp Require Import base option list gmap.
Import ListNotations.

Local Open Scope N_scope.

(** ** Python strings *)

Definition char := N.
Definition str := list char.

(** String literals of the sources are written [u "..."]: the bytes of the
    literal are decoded as UTF-8 into code points. *)
Fixpoint utf8_decode (bs : list N) : str :=
  match bs with
  | [] => []
  | b :: r =>
      if b <? 128 then b :: utf8_decode r
      else if b <? 224 then
        match r with
        | c1 :: r1 => ((b - 192) * 64 + (c1 - 128)) :: utf8_decode r1
        | [] => []
        end
      else if b <? 240 then
        match r with
        | c1 :: c2 :: r2 =>
            ((b - 224) * 4096 + (c1 - 128) * 64 + (c2 - 128)) :: utf8_decode r2
        | _ => []
        end
      else
        match r with
        | c1 :: c2 :: c3 :: r3 =>
            ((b - 240) * 262144 + (c1 - 128) * 4096 + (c2 - 128) * 64 + (c3 - 128))
              :: utf8_decode r3
        | _ => []
        end
  end.

Definition u (s : string) : str :=
  utf8_decode (map N_of_ascii (list_ascii_of_string s)).

Definition str_eqb (a b : str) : bool := bool_decide (a = b).

(** [s.startswith(p)] *)
Fixpoint startswith (p s : str) : bool :=
  match p, s with
  | [], _ => true
  | _ :: _, [] => false
  | a :: p', b :: s' => (a =? b) && startswith p' s'
  end.

(** [s.endswith(p)] *)
Definition endswith (p s : str) : bool := startswith (rev p) (rev s).

(** [p in s] for two strings: [p] occurs as a substring of [s]. *)
Fixpoint contains (p s : str) : bool :=
  startswith p s ||
  match s with
  | [] => false
  | _ :: s' => contains p s'
  end.

(** [x in l] for a list of strings. *)
Definition member (x : str) (l : list str) : bool := existsb (str_eqb x) l.

(** [str.isspace] on one code point: the Unicode white-space characters. *)
Definition isspace (c : char) : bool :=
  ((9 <=? c) && (c <=? 13)) || ((28 <=? c) && (c <=? 32)) ||
  (c =? 133) || (c =? 160) || (c =? 5760) ||
  ((8192 <=? c) && (c <=? 8202)) || (c =? 8232) || (c =? 8233) ||
  (c =? 8239) || (c =? 8287) || (c =? 12288).

Fixpoint lstrip (s : str) : str :=
  match s with
  | c :: s' => if isspace c then lstrip s' else s
  | [] => []
  end.

(** [s.strip()] *)
Definition strip (s : str) : str := rev (lstrip (rev (lstrip s))).

(** [s.split()]: the maximal runs of non-space characters. *)
Fixpoint split_ws_aux (s : str) (cur : str) : list str :=
  match s with
  | [] => match cur with [] => [] | _ => [rev cur] end
  | c :: s' =>
      if isspace c
      then match cur with [] => split_ws_aux s' [] | _ => rev cur :: split_ws_aux s' [] end
      else split_ws_aux s' (c :: cur)
  end.

Definition split_ws (s : str) : list str := split_ws_aux s [].

(** [s.lower()].  On ASCII text it maps [A-Z] to [a-z]; on other text the
    result is given by the Unicode tables of the Python runtime, which enter
    as the function [casemap]. *)
Definition ascii_lower (c : char) : char :=
  if (65 <=? c) && (c <=? 90) then c + 32 else c.

Definition is_ascii (s : str) : bool := forallb (fun c => c <? 128) s.

Definition lower (casemap : str -> str) (s : str) : str :=
  if is_ascii s then map ascii_lower s else casemap s.

(** [str(n)] for an [int]. *)
Definition str_of_int (n : Z) : str :=
  u (NilZero.string_of_int (Z.to_int n)).

(** [str(b)] for a [bool]. *)
Definition str_of_bool (b : bool) : str :=
  if b then u "True" else u "False".

(** [len(x)] for a string or a list. *)
Definition len {A} (x : list A) : Z := Z.of_nat (length x).

(** ** [shlex.split(command)]

    The POSIX-mode lexer of the standard library, as [shlex.split] configures
    it: [whitespace_split] on, no comment characters, no punctuation
    characters.  [state] is the lexer's [self.state]; [escapedstate] is the
    state it returns to after an escaped character; [quoted] records that the
    current token saw a quote, so that an empty quoted token is still
    emitted. *)

Inductive lex_state :=
| StWhite                (* ' ' : between tokens *)
| StWord                 (* 'a' : inside a word *)
| StQuote (q : char)     (* inside a quotation opened by q *)
| StEscape (e : char).   (* just after the escape character e *)

Definition shlex_whitespace (c : char) : bool :=
  (c =? 32) || (c =? 9) || (c =? 13) || (c =? 10).
Definition shlex_escape (c : char) : bool := c =? 92.
Definition shlex_quote (c : char) : bool := (c =? 39) || (c =? 34).
Definition shlex_escapedquote (c : char) : bool := c =? 34.

Inductive shlex_error :=
| NoClosingQuotation
| NoEscapedCharacter.

Definition in_quotes (st : lex_state) : bool :=
  match st with
  | StQuote _ => true
  | _ => false
  end.

Definition nonempty (s : str) : bool :=
  match s with [] => false | _ => true end.

Definition emit (token : str) (r : shlex_error + list str) : shlex_error + list str :=
  match r with
  | inl e => inl e
  | inr tokens => inr (token :: tokens)
  end.

Fixpoint shlex_run (input : str) (state escapedstate : lex_state)
         (quoted : bool) (token : str) : shlex_error + list str :=
  match input with
  | [] =>
      match state with
      | StWhite => inr []
      | StWord => if nonempty token || quoted then inr [token] else inr []
      | StQuote _ => inl NoClosingQuotation
      | StEscape _ => inl NoEscapedCharacter
      end
  | c :: rest =>
      match state with
      | StWhite =>
          if shlex_whitespace c then
            if nonempty token || quoted
            then emit token (shlex_run rest StWhite StWhite false [])
            else shlex_run rest StWhite escapedstate quoted token
          else if shlex_escape c then
            shlex_run rest (StEscape c) StWord quoted token
          else if shlex_quote c then
            shlex_run rest (StQuote c) escapedstate quoted token
          else
            shlex_run rest StWord escapedstate quoted [c]
      | StQuote q =>
          if c =? q then
            shlex_run rest StWord escapedstate true token
          else if shlex_escape c && shlex_escapedquote q then
            shlex_run rest (StEscape c) (StQuote q) true token
          else
            shlex_run rest (StQuote q) escapedstate true (token ++ [c])
      | StEscape e =>
          let token1 :=
            if in_quotes escapedstate && negb (c =? e) &&
               negb (match escapedstate with StQuote q => c =? q | _ => false end)
            then token ++ [e] else token in
          shlex_run rest escapedstate escapedstate quoted (token1 ++ [c])
      | StWord =>
          if shlex_whitespace c then
            if nonempty token || quoted
            then emit token (shlex_run rest StWhite StWhite false [])
            else shlex_run rest StWhite escapedstate quoted token
          else if shlex_quote c then
            shlex_run rest (StQuote c) escapedstate quoted token
          else if shlex_escape c then
            shlex_run rest (StEscape c) StWord quoted token
          else
            shlex_run rest StWord escapedstate quoted (token ++ [c])
      end
  end.

Definition shlex_split (command : str) : shlex_error + list str :=
  shlex_run command StWhite StWhite false [].

(** ** SecurityManager: the sensitive-command gate *)

(** One entry of [security.json].  Every key may be absent: the code reads
    them with [dict.get] and a default. *)
Record sensitive_cmd := {
  pattern : option str;
  description : option str;
  os : option (list str)
}.

Definition get_default {A} (o : option A) (d : A) : A :=
  match o with
  | Some a => a
  | None => d
  end.

(** [not cmd_os or current_os in cmd_os] *)
Definition applies_to (current_os : str) (cmd_os : list str) : bool :=
  match cmd_os with
  | [] => true
  | _ => member current_os cmd_os
  end.

(** [base_cmd == pattern or base_cmd.startswith(pattern + " ")] *)
Definition matches_start (base_cmd pattern : str) : bool :=
  str_eqb base_cmd pattern || startswith (pattern ++ u " ") base_cmd.

(** The command checker of [main.py] (SecurityManager.is_sensitive_command,
    lines 163-210). *)
Module MainPy.
Section Gate.
Variable casemap : str -> str.
Variable current_os : str.   (* platform.system().lower() *)

(** The rule set written by [create_default_security_config]. *)
Definition rule (p d : string) (o : list string) : sensitive_cmd :=
  {| pattern := Some (u p); description := Some (u d); os := Some (map u o) |}.

Definition default_sensitive_commands : list sensitive_cmd :=
  [ rule "rm" "删除文件或目录命令" ["linux"; "darwin"]%string;
    rule "rmdir" "删除目录命令" ["linux"; "darwin"; "windows"]%string;
    rule "del" "删除文件命令" ["windows"]%string;
    rule "format" "格式化磁盘命令" ["windows"; "linux"; "darwin"]%string;
    rule "fdisk" "磁盘分区命令" ["linux"; "darwin"]%string;
    rule "mkfs" "创建文件系统命令" ["linux"; "darwin"]%string;
    rule ":(){" "fork炸弹" ["linux"; "darwin"]%string;
    rule "dd" "数据复制命令" ["linux"; "darwin"]%string;
    rule "chmod" "修改文件权限命令" ["linux"; "darwin"]%string;
    rule "chown" "修改文件所有者命令" ["linux"; "darwin"]%string;
    rule "sudo" "超级用户执行命令" ["linux"; "darwin"]%string;
    rule "diskpart" "磁盘分区工具" ["windows"]%string ].

(** [base_cmd == "rm" and "-rf" in cmd_parts and
     any(arg == "/" or arg == "*" for arg in cmd_parts)] *)
Definition dangerous_rm (base_cmd : str) (cmd_parts : list str) : bool :=
  str_eqb base_cmd (u "rm") && member (u "-rf") cmd_parts &&
  existsb (fun arg => str_eqb arg (u "/") || str_eqb arg (u "*")) cmd_parts.

(** [base_cmd == "dd" and any(arg.startswith("of=") for arg in cmd_parts)] *)
Definition disk_write_dd (base_cmd : str) (cmd_parts : list str) : bool :=
  str_eqb base_cmd (u "dd") && existsb (startswith (u "of=")) cmd_parts.

(** The [for sensitive_cmd in self.sensitive_commands] loop. *)
Fixpoint check_rules (command base_cmd : str) (cmd_parts : list str)
         (rules : list sensitive_cmd) : bool * str :=
  match rules with
  | [] => (false, u "")
  | sensitive_cmd :: rest =>
      let pattern := lower casemap (get_default (pattern sensitive_cmd) (u "")) in
      let cmd_os := get_default (os sensitive_cmd) [] in
      if applies_to current_os cmd_os then
        if matches_start base_cmd pattern then
          (true, get_default (description sensitive_cmd) (u "敏感命令"))
        else if contains pattern command then
          if dangerous_rm base_cmd cmd_parts then
            (true, u "危险的递归删除命令")
          else if disk_write_dd base_cmd cmd_parts then
            (true, u "数据写入磁盘命令")
          else check_rules command base_cmd cmd_parts rest
        else check_rules command base_cmd cmd_parts rest
      else check_rules command base_cmd cmd_parts rest
  end.

Definition is_sensitive_command (sensitive_commands : list sensitive_cmd)
           (command : str) : bool * str :=
  match shlex_split command with
  | inr [] => (false, u "")
  | inr (first :: others) =>
      let cmd_parts := first :: others in
      let base_cmd := lower casemap first in
      check_rules command base_cmd cmd_parts sensitive_commands
  | inl _ =>
      (* except Exception: treated as sensitive, out of caution *)
      (true, u "命令检查异常，请谨慎执行")
  end.
End Gate.
End MainPy.

(** The command checker of [agent.py] (SecurityManager.is_sensitive_command,
    lines 62-103); [tools/execute.py] carries the same function, reading the
    rule set from [security.json] on every call. *)
Module AgentPy.
Section Gate.
Variable casemap : str -> str.
Variable current_os : str.

Fixpoint check_rules (command base_cmd : str)
         (rules : list sensitive_cmd) : bool * str :=
  match rules with
  | [] => (false, u "")
  | sensitive_cmd :: rest =>
      let pattern := lower casemap (get_default (pattern sensitive_cmd) (u "")) in
      let cmd_os := get_default (os sensitive_cmd) [] in
      if applies_to current_os cmd_os then
        if matches_start base_cmd pattern then
          (true, get_default (description sensitive_cmd) (u "敏感命令"))
        else if contains pattern command then
          (true, get_default (description sensitive_cmd) (u "敏感命令"))
        else check_rules command base_cmd rest
      else check_rules command base_cmd rest
  end.

Definition is_sensitive_command (sensitive_commands : list sensitive_cmd)
           (command : str) : bool * str :=
  match sensitive_commands with
  | [] => (false, u "")
  | _ =>
      match shlex_split command with
      | inr [] => (false, u "")
      | inr (first :: _) =>
          let base_cmd := lower casemap first in
          check_rules command base_cmd sensitive_commands
      | inl _ =>
          (* except Exception: reported as not sensitive *)
          (false, u "")
      end
  end.
End Gate.
End AgentPy.

(** ** DialogueManager: the conversation store ([agent.py], lines 213-295;
       [main.py], lines 560-642, is the same code on string results) *)

Inductive role := System | User | Assistant.

Global Instance role_eq_dec : EqDecision role.
Proof. solve_decision. Defined.

(** A message dict [{"role": ..., "content": ...}]. *)
Record message := {
  msg_role : role;
  content : str
}.

(** A tool call dict [{"name": ..., "args": {...}}]; [args] lists the items of
    the argument dict in insertion order.  Names and argument values are
    strings, as the call-syntax rule and the keyword fallbacks build them;
    other JSON values, which only a fenced JSON block can carry, are outside
    this model. *)
Record tool_call := {
  name : str;
  args : list (str * str)
}.

(** A tool result dict: [success] is always present, the other keys are
    optional ([exit] is read with [result.get("exit", False)]). *)
Record tool_result := {
  success : bool;
  result : option str;
  exit : bool;
  user_input : option str
}.

Definition nl : str := [10].

(** [json.dumps(s, ensure_ascii=False)] for a string. *)
Definition hex_digit (n : N) : char :=
  if n <? 10 then 48 + n else 87 + n.

Definition json_escape_char (c : char) : str :=
  if c =? 34 then [92; 34]
  else if c =? 92 then [92; 92]
  else if c =? 10 then [92; 110]
  else if c =? 13 then [92; 114]
  else if c =? 9 then [92; 116]
  else if c =? 8 then [92; 98]
  else if c =? 12 then [92; 102]
  else if c <? 32 then [92; 117; 48; 48; hex_digit (c / 16); hex_digit (c mod 16)]
  else [c].

Definition json_string (s : str) : str :=
  [34] ++ concat (map json_escape_char s) ++ [34].

(** [json.dumps(d, ensure_ascii=False)] for a dict from strings to strings. *)
Fixpoint json_items (items : list (str * str)) : str :=
  match items with
  | [] => []
  | [(k, v)] => json_string k ++ u ": " ++ json_string v
  | (k, v) :: rest => json_string k ++ u ": " ++ json_string v ++ u ", " ++ json_items rest
  end.

Definition json_dumps (d : list (str * str)) : str :=
  u "{" ++ json_items d ++ u "}".

Record DialogueManager := {
  max_tokens : Z;
  messages : list message;
  last_tool_was_info : bool
}.

(** [DialogueManager(max_tokens)] *)
Definition new_dialogue (max_tokens : Z) : DialogueManager :=
  {| max_tokens := max_tokens; messages := []; last_tool_was_info := false |}.

Definition append_message (dm : DialogueManager) (r : role) (text : str) : DialogueManager :=
  {| max_tokens := max_tokens dm;
     messages := messages dm ++ [{| msg_role := r; content := text |}];
     last_tool_was_info := last_tool_was_info dm |}.

Definition add_system_message (dm : DialogueManager) (text : str) := append_message dm System text.
Definition add_user_message (dm : DialogueManager) (text : str) := append_message dm User text.
Definition add_assistant_message (dm : DialogueManager) (text : str) := append_message dm Assistant text.

Definition get_messages (dm : DialogueManager) : list message := messages dm.
Definition was_last_tool_info (dm : DialogueManager) : bool := last_tool_was_info dm.

(** [sum(len(str(msg.get("content", ""))) for msg in self.messages) // 4] *)
Definition total_chars (msgs : list message) : Z :=
  fold_right (fun m acc => len (content m) + acc)%Z 0%Z msgs.

Definition total_tokens (msgs : list message) : Z := (total_chars msgs / 4)%Z.

Definition is_system (m : message) : bool := bool_decide (msg_role m = System).

(** The inner [for i, msg in enumerate(self.messages)] loop: pop the first
    message whose role is not system.  [None] when there is no such message,
    in which case the loop body changes nothing. *)
Fixpoint pop_first_non_system (msgs : list message) : option (list message) :=
  match msgs with
  | [] => None
  | m :: rest =>
      if is_system m
      then option_map (cons m) (pop_first_non_system rest)
      else Some rest
  end.

(** What a call of [_trim_history] does: it returns with the trimmed list, or
    its [while] loop makes no progress (the condition stays true and the
    list has no message to pop), so that the call never returns.  [OutOfFuel]
    is the bounded loop running out of iterations; with as many iterations as
    there are messages it does not occur ([trim_loop_fuel]). *)
Inductive trim_outcome :=
| Trimmed (msgs : list message)
| Spins
| OutOfFuel.

(** [total_tokens > self.max_tokens and len(self.messages) > 2] *)
Definition over_budget (max_tokens : Z) (msgs : list message) : bool :=
  (total_tokens msgs >? max_tokens)%Z && (len msgs >? 2)%Z.

Fixpoint trim_loop (fuel : nat) (max_tokens : Z) (msgs : list message) : trim_outcome :=
  if over_budget max_tokens msgs then
    match pop_first_non_system msgs with
    | Some msgs' =>
        match fuel with
        | O => OutOfFuel
        | S fuel' => trim_loop fuel' max_tokens msgs'
        end
    | None => Spins
    end
  else Trimmed msgs.

Definition trim_messages (max_tokens : Z) (msgs : list message) : trim_outcome :=
  trim_loop (length msgs) max_tokens msgs.

(** [_trim_history]; [None] when the call does not return. *)
Definition _trim_history (dm : DialogueManager) : option DialogueManager :=
  match trim_messages (max_tokens dm) (messages dm) with
  | Trimmed msgs =>
      Some {| max_tokens := max_tokens dm; messages := msgs;
              last_tool_was_info := last_tool_was_info dm |}
  | _ => None
  end.

(** The truncation of an over-long result body (lines 253-255). *)
Definition truncation_marker (original_length : Z) : str :=
  nl ++ u "... [内容已截断，共 " ++ str_of_int original_length ++ u " 字符]".

Definition truncate_result (result_text : str) : str :=
  if (len result_text >? 4000)%Z
  then firstn 4000 result_text ++ truncation_marker (len result_text)
  else result_text.

(** The text of the user message that [add_tool_result] synthesizes. *)
Definition tool_result_header (call : tool_call) (res : tool_result) : str :=
  u "工具调用结果 (" ++ name call ++ u ")" ++ nl ++
  u "参数: " ++ json_dumps (args call) ++ nl ++
  u "成功: " ++ str_of_bool (success res) ++ nl.

Definition tool_result_body (res : tool_result) : str :=
  match result res with
  | Some result_text => u "结果:" ++ nl ++ truncate_result result_text
  | None => u "结果: 无内容"
  end.

Definition tool_result_reply (call : tool_call) (res : tool_result) : str :=
  match user_input res with
  | Some reply =>
      if str_eqb (name call) (u "interact")
      then nl ++ u "用户输入: " ++ reply
      else []
  | None => []
  end.

Definition tool_result_message (call : tool_call) (res : tool_result) : str :=
  tool_result_header call res ++ tool_result_body res ++ tool_result_reply call res.

(** [add_tool_result]; [None] when its call of [_trim_history] does not
    return. *)
Definition add_tool_result (dm : DialogueManager) (call : tool_call) (res : tool_result)
  : option DialogueManager :=
  let dm1 := {| max_tokens := max_tokens dm; messages := messages dm;
                last_tool_was_info := str_eqb (name call) (u "info") |} in
  _trim_history (add_user_message dm1 (tool_result_message call res)).

(** ** Tools and the ToolManager registry *)

(** What a Python call can raise at the boundary [tool_function( **tool_args )]
    or from inside the tool. *)
Inductive exn :=
| UnexpectedKeyword (kw : str)       (* TypeError: got an unexpected keyword argument *)
| MissingArguments (names : list str) (* TypeError: missing required arguments *)
| ToolFault (text : str).            (* an exception that the tool body lets escape *)

Section Tools.
(** The state of the machine that a tool body can observe (files, the
    shell, the clock). *)
Variable World : Type.

(** A tool function: its parameter list, each parameter with its default
    value if it has one, and its body on the bound parameters. *)
Record tool_function := {
  params : list (str * option str);
  body : World -> list (str * str) -> exn + tool_result
}.

Fixpoint lookup_item {A} (k : str) (items : list (str * A)) : option A :=
  match items with
  | [] => None
  | (k', v) :: rest => if str_eqb k k' then Some v else lookup_item k rest
  end.

Definition has_key {A} (k : str) (items : list (str * A)) : bool :=
  match lookup_item k items with
  | Some _ => true
  | None => false
  end.

(** The first keyword of the call that names no parameter. *)
Fixpoint unexpected_keyword (ps : list (str * option str)) (kwargs : list (str * str))
  : option str :=
  match kwargs with
  | [] => None
  | (k, _) :: rest => if has_key k ps then unexpected_keyword ps rest else Some k
  end.

(** The parameters without a default that the call leaves unbound. *)
Definition missing_arguments (ps : list (str * option str)) (kwargs : list (str * str))
  : list str :=
  map fst (List.filter (fun p => match snd p with
                            | None => negb (has_key (fst p) kwargs)
                            | Some _ => false
                            end) ps).

(** The values of the parameters, in declaration order. *)
Definition bind_arguments (ps : list (str * option str)) (kwargs : list (str * str))
  : list (str * str) :=
  map (fun p => (fst p, match lookup_item (fst p) kwargs with
                        | Some v => v
                        | None => get_default (snd p) []
                        end)) ps.

(** [tool_function( **tool_args )] *)
Definition call_tool (f : tool_function) (w : World) (kwargs : list (str * str))
  : exn + tool_result :=
  match unexpected_keyword (params f) kwargs with
  | Some k => inl (UnexpectedKeyword k)
  | None =>
      match missing_arguments (params f) kwargs with
      | [] => body f w (bind_arguments (params f) kwargs)
      | names => inl (MissingArguments names)
      end
  end.

(** [ToolManager.exit_program(message="任务已完成")], the built-in exit tool. *)
Definition exit_program : tool_function :=
  {| params := [(u "message", Some (u "任务已完成"))];
     body := fun _ bound =>
       inr {| success := true;
              result := lookup_item (u "message") bound;
              exit := true;
              user_input := None |} |}.

(** [tools/info.py]: [execute(content)] *)
Definition info_execute : tool_function :=
  {| params := [(u "content", None)];
     body := fun _ bound =>
       inr {| success := true;
              result := lookup_item (u "content") bound;
              exit := false;
              user_input := None |} |}.

(** [tools/interact.py]: [execute(content, prompt="请输入您的回复: ")] *)
Definition interact_execute : tool_function :=
  {| params := [(u "content", None); (u "prompt", Some (u "请输入您的回复: "))];
     body := fun _ _ =>
       inr {| success := true;
              result := Some (u "需要用户交互");
              exit := false;
              user_input := None |} |}.

(** The registry: [self.tools] maps a name to its function and
    [self.tool_descriptions] a name to its description; both in insertion
    order.  A tool whose module fails to load is described but not
    callable. *)
Record ToolManager := {
  tools : list (str * tool_function);
  tool_descriptions : list (str * str)
}.

Definition get_tool_function (tm : ToolManager) (tool_name : str) : option tool_function :=
  lookup_item tool_name (tools tm).

Definition get_tool_descriptions (tm : ToolManager) : list (str * str) :=
  tool_descriptions tm.
End Tools.

Arguments params {World} _.
Arguments body {World} _ _ _.
Arguments call_tool {World} _ _ _.
Arguments tools {World} _.
Arguments tool_descriptions {World} _.
Arguments get_tool_function {World} _ _.
Arguments get_tool_descriptions {World} _.
Arguments exit_program {World}.
Arguments info_execute {World}.
Arguments interact_execute {World}.

(** [tools/execute.py]: the shell tool with its own copy of the gate. *)
Module ExecuteTool.
Section Execute.
Variable World : Type.
Variable casemap : str -> str.
Variable current_os : str.
(** The [sensitive_commands] of [security.json] as the call finds them (the
    empty list when the file is absent or unreadable). *)
Variable security_json : World -> list sensitive_cmd.
(** Lines 90-147: the subprocess, the decoding of its output and the
    enclosing [except], as the result dict they yield. *)
Variable run_subprocess : World -> str -> tool_result.

(** [is_sensitive_command(command)] (lines 12-64): the function of
    [agent.py] on the rule set just loaded. *)
Definition is_sensitive_command (w : World) (command : str) : bool * str :=
  AgentPy.is_sensitive_command casemap current_os (security_json w) command.

(** [execute(command)] (lines 66-147) *)
Definition execute (w : World) (command : str) : tool_result :=
  let '(is_sensitive, description) := is_sensitive_command w command in
  if is_sensitive then
    {| success := false;
       result := Some (u "检测到敏感命令: " ++ command ++ nl ++
                       u "描述: " ++ description ++ nl ++
                       u "请谨慎执行此命令，它可能会导致不可恢复的变更。");
       exit := false;
       user_input := None |}
  else run_subprocess w command.

Definition execute_tool : tool_function World :=
  {| params := [(u "command", None)];
     body := fun w bound =>
       inr (execute w (get_default (lookup_item (u "command") bound) [])) |}.
End Execute.
End ExecuteTool.

(** ** ModelCommunicator: what the backend returns and how it is parsed *)

(** [choices[i]]: [message] may be absent, and so may its [content]. *)
Record chat_message := { msg_content : option str }.
Record choice := { ch_message : option chat_message }.

(** The dict that [send_request] returns: an error dict
    [{"error": ..., "details": ...}], or the decoded body of the backend
    (an absent [choices] key is the empty list). *)
Inductive model_response :=
| ResponseError (error : str) (details : option str)
| ResponseBody (choices : list choice).

(** What [parse_response] returns: an error dict, the string [EOF], or a
    tool call. *)
Inductive parsed_response :=
| ParseError (message : str) (raw : option str)
| ParsedEOF
| ParsedCall (call : tool_call).

(** The outcome of one of the regular-expression rules of the cascade: it
    returns a tool call, it falls through to the next rule, or it raises an
    exception, which the enclosing [except Exception] turns into an error. *)
Inductive rule_result :=
| Match (call : tool_call)
| NoMatch
| Fault (text : str).

(** [choices[0].get("message", {}).get("content", "")] *)
Definition first_content (choices : list choice) : str :=
  match choices with
  | [] => []
  | c :: _ =>
      match ch_message c with
      | Some m => get_default (msg_content m) []
      | None => []
      end
  end.

(** Case-insensitive match of one pattern letter (given in lower case)
    against one character, as [re.IGNORECASE] does it. *)
Definition ci_char (p c : char) : bool :=
  (ascii_lower c =? p) || ((p =? 105) && ((c =? 304) || (c =? 305))).

Fixpoint ci_startswith (p s : str) : bool :=
  match p, s with
  | [], _ => true
  | _ :: _, [] => false
  | a :: p', b :: s' => ci_char a b && ci_startswith p' s'
  end.

Fixpoint ci_contains (p s : str) : bool :=
  ci_startswith p s ||
  match s with
  | [] => false
  | _ :: s' => ci_contains p s'
  end.

(** [re.search(r'退出|结束|完成|exit|quit', content, re.IGNORECASE)] *)
Definition exit_vocabulary (text : str) : bool :=
  contains (u "退出") text || contains (u "结束") text || contains (u "完成") text ||
  ci_contains (u "exit") text || ci_contains (u "quit") text.

(** The search of line 471 for the call pattern: a run of identifier
    characters [a-zA-Z_] (group 1), optional white space, an opening
    parenthesis, the shortest text up to a closing parenthesis (group 2).

    A match that starts at a given position takes the whole run of
    identifier characters there (a shorter run would have to be followed by
    an identifier character, which is neither white space nor a
    parenthesis), then the white space, then an opening parenthesis, then
    everything up to the first closing parenthesis.  [re.search] returns the
    match at the leftmost position that has one. *)
Definition ident_char (c : char) : bool :=
  ((65 <=? c) && (c <=? 90)) || ((97 <=? c) && (c <=? 122)) || (c =? 95).

(** The longest prefix of characters satisfying [p], and what follows it. *)
Fixpoint span (p : char -> bool) (s : str) : str * str :=
  match s with
  | [] => ([], [])
  | c :: s' =>
      if p c then let '(run, rest) := span p s' in (c :: run, rest)
      else ([], s)
  end.

(** The text before the first occurrence of [c], and the text after it. *)
Fixpoint split_at (c : char) (s : str) : option (str * str) :=
  match s with
  | [] => None
  | d :: s' =>
      if d =? c then Some ([], s')
      else match split_at c s' with
           | Some (before, rest) => Some (d :: before, rest)
           | None => None
           end
  end.

(** The match of the call pattern that starts at the head of [s]:
    groups 1 and 2. *)
Definition call_match_here (s : str) : option (str * str) :=
  match span ident_char s with
  | ([], _) => None
  | (ident, rest) =>
      match snd (span isspace rest) with
      | 40 :: inner =>
          match split_at 41 inner with
          | Some (args_text, _) => Some (ident, args_text)
          | None => None
          end
      | _ => None
      end
  end.

Fixpoint call_search (s : str) : option (str * str) :=
  match call_match_here s with
  | Some groups => Some groups
  | None =>
      match s with
      | [] => None
      | _ :: s' => call_search s'
      end
  end.

(** One match of the argument pattern of line 479 at the head of [s]: an
    identifier, an equals sign with optional white space around it, and a
    value, which is, in this order of preference, a text between double
    quotes, a text between single quotes, or a run of characters other than
    commas and white space.  The result is the argument name, its value and
    the text after the match. *)
Definition arg_value_here (s : str) : option (str * str) :=
  match s with
  | [] => None
  | c :: s' =>
      let bare :=
        match span (fun d => negb ((d =? 44) || isspace d)) s with
        | ([], _) => None
        | (value, rest) => Some (value, rest)
        end in
      if (c =? 34) || (c =? 39) then
        match split_at c s' with
        | Some (value, rest) => Some (value, rest)
        | None => bare
        end
      else bare
  end.

Definition arg_match_here (s : str) : option (str * str * str) :=
  match span ident_char s with
  | ([], _) => None
  | (arg_name, rest) =>
      match snd (span isspace rest) with
      | 61 :: rest1 =>
          match arg_value_here (snd (span isspace rest1)) with
          | Some (arg_value, rest2) => Some (arg_name, arg_value, rest2)
          | None => None
          end
      | _ => None
      end
  end.

(** [d[k] = v] on the items of a dict: an existing key keeps its place. *)
Fixpoint dict_set (k v : str) (items : list (str * str)) : list (str * str) :=
  match items with
  | [] => [(k, v)]
  | (k', v') :: rest =>
      if str_eqb k k' then (k, v) :: rest else (k', v') :: dict_set k v rest
  end.

(** The [re.finditer] loop of lines 479-483.  [skip] counts the characters
    of the current match that are still to be passed over. *)
Fixpoint parse_call_args (s : str) (skip : nat) (acc : list (str * str))
  : list (str * str) :=
  match s with
  | [] => acc
  | _ :: s' =>
      match skip with
      | S n => parse_call_args s' n acc
      | O =>
          match arg_match_here s with
          | Some (arg_name, arg_value, rest) =>
              parse_call_args s' (length s - length rest - 1)%nat
                              (dict_set arg_name arg_value acc)
          | None => parse_call_args s' 0%nat acc
          end
      end
  end.

(** Lines 470-488: the call syntax [tool(arg=value, ...)]. *)
Definition call_syntax_rule (text : str) (available_tools : list str) : option tool_call :=
  match call_search text with
  | Some (tool_name, args_text) =>
      if member tool_name available_tools
      then Some {| name := tool_name; args := parse_call_args (strip args_text) 0 [] |}
      else None
  | None => None
  end.

Section Parser.
(** The two rules that rest on [json.loads] and on a regular expression
    built from the tool names are taken as given: the fenced JSON block
    (lines 440-466) and the mention of a tool name (lines 490-535).  The
    first can only match a text that holds a fence. *)
Variables json_block_rule tool_mention_rule : str -> list str -> rule_result.

Definition fence : str := [96; 96; 96].

(** Lines 537-555: the keyword fallbacks and the final error. *)
Definition guess_tool (text : str) (available_tools : list str) : parsed_response :=
  if exit_vocabulary text then
    ParsedCall {| name := u "exit";
                  args := [(u "message",
                            match strip text with
                            | [] => u "任务已完成"
                            | stripped => stripped
                            end)] |}
  else if (len (split_ws (strip text)) >? 3)%Z && member (u "info") available_tools then
    ParsedCall {| name := u "info"; args := [(u "content", strip text)] |}
  else
    ParseError (u "无法解析响应为工具调用") (Some text).

Definition parse_exception (text : str) : parsed_response :=
  ParseError (u "解析响应异常: " ++ text) None.

(** The cascade after the EOF check (lines 440-555). *)
Definition parse_content (text : str) (available_tools : list str) : parsed_response :=
  match (if contains fence text then json_block_rule text available_tools else NoMatch) with
  | Match call => ParsedCall call
  | Fault e => parse_exception e
  | NoMatch =>
      match call_syntax_rule text available_tools with
      | Some call => ParsedCall call
      | None =>
          match tool_mention_rule text available_tools with
          | Match call => ParsedCall call
          | Fault e => parse_exception e
          | NoMatch => guess_tool text available_tools
          end
      end
  end.

(** [parse_response(response, available_tools)] (lines 411-560). *)
Definition parse_response (response : model_response) (available_tools : list str)
  : parsed_response :=
  match response with
  | ResponseError error _ => ParseError error None
  | ResponseBody [] => ParseError (u "模型响应中没有choices字段") None
  | ResponseBody choices =>
      match first_content choices with
      | [] => ParseError (u "模型响应内容为空") None
      | text =>
          if str_eqb (strip text) (u "EOF") || endswith (u "EOF") (strip text)
          then ParsedEOF
          else parse_content text available_tools
      end
  end.
End Parser.

(** ** AIAgent: one turn of the engine ([agent.py], lines 563-830) *)

(** The dict that [process_message] returns, by its [type]. *)
Inductive response :=
| ErrorResponse (message : str) (details : option str) (raw : option str)
| WarningResponse (message result next_action : str)
| InteractionRequired (interaction_id content prompt : str)
| ExitResponse (message : str)
| ToolResultResponse (tool : str) (success : bool) (result : str).

(** [result.get('type')] *)
Definition response_type (r : response) : str :=
  match r with
  | ErrorResponse _ _ _ => u "error"
  | WarningResponse _ _ _ => u "warning"
  | InteractionRequired _ _ _ => u "interaction_required"
  | ExitResponse _ => u "exit"
  | ToolResultResponse _ _ _ => u "tool_result"
  end.

(** An entry of [self.pending_interactions]. *)
Record interaction := {
  pending_call : tool_call;
  pending_content : str;
  pending_prompt : str
}.

(** What a turn does to the outside, in order: a request to the model
    backend, the invocation of a tool function, the recording of a tool
    result in the conversation. *)
Inductive event :=
| ModelRequest (history : list message)
| ToolInvoked (tool_name : str) (kwargs : list (str * str))
| ResultRecorded (call : tool_call) (res : tool_result).

(** How a call ends: it returns a value or an exception propagates out. *)
Inductive completion :=
| Returns (r : response)
| Raises (e : exn).

Section Agent.
Variable World : Type.
Variables json_block_rule tool_mention_rule : str -> list str -> rule_result.

Record AIAgent := {
  tool_manager : ToolManager World;
  dialogue_manager : DialogueManager;
  pending_interactions : gmap str interaction
}.

(** What one call finds outside the agent: the answer of [send_request] to
    a conversation, the state of the machine, and the value of
    [uuid.uuid4()]. *)
Record turn_env := {
  send_request : list message -> model_response;
  world : World;
  uuid4 : str
}.

(** The result of a call: it ends, with the events it caused and the agent
    as the call leaves it, or it never returns. *)
Inductive turn :=
| Done (trace : list event) (agent : AIAgent) (c : completion)
| Hangs (trace : list event).

(** [AIAgent()]: the registry, an empty conversation holding the system
    prompt, no pending interaction. *)
Definition new_agent (tm : ToolManager World) (max_tokens : Z) (system_prompt : str)
  : AIAgent :=
  {| tool_manager := tm;
     dialogue_manager := add_system_message (new_dialogue max_tokens) system_prompt;
     pending_interactions := ∅ |}.

Definition set_dialogue (agent : AIAgent) (dm : DialogueManager) : AIAgent :=
  {| tool_manager := tool_manager agent;
     dialogue_manager := dm;
     pending_interactions := pending_interactions agent |}.

Definition info_loop_result : tool_result :=
  {| success := false;
     result := Some (u "检测到连续使用info工具。请改用其他工具执行具体操作。");
     exit := false;
     user_input := None |}.

Definition unknown_tool_result (tool_name : str) : tool_result :=
  {| success := false;
     result := Some (u "未知工具: " ++ tool_name);
     exit := false;
     user_input := None |}.

(** Lines 719-796 of [process_message]: the loop guard and the dispatch of
    the resolved tool call. *)
Definition dispatch (agent : AIAgent) (env : turn_env) (trace : list event)
           (call : tool_call) : turn :=
  let dm := dialogue_manager agent in
  let tool_name := name call in
  let tool_args := args call in
  if str_eqb tool_name (u "info") && was_last_tool_info dm then
    match add_tool_result dm call info_loop_result with
    | Some dm' =>
        Done (trace ++ [ResultRecorded call info_loop_result])
             (set_dialogue agent dm')
             (Returns (WarningResponse
                         (u "连续使用info工具")
                         (get_default (result info_loop_result) [])
                         (u "请使用其他工具执行具体操作，而非继续提供信息。")))
    | None => Hangs trace
    end
  else
    match get_tool_function (tool_manager agent) tool_name with
    | None =>
        match add_tool_result dm call (unknown_tool_result tool_name) with
        | Some dm' =>
            Done (trace ++ [ResultRecorded call (unknown_tool_result tool_name)])
                 (set_dialogue agent dm')
                 (Returns (ErrorResponse (u "未知工具: " ++ tool_name) None None))
        | None => Hangs trace
        end
    | Some tool_function =>
        if str_eqb tool_name (u "interact") then
          let interaction_id := uuid4 env in
          let content := get_default (lookup_item (u "content") tool_args)
                                     (u "请输入您的回复") in
          let prompt := get_default (lookup_item (u "prompt") tool_args)
                                    (u "请输入您的回复: ") in
          Done trace
               {| tool_manager := tool_manager agent;
                  dialogue_manager := dm;
                  pending_interactions :=
                    <[ interaction_id := {| pending_call := call;
                                            pending_content := content;
                                            pending_prompt := prompt |} ]>
                      (pending_interactions agent) |}
               (Returns (InteractionRequired interaction_id content prompt))
        else
          match call_tool tool_function (world env) tool_args with
          | inl e => Done (trace ++ [ToolInvoked tool_name tool_args]) agent (Raises e)
          | inr res =>
              match add_tool_result dm call res with
              | Some dm' =>
                  Done (trace ++ [ToolInvoked tool_name tool_args; ResultRecorded call res])
                       (set_dialogue agent dm')
                       (Returns
                          (if str_eqb tool_name (u "exit") && success res && exit res
                           then ExitResponse (get_default (result res) (u "任务已完成"))
                           else ToolResultResponse tool_name (success res)
                                                   (get_default (result res) [])))
              | None => Hangs (trace ++ [ToolInvoked tool_name tool_args])
              end
          end
    end.

(** [process_message(message)] *)
Definition process_message (agent : AIAgent) (env : turn_env) (message : str) : turn :=
  let dm1 := add_user_message (dialogue_manager agent) message in
  let history := get_messages dm1 in
  let response := send_request env history in
  let trace := [ModelRequest history] in
  match response with
  | ResponseError error details =>
      Done trace (set_dialogue agent dm1)
           (Returns (ErrorResponse error (Some (get_default details [])) None))
  | ResponseBody choices =>
      let available_tools := map fst (get_tool_descriptions (tool_manager agent)) in
      let parsed :=
        parse_response json_block_rule tool_mention_rule response available_tools in
      let dm2 :=
        match first_content choices with
        | [] => dm1
        | text => add_assistant_message dm1 text
        end in
      match parsed with
      | ParseError message raw =>
          Done trace (set_dialogue agent dm2)
               (Returns (ErrorResponse message None (Some (get_default raw []))))
      | ParsedEOF =>
          dispatch (set_dialogue agent dm2) env trace
                   {| name := u "exit"; args := [(u "message", u "任务已完成")] |}
      | ParsedCall call =>
          dispatch (set_dialogue agent dm2) env trace call
      end
  end.

Definition reply_result (reply : str) : tool_result :=
  {| success := true;
     result := Some (u "用户回复: " ++ reply);
     exit := false;
     user_input := Some reply |}.

Definition after_record (e : event) (t : turn) : turn :=
  match t with
  | Done trace agent c => Done (e :: trace) agent c
  | Hangs trace => Hangs (e :: trace)
  end.

(** [complete_interaction(interaction_id, user_input)] *)
Definition complete_interaction (agent : AIAgent) (env : turn_env)
           (interaction_id reply : str) : turn :=
  match pending_interactions agent !! interaction_id with
  | None =>
      Done [] agent
           (Returns (ErrorResponse (u "交互ID " ++ interaction_id ++ u " 不存在或已过期")
                                   None None))
  | Some pending =>
      let call := pending_call pending in
      match add_tool_result (dialogue_manager agent) call (reply_result reply) with
      | Some dm' =>
          after_record (ResultRecorded call (reply_result reply))
            (process_message
               {| tool_manager := tool_manager agent;
                  dialogue_manager := dm';
                  pending_interactions := delete interaction_id (pending_interactions agent) |}
               env (u "继续执行任务"))
      | None => Hangs []
      end
  end.
End Agent.

Arguments tool_manager {World} _.
Arguments dialogue_manager {World} _.
Arguments pending_interactions {World} _.
Arguments send_request {World} _ _.
Arguments world {World} _.
Arguments uuid4 {World} _.
Arguments Done {World} _ _ _.
Arguments Hangs {World} _.
Arguments new_agent {World} _ _ _.
Arguments set_dialogue {World} _ _.
Arguments dispatch {World} _ _ _ _.
Arguments process_message {World} _ _ _ _ _.
Arguments complete_interaction {World} _ _ _ _ _ _.
Arguments after_record {World} _ _.

(** ** The HTTP surface ([app.py]) *)

(** An entry of [interaction_requests]; [created_at] is a [time.time()]
    stamp, in seconds. *)
Record interaction_request := {
  request_session : str;
  completed : bool;
  created_at : Q;
  request_input : option str
}.

(** The JSON body of a request to [/api/chat], a JSON object: what
    [data.get] yields for [session_id], [message] and [interaction_id],
    the truth value of [data.get('continue', False)], and whether the object
    holds a key that these four fields do not show (any other key, or
    [continue] with a false value). *)
Record chat_request := {
  req_session_id : option str;
  req_message : option str;
  req_continue : bool;
  req_interaction_id : option str;
  req_other_keys : bool
}.

(** The object has no key at all: the only object that [not data] takes
    for false. *)
Definition empty_object (data : chat_request) : bool :=
  match req_session_id data, req_message data, req_interaction_id data with
  | None, None, None => negb (req_continue data) && negb (req_other_keys data)
  | _, _, _ => false
  end.

(** The text of an error payload: a literal of the source or [str(e)]. *)
Inductive error_text :=
| Literal (text : str)
| ExceptionText (e : exn).

(** What the endpoint sends back: the result dict extended with
    [session_id] and [has_continuation] (status 200), or an error payload
    [{"error": ...}] with its status code. *)
Inductive http_response :=
| JsonResult (result : response) (session : str) (has_continuation : bool)
| JsonError (error : error_text) (status : Z).

(** A value that Python treats as true: a present, non-empty string. *)
Definition truthy (o : option str) : option str :=
  match o with
  | Some (c :: s) => Some (c :: s)
  | _ => None
  end.

(** [result.get('interaction_id')] *)
Definition interaction_id_of (r : response) : option str :=
  match r with
  | InteractionRequired id _ _ => Some id
  | _ => None
  end.

(** [current_time - data['created_at'] > 1800] *)
Definition expired (current_time : Q) (data : interaction_request) : bool :=
  negb (Qle_bool (current_time - created_at data) 1800).

Section App.
Variable World : Type.
Variables json_block_rule tool_mention_rule : str -> list str -> rule_result.

Abbreviation AIAgent := (AIAgent World).
Abbreviation process_message := (process_message json_block_rule tool_mention_rule).
Abbreviation complete_interaction :=
  (complete_interaction json_block_rule tool_mention_rule).

(** The module-level tables [sessions], [interaction_requests] and
    [continuation_flags]. *)
Record app_state := {
  sessions : gmap str AIAgent;
  interaction_requests : gmap str interaction_request;
  continuation_flags : gmap str bool
}.

(** What one request finds outside: the clock when the [before_request]
    hook runs, the clock at line 91, the session id that [uuid.uuid4()]
    yields, what [AIAgent()] loads (registry, token ceiling, system
    prompt), and the surroundings of the turn. *)
Record request_env := {
  now : Q;
  creation_time : Q;
  session_uuid : str;
  registry : ToolManager World;
  config_max_tokens : Z;
  system_prompt : str;
  turn_surroundings : turn_env World
}.

Inductive chat_outcome :=
| Responded (trace : list event) (st : app_state) (r : http_response)
| NoResponse (trace : list event).

(** [cleanup_expired_data], the [before_request] hook (lines 126-136). *)
Definition cleanup_expired_data (st : app_state) (current_time : Q) : app_state :=
  {| sessions := sessions st;
     interaction_requests :=
       filter (fun kv => expired current_time (snd kv) = false) (interaction_requests st);
     continuation_flags := continuation_flags st |}.

(** [sessions[session_id] = AIAgent(); continuation_flags[session_id] = False] *)
Definition create_session (st : app_state) (env : request_env) (sid : str) : app_state :=
  {| sessions :=
       <[ sid := new_agent (registry env) (config_max_tokens env) (system_prompt env) ]>
         (sessions st);
     interaction_requests := interaction_requests st;
     continuation_flags := <[ sid := false ]> (continuation_flags st) |}.

Definition set_session (st : app_state) (sid : str) (agent : AIAgent) : app_state :=
  {| sessions := <[ sid := agent ]> (sessions st);
     interaction_requests := interaction_requests st;
     continuation_flags := continuation_flags st |}.

Definition set_flag (st : app_state) (sid : str) (flag : bool) : app_state :=
  {| sessions := sessions st;
     interaction_requests := interaction_requests st;
     continuation_flags := <[ sid := flag ]> (continuation_flags st) |}.

Definition set_request (st : app_state) (id : str) (data : interaction_request) : app_state :=
  {| sessions := sessions st;
     interaction_requests := <[ id := data ]> (interaction_requests st);
     continuation_flags := continuation_flags st |}.

(** Lines 54-70: the request answers a known interaction request. *)
Definition chat_completion (st : app_state) (env : request_env) (sid : str)
           (agent : AIAgent) (id : str) (data : interaction_request) (user_input : str)
  : chat_outcome :=
  let st1 := set_request st id {| request_session := request_session data;
                                  completed := true;
                                  created_at := created_at data;
                                  request_input := Some user_input |} in
  match complete_interaction agent (turn_surroundings env) id user_input with
  | Done trace agent' (Returns result) =>
      Responded trace (set_flag (set_session st1 sid agent') sid true)
                (JsonResult result sid true)
  | Done trace agent' (Raises e) =>
      Responded trace (set_session st1 sid agent') (JsonError (ExceptionText e) 500)
  | Hangs trace => NoResponse trace
  end.

(** Lines 72-103: the request carries a message (or asks to continue). *)
Definition chat_turn (st : app_state) (env : request_env) (sid : str)
           (agent : AIAgent) (continue_execution : bool) (text : str)
  : chat_outcome :=
  let text1 :=
    if continue_execution && get_default (continuation_flags st !! sid) false
    then u "继续执行任务" else text in
  let st1 := set_flag st sid false in
  match process_message agent (turn_surroundings env) text1 with
  | Done trace agent' (Returns result) =>
      let st2 := set_session st1 sid agent' in
      let st3 :=
        if str_eqb (response_type result) (u "interaction_required") then
          match interaction_id_of result with
          | Some id =>
              set_flag (set_request st2 id {| request_session := sid;
                                              completed := false;
                                              created_at := creation_time env;
                                              request_input := None |})
                       sid false
          | None => set_flag st2 sid false
          end
        else set_flag st2 sid true in
      Responded trace st3
                (JsonResult result sid
                            (get_default (continuation_flags st3 !! sid) false))
  | Done trace agent' (Raises e) =>
      Responded trace (set_session st1 sid agent') (JsonError (ExceptionText e) 500)
  | Hangs trace => NoResponse trace
  end.

(** The view function [chat] (lines 21-107).  [body] is what
    [request.json] yields: [Some data] for a JSON object, [None] for
    [null].  The test [if not data] turns away [null] and the object
    without a key. *)
Definition chat (st : app_state) (env : request_env) (body : option chat_request)
  : chat_outcome :=
  match body with
  | None => Responded [] st (JsonError (Literal (u "请求体不能为空")) 400)
  | Some data =>
      if empty_object data
      then Responded [] st (JsonError (Literal (u "请求体不能为空")) 400)
      else
      let '(sid, st1) :=
        match truthy (req_session_id data) with
        | Some sid => (sid, st)
        | None => (session_uuid env, create_session st env (session_uuid env))
        end in
      match truthy (req_message data) with
      | None => Responded [] st1 (JsonError (Literal (u "消息不能为空")) 400)
      | Some text =>
          let st2 :=
            match sessions st1 !! sid with
            | Some _ => st1
            | None => create_session st1 env sid
            end in
          let agent :=
            get_default (sessions st2 !! sid)
              (new_agent (registry env) (config_max_tokens env) (system_prompt env)) in
          match truthy (req_interaction_id data) with
          | Some id =>
              match interaction_requests st2 !! id with
              | Some pending => chat_completion st2 env sid agent id pending text
              | None => chat_turn st2 env sid agent (req_continue data) text
              end
          | None => chat_turn st2 env sid agent (req_continue data) text
          end
      end
  end.

(** One request to [/api/chat]: the hook, then the view. *)
Definition handle_chat (st : app_state) (env : request_env) (body : option chat_request)
  : chat_outcome :=
  chat (cleanup_expired_data st (now env)) env body.
End App.

Arguments sessions {World} _.
Arguments interaction_requests {World} _.
Arguments continuation_flags {World} _.
Arguments now {World} _.
Arguments creation_time {World} _.
Arguments session_uuid {World} _.
Arguments registry {World} _.
Arguments config_max_tokens {World} _.
Arguments system_prompt {World} _.
Arguments turn_surroundings {World} _.
Arguments Responded {World} _ _ _.
Arguments NoResponse {World} _.
Arguments cleanup_expired_data {World} _ _.
Arguments create_session {World} _ _ _.
Arguments set_session {World} _ _ _.
Arguments set_flag {World} _ _ _.
Arguments set_request {World} _ _ _.
Arguments chat_completion {World} _ _ _ _ _ _ _ _ _.
Arguments chat_turn {World} _ _ _ _ _ _ _ _.
Arguments chat {World} _ _ _ _ _.
Arguments handle_chat {World} _ _ _ _ _.

(** * Vocabulary of the properties *)

(** ** The pinned system message *)

Definition non_system (m : message) : bool := negb (is_system m).

(** The system message is pinned: the conversation starts with the system
    message that carries [prompt], and no other message has the system
    role. *)
Definition pinned (prompt : str) (msgs : list message) : bool :=
  match msgs with
  | [] => false
  | m :: rest => is_system m && str_eqb (content m) prompt && forallb non_system rest
  end.

(** The pin, spelled out: the message at index 0 is the system message, and
    a message with the system role can only be at index 0. *)
Definition system_pinned (prompt : str) (msgs : list message) : Prop :=
  msgs !! 0%nat = Some {| msg_role := System; content := prompt |} /\
  forall (i : nat) (m : message), msgs !! i = Some m -> msg_role m = System -> i = 0%nat.

(** ** Traces *)

(** The value of [last_tool_was_info] after the events of a trace: every
    recorded result overwrites it with whether the call was an [info]
    call. *)
Definition flag_after (flag : bool) (trace : list event) : bool :=
  fold_left (fun f e => match e with
                        | ResultRecorded call _ => str_eqb (name call) (u "info")
                        | _ => f
                        end) trace flag.

(** The call of the most recently recorded tool result of a trace. *)
Fixpoint last_recorded (trace : list event) : option tool_call :=
  match trace with
  | [] => None
  | e :: rest =>
      match last_recorded rest with
      | Some call => Some call
      | None => match e with
                | ResultRecorded call _ => Some call
                | _ => None
                end
      end
  end.

Definition last_recorded_was_info (trace : list event) : bool :=
  match last_recorded trace with
  | Some call => str_eqb (name call) (u "info")
  | None => false
  end.

Definition is_model_request (e : event) : bool :=
  match e with
  | ModelRequest _ => true
  | _ => false
  end.

(** ** Runs of an agent *)

Section Runs.
Context {World : Type}.
Variables json_block_rule tool_mention_rule : str -> list str -> rule_result.
Variable prompt : str.

Definition conversation (agent : AIAgent World) : list message :=
  messages (dialogue_manager agent).

Definition info_flag (agent : AIAgent World) : bool :=
  was_last_tool_info (dialogue_manager agent).

(** What every ending of a call on a pinned conversation has in common:
    the call returns or raises (it does not hang), the pin is kept, the
    registry is the same, and the info flag follows the recorded
    results. *)
Definition sound_turn (agent : AIAgent World) (before : list event) (t : turn World)
  : Prop :=
  exists trace agent' c,
    t = Done (before ++ trace) agent' c /\
    pinned prompt (conversation agent') = true /\
    tool_manager agent' = tool_manager agent /\
    info_flag agent' = flag_after (info_flag agent) trace.

(** The runs of an agent: from its initial state, any number of calls of
    [process_message] and [complete_interaction] that end, with the
    events they caused so far. *)
Inductive run (init : AIAgent World) : list event -> AIAgent World -> Prop :=
| run_start : run init [] init
| run_process tr agent env text trace agent' c :
    run init tr agent ->
    process_message json_block_rule tool_mention_rule agent env text
      = Done trace agent' c ->
    run init (tr ++ trace) agent'
| run_complete tr agent env id reply trace agent' c :
    run init tr agent ->
    complete_interaction json_block_rule tool_mention_rule agent env id reply
      = Done trace agent' c ->
    run init (tr ++ trace) agent'.
End Runs.

(** ** Observations *)

Definition turn_completion {World} (t : turn World) : option completion :=
  match t with
  | Done _ _ c => Some c
  | Hangs _ => None
  end.

Definition turn_trace {World} (t : turn World) : list event :=
  match t with
  | Done trace _ _ => trace
  | Hangs trace => trace
  end.

Definition turn_agent {World} (before : AIAgent World) (t : turn World) : AIAgent World :=
  match t with
  | Done _ agent _ => agent
  | Hangs _ => before
  end.

Definition outcome_response {World} (o : chat_outcome World) : option http_response :=
  match o with
  | Responded _ _ r => Some r
  | NoResponse _ => None
  end.

Definition outcome_trace {World} (o : chat_outcome World) : list event :=
  match o with
  | Responded trace _ _ => trace
  | NoResponse trace => trace
  end.

Definition outcome_state {World} (before : app_state World) (o : chat_outcome World)
  : app_state World :=
  match o with
  | Responded _ st _ => st
  | NoResponse _ => before
  end.

Definition session_conversation {World} (st : app_state World) (sid : str) : list message :=
  match sessions st !! sid with
  | Some agent => conversation agent
  | None => []
  end.

Definition session_pending {World} (st : app_state World) (sid id : str) : bool :=
  match sessions st !! sid with
  | Some agent => bool_decide (is_Some (pending_interactions agent !! id))
  | None => false
  end.

(** The request answers a live interaction request: it names an id that is
    still in [interaction_requests] once the [before_request] hook has
    run. *)
Definition answers_interaction {World} (st : app_state World) (env : request_env World)
           (data : chat_request) : bool :=
  match truthy (req_interaction_id data) with
  | Some id =>
      match interaction_requests (cleanup_expired_data st (now env)) !! id with
      | Some _ => true
      | None => false
      end
  | None => false
  end.

(** The same request with a null interaction id. *)
Definition without_interaction (data : chat_request) : chat_request :=
  {| req_session_id := req_session_id data;
     req_message := req_message data;
     req_continue := req_continue data;
     req_interaction_id := None;
     req_other_keys := true |}.

(** ** A deployment to run *)

(** The body that the backend returns when the model says [text]. *)
Definition model_reply (text : str) : model_response :=
  ResponseBody [{| ch_message := Some {| msg_content := Some text |} |}].

(** A rule that never matches, to close the statements about this
    deployment: the texts they use hold no fence and match the call syntax,
    so that neither of the two given rules is consulted. *)
Definition no_rule : str -> list str -> rule_result := fun _ _ => NoMatch.

(** The registry of the API agent with the tools of the repository that do
    not touch the machine: the built-in [exit], [tools/info.py] and
    [tools/interact.py]. *)
Definition repo_registry : ToolManager unit :=
  {| tools := [(u "exit", exit_program); (u "info", info_execute);
               (u "interact", interact_execute)];
     tool_descriptions := [(u "exit", u "结束当前任务");
                           (u "info", u "向用户显示重要信息");
                           (u "interact", u "与用户交互并获取输入")] |}.

(** A backend that answers every request with the same text. *)
Definition answering (text : str) : turn_env unit :=
  {| send_request := fun _ => model_reply text; world := tt; uuid4 := u "interaction-1" |}.

Definition fresh_agent : AIAgent unit :=
  new_agent repo_registry 16000 (u "You are Axiom Agent.").

Definition at_time (t : Q) (answer : str) : request_env unit :=
  {| now := t;
     creation_time := t;
     session_uuid := u "session-1";
     registry := repo_registry;
     config_max_tokens := 16000;
     system_prompt := u "You are Axiom Agent.";
     turn_surroundings := answering answer |}.

Definition empty_app {World} : app_state World :=
  {| sessions := ∅; interaction_requests := ∅; continuation_flags := ∅ |}.

(** Every session holds a conversation with a pinned system message. *)
Definition sessions_pinned {World} (st : app_state World) : Prop :=
  map_Forall (fun _ agent => exists prompt, pinned prompt (conversation agent) = true)
             (sessions st).

(** A request is answered, and the sessions of the state it leaves are
    pinned. *)
Definition answered_soundly {World} (o : chat_outcome World) : Prop :=
  exists trace st' r, o = Responded trace st' r /\ sessions_pinned st'.

Section Served.
Context {World : Type}.
Variables json_block_rule tool_mention_rule : str -> list str -> rule_result.

(** The states of the service: from empty tables, any number of requests to
    [/api/chat] that are answered. *)
Inductive served : app_state World -> Prop :=
| served_start : served empty_app
| served_request st env body trace st' r :
    served st ->
    handle_chat json_block_rule tool_mention_rule st env body = Responded trace st' r ->
    served st'.
End Served.

Definition first_request : chat_request :=
  {| req_session_id := None;
     req_message := Some (u "deploy the site");
     req_continue := false;
     req_interaction_id := None;
     req_other_keys := false |}.

Definition late_reply : chat_request :=
  {| req_session_id := Some (u "session-1");
     req_message := Some (u "yes");
     req_continue := false;
     req_interaction_id := Some (u "interaction-1");
     req_other_keys := false |}.

Definition exit_with_wrong_keyword : tool_call :=
  {| name := u "exit"; args := [(u "msg", u "bye")] |}.

Definition narration : tool_call :=
  {| name := u "info"; args := [(u "content", u "working")] |}.

Definition narrated : tool_result :=
  {| success := true; result := Some (u "working"); exit := false; user_input := None |}.

(** A result whose body has 4001 characters. *)
Definition long_result : tool_result :=
  {| success := true; result := Some (repeat 120 4001); exit := false; user_input := None |}.

Definition short_dialogue : DialogueManager :=
  add_user_message (add_system_message (new_dialogue 16000) (u "You are an agent."))
                   (u "list the files").

Section Scenario.
Variables json_block_rule tool_mention_rule : str -> list str -> rule_result.

(** The first request: the model asks the human a question at time 0. *)
Definition asked : chat_outcome unit :=
  handle_chat json_block_rule tool_mention_rule empty_app
              (at_time 0 (u "interact(content='Proceed?')")) (Some first_request).

Definition suspended : app_state unit := outcome_state empty_app asked.

(** The human answers at time [t]; the model then narrates. *)
Definition answered (t : Q) : chat_outcome unit :=
  handle_chat json_block_rule tool_mention_rule suspended
              (at_time t (u "info(content='working')")) (Some late_reply).

(** An agent that was told to narrate once. *)
Definition narrating : turn unit :=
  process_message json_block_rule tool_mention_rule fresh_agent
                  (answering (u "info(content='working')")) (u "deploy the site").
End Scenario.


(** * Further models *)

(** ** What a trim removes *)

(** The conversation without its [k] oldest messages that are not system
    messages. *)
Fixpoint without_oldest (k : nat) (msgs : list message) : list message :=
  match msgs with
  | [] => []
  | m :: rest =>
      if is_system m then m :: without_oldest k rest
      else match k with
           | O => msgs
           | S k' => without_oldest k' rest
           end
  end.

(** A conversation of four messages under a ceiling of ten tokens. *)
Definition crowded_dialogue : DialogueManager :=
  add_user_message
    (add_assistant_message
       (add_user_message (add_system_message (new_dialogue 10) (u "You are an agent."))
                         (u "list the files"))
       (u "execute(command='ls')"))
    (u "README.md src tests").

(** ** ModelCommunicator.send_request ([agent.py], lines 307-409) *)

Module Communicator.

(** The fields of the communicator that steer the retry loop; [base_url],
    [api_key], [model_name] and [timeout] only shape the request. *)
Record ModelCommunicator := {
  max_retries : Z;
  retry_delay : Q
}.

(** What [response.json()] yields for a body that is JSON: the dict as
    [send_request] hands it to its caller, and the text that
    [json.dumps(..., ensure_ascii=False)] gives for it. *)
Record json_body := {
  as_response : model_response;
  dumped : str
}.

(** What one [requests.post] comes to: a reply with its status code, its
    text and its JSON value if the text is JSON ([response.json()] raises
    [json.JSONDecodeError] if it is not), or one of the exceptions that the
    loop tells apart. *)
Inductive attempt :=
| HttpReply (status_code : Z) (text : str) (json : option json_body)
| RequestTimeout
| ConnectionError
| OtherException (e : str).

(** What a call does to the outside, in order: the requests it posts and
    the sleeps it comes back from. *)
Inductive transport_event :=
| Posted (messages : list message)
| Slept (seconds : Q).

(** How a call ends: it returns a dict, or an exception with text [e]
    leaves it. *)
Inductive send_outcome :=
| Sent (trace : list transport_event) (r : model_response)
| Raised (trace : list transport_event) (e : str)
| LoopOutOfFuel.

Definition invalid_json_error (text : str) : model_response :=
  ResponseError (u "服务器返回了无效的JSON响应: " ++ firstn 200 text ++ u "...") None.

Definition status_error (status_code : Z) (text : str) (json : option json_body)
  : model_response :=
  ResponseError (u "API请求失败: " ++ str_of_int status_code)
                (Some match json with
                      | Some decoded => dumped decoded
                      | None => text
                      end).

Definition timeout_error : model_response :=
  ResponseError (u "API请求多次超时，请检查网络连接或稍后再试") None.

Definition connection_error : model_response :=
  ResponseError (u "API连接多次失败，请检查网络连接或API服务是否可用") None.

Definition exception_error (e : str) : model_response :=
  ResponseError (u "API请求异常: " ++ e) None.

Definition retries_error (mc : ModelCommunicator) : model_response :=
  ResponseError (u "API请求在" ++ str_of_int (max_retries mc) ++ u "次重试后失败") None.

Definition after_post (mc : ModelCommunicator) (messages : list message)
           (o : send_outcome) : send_outcome :=
  match o with
  | Sent trace r => Sent (Posted messages :: Slept (retry_delay mc) :: trace) r
  | Raised trace e => Raised (Posted messages :: Slept (retry_delay mc) :: trace) e
  | LoopOutOfFuel => LoopOutOfFuel
  end.

(** The [while retries <= self.max_retries] loop.  [attempts n] is what the
    request comes to after [n] earlier requests of the call, and
    [time_sleep seconds] is what [time.sleep(seconds)] comes to: it returns
    ([None]) or raises an exception with the text given.  [retry_delay] is
    read from the configuration unchecked, and [time.sleep] raises
    [ValueError] for a negative delay.

    A sleep that raises in the body of the [try] (after a 200 reply that is
    not JSON, or a 5xx reply) is caught by [except Exception]; a sleep that
    raises in one of the three [except] clauses leaves the function.

    Every pass that does not return adds at least one to [retries]; with
    [max_retries + 1] passes the fuel does not run out
    ([send_loop_returns]). *)
Fixpoint send_loop (fuel : nat) (mc : ModelCommunicator) (time_sleep : Q -> option str)
         (attempts : nat -> attempt) (messages : list message) (retries : Z)
         (posted : nat) : send_outcome :=
  if (retries <=? max_retries mc)%Z then
    match fuel with
    | O => LoopOutOfFuel
    | S fuel' =>
        (* an [except] clause of the outer [try], once it has added one to
           [retries], now [counted]: sleep and go round again if
           [retries <= self.max_retries], else return [last] *)
        let handler (counted : Z) (last : model_response) :=
          if (counted <=? max_retries mc)%Z then
            match time_sleep (retry_delay mc) with
            | None =>
                after_post mc messages
                  (send_loop fuel' mc time_sleep attempts messages counted (S posted))
            | Some e => Raised [Posted messages] e
            end
          else Sent [Posted messages] last in
        (* the same steps in the body of the [try] *)
        let again (last : model_response) :=
          if (retries + 1 <=? max_retries mc)%Z then
            match time_sleep (retry_delay mc) with
            | None =>
                after_post mc messages
                  (send_loop fuel' mc time_sleep attempts messages (retries + 1)%Z
                             (S posted))
            | Some e => handler (retries + 1 + 1)%Z (exception_error e)
            end
          else Sent [Posted messages] last in
        match attempts posted with
        | HttpReply status_code text json =>
            if (status_code =? 200)%Z then
              match json with
              | Some decoded => Sent [Posted messages] (as_response decoded)
              | None => again (invalid_json_error text)
              end
            else if (500 <=? status_code)%Z && (status_code <? 600)%Z then
              again (status_error status_code text json)
            else Sent [Posted messages] (status_error status_code text json)
        | RequestTimeout => handler (retries + 1)%Z timeout_error
        | ConnectionError => handler (retries + 1)%Z connection_error
        | OtherException e => handler (retries + 1)%Z (exception_error e)
        end
    end
  else Sent [] (retries_error mc).

(** [send_request(messages)] *)
Definition send_request (mc : ModelCommunicator) (time_sleep : Q -> option str)
           (attempts : nat -> attempt) (messages : list message) : send_outcome :=
  send_loop (Z.to_nat (max_retries mc + 1)) mc time_sleep attempts messages 0 0.

(** The value that [send_request] returns, when it returns. *)
Definition returned (o : send_outcome) : option model_response :=
  match o with
  | Sent _ r => Some r
  | Raised _ _ => None
  | LoopOutOfFuel => None
  end.

(** The requests of a call that posts [n] times: the same payload each
    time, and a sleep of [retry_delay] between two posts. *)
Fixpoint exchange (mc : ModelCommunicator) (messages : list message) (n : nat)
  : list transport_event :=
  match n with
  | O => []
  | S O => [Posted messages]
  | S n' => Posted messages :: Slept (retry_delay mc) :: exchange mc messages n'
  end.

(** What an attempt settles at once, if it does: the decoded body of a 200
    reply, or the status error of a reply that is neither 200 nor 5xx. *)
Definition settles (a : attempt) : option model_response :=
  match a with
  | HttpReply status_code text json =>
      if (status_code =? 200)%Z then option_map as_response json
      else if (500 <=? status_code)%Z && (status_code <? 600)%Z then None
      else Some (status_error status_code text json)
  | _ => None
  end.

(** The error that stands for an attempt that settles nothing. *)
Definition failure_of (a : attempt) : model_response :=
  match a with
  | HttpReply status_code text json =>
      if (status_code =? 200)%Z then invalid_json_error text
      else status_error status_code text json
  | RequestTimeout => timeout_error
  | ConnectionError => connection_error
  | OtherException e => exception_error e
  end.


End Communicator.

(** [time.sleep] for a delay that the clock can hold: it returns for a
    delay of zero or more and raises [ValueError] for a negative one. *)
Definition time_sleep (seconds : Q) : option str :=
  if Qle_bool 0 seconds then None
  else Some (u "sleep length must be non-negative").

(** The surroundings of a turn whose backend is reached through
    [send_request], for a communicator whose calls return: [turn_env] has
    no place for a call of [send_request] that raises. *)
Definition communicating {World} (mc : Communicator.ModelCommunicator)
           (attempts : list message -> nat -> Communicator.attempt)
           (w : World) (id : str) : turn_env World :=
  {| send_request := fun history =>
       get_default
         (Communicator.returned
            (Communicator.send_request mc time_sleep (attempts history) history))
         (ResponseError [] None);
     world := w;
     uuid4 := id |}.

(** The turns of a user who sends [texts] one after the other. *)
Definition turns {World} (json_block_rule tool_mention_rule : str -> list str -> rule_result)
           (env : turn_env World) (agent : AIAgent World) (texts : list str)
  : AIAgent World :=
  fold_left (fun a text =>
               turn_agent a (process_message json_block_rule tool_mention_rule a env text))
            texts agent.

Definition default_communicator : Communicator.ModelCommunicator :=
  {| Communicator.max_retries := 3; Communicator.retry_delay := 5 |}.

(** The default settings with a negative delay between two requests. *)
Definition hasty_communicator : Communicator.ModelCommunicator :=
  {| Communicator.max_retries := 3; Communicator.retry_delay := -1 |}.

(** A backend that cannot be reached in time, with the default retry
    settings of the repository. *)
Definition unreachable : turn_env unit :=
  communicating default_communicator
                (fun _ _ => Communicator.RequestTimeout) tt (u "interaction-1").

(** A backend that times out, then is overloaded, then answers. *)
Definition flaky_backend (n : nat) : Communicator.attempt :=
  match n with
  | 0%nat => Communicator.RequestTimeout
  | 1%nat => Communicator.HttpReply 503 (u "busy") None
  | _ => Communicator.HttpReply 200 (u "{}")
           (Some {| Communicator.as_response := ResponseBody [];
                    Communicator.dumped := u "{}" |})
  end.


(** A backend that is overloaded: every reply has status 503. *)
Definition overloaded_backend (n : nat) : Communicator.attempt :=
  Communicator.HttpReply 503 (u "busy") None.

(** ** ToolManager.load_tools ([agent.py], lines 117-182) *)

(** An entry of [tools.json]; both keys are read with [dict.get] and a
    default. *)
Record tool_info := {
  info_description : option str;
  info_implementation : option str
}.

(** [d[k] = v] on the items of a dict: an existing key keeps its place. *)
Fixpoint dict_put {A} (k : str) (v : A) (items : list (str * A)) : list (str * A) :=
  match items with
  | [] => [(k, v)]
  | (k', v') :: rest =>
      if str_eqb k k' then (k, v) :: rest else (k', v') :: dict_put k v rest
  end.

(** [os.path.join(a, b)] of [posixpath]. *)
Definition path_join (a b : str) : str :=
  if startswith (u "/") b then b
  else if str_eqb a [] || endswith (u "/") a then a ++ b
  else a ++ u "/" ++ b.

Section Loading.
Variable World : Type.

(** What the file system and the import machinery make of a module path:
    the file is missing, it has no module spec, executing it raises, or the
    module is there, with or without an [execute] attribute. *)
Inductive load_outcome :=
| NoSuchFile
| NoSpec
| ExecRaises (e : str)
| Loaded (execute : option (tool_function World)).

Variable import_module : str -> str -> load_outcome.

Definition set_tool (tm : ToolManager World) (tool_name : str) (f : tool_function World)
  : ToolManager World :=
  {| tools := dict_put tool_name f (tools tm);
     tool_descriptions := tool_descriptions tm |}.

Definition set_description (tm : ToolManager World) (tool_name text : str)
  : ToolManager World :=
  {| tools := tools tm;
     tool_descriptions := dict_put tool_name text (tool_descriptions tm) |}.

(** [load_custom_tool(tool_name, module_path)]: the registry it leaves, or
    the exception that [exec_module] lets out. *)
Definition load_custom_tool (tm : ToolManager World) (tool_name module_path : str)
  : str + ToolManager World :=
  match import_module tool_name module_path with
  | NoSuchFile => inr tm
  | NoSpec => inr tm
  | ExecRaises e => inl e
  | Loaded (Some execute) => inr (set_tool tm tool_name execute)
  | Loaded None => inr tm
  end.

(** One pass of [for tool_name, tool_info in tool_definitions.items()]. *)
Definition load_tool (tools_dir : str) (tm : ToolManager World)
           (item : str * tool_info) : ToolManager World :=
  let '(tool_name, info) := item in
  if str_eqb tool_name (u "exit") then tm
  else
    let tm1 := set_description tm tool_name (get_default (info_description info) []) in
    match truthy (info_implementation info) with
    | None => tm1
    | Some implementation =>
        match load_custom_tool tm1 tool_name (path_join tools_dir implementation) with
        | inr tm2 => tm2
        | inl _ => tm1
        end
    end.

(** [ToolManager(tools_path, tools_dir)]: [tool_definitions] is what
    [json.load] read from [tools.json], an object of objects, in the order
    of the file; [None] when the file is missing or cannot be read, in
    which case the loop runs over the empty dict. *)
Definition load_tools (tools_dir : str) (tool_definitions : option (list (str * tool_info)))
  : ToolManager World :=
  fold_left (load_tool tools_dir)
            (get_default tool_definitions [])
            {| tools := [(u "exit", exit_program)];
               tool_descriptions := [(u "exit", u "结束当前任务")] |}.
End Loading.

Arguments NoSuchFile {World}.
Arguments NoSpec {World}.
Arguments ExecRaises {World} _.
Arguments Loaded {World} _.
Arguments set_tool {World} _ _ _.
Arguments set_description {World} _ _ _.
Arguments load_custom_tool {World} _ _ _ _.
Arguments load_tool {World} _ _ _ _.
Arguments load_tools {World} _ _ _.

(** What every pass of the loading loop keeps: [exit] is the built-in
    function with its description, and every callable tool is described. *)
Definition well_loaded {World} (tm : ToolManager World) : Prop :=
  get_tool_function tm (u "exit") = Some exit_program /\
  lookup_item (u "exit") (get_tool_descriptions tm) = Some (u "结束当前任务") /\
  forall tool_name, has_key tool_name (tools tm) = true ->
                    has_key tool_name (tool_descriptions tm) = true.

(** A [tools.json] that redefines [exit] and names three tools: one whose
    module is in place, one whose module is missing, one without an
    implementation. *)
Definition sample_definitions : list (str * tool_info) :=
  [ (u "exit", {| info_description := Some (u "shut the machine down");
                  info_implementation := Some (u "shutdown.py") |});
    (u "info", {| info_description := Some (u "向用户显示重要信息");
                  info_implementation := Some (u "info.py") |});
    (u "read", {| info_description := Some (u "读取文件内容");
                  info_implementation := Some (u "read.py") |});
    (u "plan", {| info_description := None; info_implementation := None |}) ].

Definition sample_modules (tool_name module_path : str) : load_outcome unit :=
  if str_eqb module_path (u "tools/info.py") then Loaded (Some info_execute)
  else if str_eqb module_path (u "tools/shutdown.py") then Loaded (Some interact_execute)
  else NoSuchFile.

Definition sample_registry : ToolManager unit :=
  load_tools sample_modules (u "tools") (Some sample_definitions).

(** ** When a rule of the gate fires *)

Section Firing.
Variable casemap : str -> str.
Variable current_os : str.

(** The rule applies to the current platform. *)
Definition rule_applies (r : sensitive_cmd) : bool :=
  applies_to current_os (get_default (os r) []).

Definition rule_pattern (r : sensitive_cmd) : str :=
  lower casemap (get_default (pattern r) (u "")).

(** The rule names the first word of the command. *)
Definition names_command (base_cmd : str) (r : sensitive_cmd) : bool :=
  rule_applies r && matches_start base_cmd (rule_pattern r).

(** A pass of the loop of [agent.py] returns at the rule. *)
Definition fires_in_agent (command base_cmd : str) (r : sensitive_cmd) : bool :=
  rule_applies r &&
  (matches_start base_cmd (rule_pattern r) || contains (rule_pattern r) command).

(** A pass of the loop of [main.py] returns at the rule. *)
Definition fires_in_main (command base_cmd : str) (cmd_parts : list str)
           (r : sensitive_cmd) : bool :=
  rule_applies r &&
  (matches_start base_cmd (rule_pattern r) ||
   contains (rule_pattern r) command &&
   (MainPy.dangerous_rm base_cmd cmd_parts || MainPy.disk_write_dd base_cmd cmd_parts)).
End Firing.

(** ** The shell tool of [main.py] (ToolManager.execute_command, lines
    413-496) *)

Module MainTools.

(** What [input] gives: a line, or an exception such as [EOFError]. *)
Inductive console_input :=
| Line (text : str)
| InputRaises (e : str).

(** A process that has ended: its return code and its two streams as the
    decoding loop leaves them, the empty text for a stream without
    output. *)
Record finished_process := {
  returncode : Z;
  stdout : str;
  stderr : str
}.

Inductive popen_outcome :=
| Exited (p : finished_process)
| PopenRaises (e : str).

(** What the tool does to the outside, in order. *)
Inductive console_event :=
| Asked (prompt : str)
| Spawned (command : str).

Definition failed (text : str) : tool_result :=
  {| success := false; result := Some text; exit := false; user_input := None |}.

Definition confirmation_prompt : str :=
  nl ++ u "此命令可能有风险，是否确认执行? (y/N): ".

Section Execute.
Variable casemap : str -> str.
Variable current_os : str.
Variable sensitive_commands : list sensitive_cmd.
Variable spawn : str -> popen_outcome.

(** Lines 438-491: the subprocess and the result built from its output. *)
Definition run_command (command : str) : list console_event * tool_result :=
  ([Spawned command],
   match spawn command with
   | PopenRaises e => failed (u "执行命令失败: " ++ e)
   | Exited p =>
       if negb (returncode p =? 0)%Z then
         failed (match stderr p with
                 | [] => u "命令执行错误 (返回码: " ++ str_of_int (returncode p) ++ u "):"
                           ++ nl ++ stdout p
                 | _ => u "命令执行错误 (返回码: " ++ str_of_int (returncode p) ++ u "):"
                          ++ nl ++ stderr p ++ nl ++ stdout p
                 end)
       else
         {| success := true; result := Some (stdout p); exit := false; user_input := None |}
   end).

(** [execute_command(command)] *)
Definition execute_command (answer : console_input) (command : str)
  : list console_event * tool_result :=
  let '(is_sensitive, _) :=
    MainPy.is_sensitive_command casemap current_os sensitive_commands command in
  if is_sensitive then
    match answer with
    | InputRaises e => ([Asked confirmation_prompt], failed (u "执行命令失败: " ++ e))
    | Line text =>
        let confirmation := lower casemap (strip text) in
        if negb (str_eqb confirmation (u "y")) then
          ([Asked confirmation_prompt], failed (u "用户取消了敏感命令的执行"))
        else
          let '(trace, r) := run_command command in
          (Asked confirmation_prompt :: trace, r)
    end
  else run_command command.
End Execute.

(** The commands that a call has handed to the shell. *)
Definition spawned (trace : list console_event) : list str :=
  flat_map (fun e => match e with Spawned command => [command] | Asked _ => [] end) trace.

(** The answer confirms: stripped and in lower case it is the letter y. *)
Definition confirms (casemap : str -> str) (answer : console_input) : bool :=
  match answer with
  | Line text => str_eqb (lower casemap (strip text)) (u "y")
  | InputRaises _ => false
  end.

(** A shell in which every command ends at once, without output. *)
Definition nothing_to_say (command : str) : popen_outcome :=
  Exited {| returncode := 0; stdout := []; stderr := [] |}.

End MainTools.

(** ** What a turn does after it has asked the model *)

(** At most one tool is invoked and at most one result is recorded, and a
    result recorded after an invocation is the result of the call that was
    invoked. *)
Definition one_tool_at_most (tail : list event) : bool :=
  match tail with
  | [] => true
  | [ResultRecorded _ _] => true
  | [ToolInvoked _ _] => true
  | [ToolInvoked tool_name kwargs; ResultRecorded call _] =>
      str_eqb tool_name (name call) && bool_decide (kwargs = args call)
  | _ => false
  end.

(** The answer of [complete_interaction] to an id that the agent does not
    hold. *)
Definition unknown_interaction (interaction_id : str) : response :=
  ErrorResponse (u "交互ID " ++ interaction_id ++ u " 不存在或已过期") None None.

(** An agent that has asked the human a question. *)
Definition asking : turn unit :=
  process_message no_rule no_rule fresh_agent
                  (answering (u "interact(content='Proceed?')")) (u "deploy the site").

Definition question : tool_call :=
  {| name := u "interact"; args := [(u "content", u "Proceed?")] |}.

(** ** [DELETE /api/sessions/<session_id>] ([app.py], lines 113-124) *)

(** What the endpoint sends back. *)
Inductive delete_response :=
| SessionDeleted (message : str)
| DeleteError (error : str) (status : Z).

(** The view function [delete_session]. *)
Definition delete_session {World} (st : app_state World) (session_id : str)
  : app_state World * delete_response :=
  match sessions st !! session_id with
  | Some _ =>
      ({| sessions := delete session_id (sessions st);
          interaction_requests := interaction_requests st;
          continuation_flags := delete session_id (continuation_flags st) |},
       SessionDeleted (u "会话 " ++ session_id ++ u " 已删除"))
  | None => (st, DeleteError (u "会话不存在") 404)
  end.

(** The session that a request to [/api/chat] works on. *)
Definition session_of {World} (env : request_env World) (data : chat_request) : str :=
  match truthy (req_session_id data) with
  | Some sid => sid
  | None => session_uuid env
  end.

(** An interaction request once it has been answered. *)
Definition answered_request (data : interaction_request) (user_input : str)
  : interaction_request :=
  {| request_session := request_session data;
     completed := true;
     created_at := created_at data;
     request_input := Some user_input |}.

(** The request that answers interaction [id] in session [sid]. *)
Definition reply_to (sid id text : str) : chat_request :=
  {| req_session_id := Some sid;
     req_message := Some text;
     req_continue := false;
     req_interaction_id := Some id;
     req_other_keys := false |}.

(** A request without a session id whose message is the empty string. *)
Definition blank_request : chat_request :=
  {| req_session_id := None;
     req_message := Some [];
     req_continue := false;
     req_interaction_id := None;
     req_other_keys := false |}.

(** The service after the human has answered the question of [asked] once,
    a minute after it was put. *)
Definition answered_once : app_state unit :=
  outcome_state (suspended no_rule no_rule) (answered no_rule no_rule 60).

(** ** The call syntax as a text *)

(** [name='value'] *)
Definition render_arg (kv : str * str) : str :=
  fst kv ++ [61; 39] ++ snd kv ++ [39].

(** The arguments, separated by a comma and a blank. *)
Fixpoint render_args (kwargs : list (str * str)) : str :=
  match kwargs with
  | [] => []
  | [kv] => render_arg kv
  | kv :: rest => render_arg kv ++ [44; 32] ++ render_args rest
  end.

(** [tool(name='value', ...)], the text of a call in the call syntax. *)
Definition render_call (call : tool_call) : str :=
  name call ++ [40] ++ render_args (args call) ++ [41].

(** A name that the patterns of the parser take as a whole: a non-empty
    run of the letters [a-zA-Z] and the underscore. *)
Definition identifier (s : str) : bool :=
  negb (str_eqb s []) && forallb ident_char s.

(** A value that can stand between single quotes inside the parentheses
    of a call: it holds neither a single quote nor a closing
    parenthesis. *)
Definition quotable (s : str) : bool :=
  forallb (fun c => negb (c =? 39) && negb (c =? 41)) s.

(** A call that the call syntax can express: identifiers for the tool and
    for the arguments, no argument twice, quotable values. *)
Definition expressible (call : tool_call) : bool :=
  identifier (name call) &&
  forallb (fun kv => identifier (fst kv) && quotable (snd kv)) (args call) &&
  bool_decide (NoDup (map fst (args call))).

Definition write_notes : tool_call :=
  {| name := u "write";
     args := [(u "file_path", u "notes/todo.txt");
              (u "content", u "buy milk, eggs = 12");
              (u "mode", u "a")] |}.

(** ** The command-line loop of [main.py] (AIAgent.run, lines 1033-1146) *)

Module MainRun.

(** Why the script dies: an exception leaves a tool function, or [input]
    raises. *)
Inductive crash :=
| ToolRaised (e : exn)
| InputRaised (e : str).

Definition use_exit_text : str := u "请使用exit工具结束任务。".
Definition use_other_tool_text : str :=
  u "请使用read、write或execute等工具执行具体操作，而非继续提供信息。".
Definition go_on_text : str := u "继续执行任务".

Section Run.
Variable World : Type.
Variable casemap : str -> str.
(** [ModelCommunicator.parse_response] of [main.py] (lines 746-930), taken
    as given. *)
Variable parse_response : model_response -> list str -> parsed_response.

(** The agent between two passes of the loop: the registry, the
    conversation and the local variable [user_request]. *)
Record AIAgent := {
  tool_manager : ToolManager World;
  dialogue_manager : DialogueManager;
  user_request : str
}.

(** What one pass finds outside: the answer of [send_request], the state
    of the machine, and what [input] gives if the pass asks for a new
    instruction. *)
Record pass_env := {
  model : list message -> model_response;
  machine : World;
  typed : MainTools.console_input
}.

(** How one pass of [while True] ends: at the next pass, at a [break], with
    an exception, or inside a trim that never returns. *)
Inductive pass :=
| Next (trace : list event) (agent : AIAgent)
| Break (trace : list event) (agent : AIAgent)
| Dies (trace : list event) (c : crash)
| Spinning (trace : list event).

Definition with_request (agent : AIAgent) (dm : DialogueManager) (text : str) : AIAgent :=
  {| tool_manager := tool_manager agent;
     dialogue_manager := add_user_message dm text;
     user_request := text |}.

Definition is_bye (text : str) : bool := str_eqb (lower casemap text) (u "bye").

(** One pass of the loop. *)
Definition run_pass (agent : AIAgent) (env : pass_env) : pass :=
  if is_bye (user_request agent) then Break [] agent
  else
    let messages := get_messages (dialogue_manager agent) in
    let response := model env messages in
    let asked := [ModelRequest messages] in
    let available_tools := map fst (get_tool_descriptions (tool_manager agent)) in
    let parsed_response := parse_response response available_tools in
    let dm1 :=
      match response with
      | ResponseBody choices =>
          match first_content choices with
          | [] => dialogue_manager agent
          | content => add_assistant_message (dialogue_manager agent) content
          end
      | ResponseError _ _ => dialogue_manager agent
      end in
    match parsed_response with
    | ParsedEOF => Next asked (with_request agent dm1 use_exit_text)
    | ParseError _ _ =>
        match typed env with
        | MainTools.InputRaises e => Dies asked (InputRaised e)
        | MainTools.Line text =>
            if is_bye (strip text)
            then Break asked {| tool_manager := tool_manager agent;
                                dialogue_manager := dm1;
                                user_request := strip text |}
            else Next asked (with_request agent dm1 (strip text))
        end
    | ParsedCall tool_call =>
        let tool_name := name tool_call in
        let tool_args := args tool_call in
        if str_eqb tool_name (u "info") && was_last_tool_info dm1 then
          Next asked (with_request agent dm1 use_other_tool_text)
        else
          let '(invoked, outcome) :=
            match get_tool_function (tool_manager agent) tool_name with
            | None => (asked, inr (unknown_tool_result tool_name))
            | Some tool_function =>
                (asked ++ [ToolInvoked tool_name tool_args],
                 call_tool tool_function (machine env) tool_args)
            end in
          match outcome with
          | inl e => Dies invoked (ToolRaised e)
          | inr result =>
              let stopped :=
                {| tool_manager := tool_manager agent;
                   dialogue_manager := dm1;
                   user_request := user_request agent |} in
              if str_eqb tool_name (u "exit") && success result && exit result then
                Break invoked stopped
              else if str_eqb tool_name (u "interact") &&
                      match user_input result with
                      | Some reply => is_bye reply
                      | None => false
                      end then
                Break invoked stopped
              else
                match add_tool_result dm1 tool_call result with
                | Some dm2 =>
                    Next (invoked ++ [ResultRecorded tool_call result])
                         (with_request agent dm2 go_on_text)
                | None => Spinning invoked
                end
          end
    end.

(** [n] passes, each in the surroundings that [envs] gives it; the loop
    stops at the first pass that does not end at the next one. *)
Fixpoint run_passes (n : nat) (envs : nat -> pass_env) (agent : AIAgent)
  : list event * option AIAgent :=
  match n with
  | O => ([], Some agent)
  | S n' =>
      match run_pass agent (envs 0%nat) with
      | Next trace agent' =>
          let '(rest, final) := run_passes n' (fun i => envs (S i)) agent' in
          (trace ++ rest, final)
      | Break trace _ => (trace, None)
      | Dies trace _ => (trace, None)
      | Spinning trace => (trace, None)
      end
  end.
End Run.

Arguments tool_manager {World} _.
Arguments dialogue_manager {World} _.
Arguments user_request {World} _.
Arguments model {World} _ _.
Arguments machine {World} _.
Arguments typed {World} _.
Arguments Next {World} _ _.
Arguments Break {World} _ _.
Arguments Dies {World} _ _.
Arguments Spinning {World} _.
Arguments with_request {World} _ _ _.
Arguments run_pass {World} _ _ _ _.
Arguments run_passes {World} _ _ _ _ _.

End MainRun.

(** The tool invocations of a trace. *)
Definition is_tool_invoked (e : event) : bool :=
  match e with
  | ToolInvoked _ _ => true
  | _ => false
  end.

(** A parser that takes every answer for the same info call, and a model
    that answers with it. *)
Definition narrating_parser (response : model_response) (available_tools : list str)
  : parsed_response :=
  ParsedCall narration.

Definition narrating_pass : MainRun.pass_env unit :=
  {| MainRun.model := fun _ => model_reply (u "info(content='working')");
     MainRun.machine := tt;
     MainRun.typed := MainTools.Line (u "bye") |}.

(** The command-line agent after a first info call. *)
Definition narrated_once : MainRun.AIAgent unit :=
  {| MainRun.tool_manager := repo_registry;
     MainRun.dialogue_manager :=
       get_default (add_tool_result short_dialogue narration narrated) short_dialogue;
     MainRun.user_request := MainRun.go_on_text |}.

(** An answer that makes the command-line loop go round without doing
    anything: the end mark, or an info call while the info flag is set. *)
Definition stalls (flag : bool) (parsed : parsed_response) : bool :=
  match parsed with
  | ParsedEOF => true
  | ParsedCall call => str_eqb (name call) (u "info") && flag
  | ParseError _ _ => false
  end.

(** The call that the end mark stands for in [process_message]. *)
Definition eof_exit_call : tool_call :=
  {| name := u "exit"; args := [(u "message", u "任务已完成")] |}.

Definition eof_exit_result : tool_result :=
  {| success := true; result := Some (u "任务已完成"); exit := true; user_input := None |}.

(** ** Open interaction requests *)

(** Every interaction request that has not been answered is held by the
    agent of the session that raised it. *)
Definition requests_held {World} (st : app_state World) : Prop :=
  forall id data,
    interaction_requests st !! id = Some data ->
    completed data = false ->
    exists agent,
      sessions st !! request_session data = Some agent /\
      is_Some (pending_interactions agent !! id).

(** The session id that [uuid4] gives to a request without one is not in
    use. *)
Definition fresh_session_id {World} (st : app_state World) (env : request_env World)
           (body : option chat_request) : Prop :=
  match body with
  | Some data =>
      match truthy (req_session_id data) with
      | Some _ => True
      | None => sessions st !! session_uuid env = None
      end
  | None => True
  end.

Section ServedAfresh.
Context {World : Type}.
Variables json_block_rule tool_mention_rule : str -> list str -> rule_result.

(** The states of the service when no session id is drawn twice. *)
Inductive served_afresh : app_state World -> Prop :=
| afresh_start : served_afresh empty_app
| afresh_request st env body trace st' r :
    served_afresh st ->
    fresh_session_id st env body ->
    handle_chat json_block_rule tool_mention_rule st env body = Responded trace st' r ->
    served_afresh st'.
End ServedAfresh.

(** * Properties *)

(** ** The conversation store *)

Lemma len_nonneg {A} (x : list A) : (0 <= len x)%Z.
Proof. unfold len. lia. Qed.

Lemma str_eqb_eq (a b : str) : str_eqb a b = true <-> a = b.
Proof. unfold str_eqb. apply bool_decide_eq_true. Qed.

Lemma str_eqb_refl (a : str) : str_eqb a a = true.
Proof. now apply str_eqb_eq. Qed.

Lemma is_system_true (m : message) : is_system m = true <-> msg_role m = System.
Proof. unfold is_system. apply bool_decide_eq_true. Qed.

Lemma pop_first_non_system_length (msgs msgs' : list message) :
  pop_first_non_system msgs = Some msgs' -> length msgs = S (length msgs').
Proof.
  revert msgs'. induction msgs as [|m msgs IH]; intros msgs' H; simpl in H.
  - discriminate.
  - destruct (is_system m).
    + destruct (pop_first_non_system msgs) as [r|] eqn:E; simpl in H; [|discriminate].
      injection H as <-. simpl. f_equal. now apply IH.
    + injection H as <-. reflexivity.
Qed.

(** The bounded loop has iterations to spare: it never stops for lack of
    them. *)
Lemma trim_loop_fuel (fuel : nat) (max : Z) (msgs : list message) :
  (length msgs <= fuel)%nat -> trim_loop fuel max msgs <> OutOfFuel.
Proof.
  revert msgs. induction fuel as [|fuel IH]; intros msgs Hlen; simpl.
  - destruct msgs; [|simpl in Hlen; lia].
    unfold over_budget, len. simpl. rewrite andb_false_r. discriminate.
  - destruct (over_budget max msgs); [|discriminate].
    destruct (pop_first_non_system msgs) as [msgs'|] eqn:E; [|discriminate].
    apply IH. apply pop_first_non_system_length in E. lia.
Qed.

Lemma trim_messages_fuel (max : Z) (msgs : list message) :
  trim_messages max msgs <> OutOfFuel.
Proof. unfold trim_messages. apply trim_loop_fuel. lia. Qed.

(** A list that the loop returns no longer satisfies the loop condition. *)
Lemma trim_loop_result (fuel : nat) (max : Z) (msgs msgs' : list message) :
  trim_loop fuel max msgs = Trimmed msgs' -> over_budget max msgs' = false.
Proof.
  revert msgs. induction fuel as [|fuel IH]; intros msgs; simpl.
  - destruct (over_budget max msgs) eqn:E.
    + destruct (pop_first_non_system msgs); discriminate.
    + intros [= <-]. exact E.
  - destruct (over_budget max msgs) eqn:E.
    + destruct (pop_first_non_system msgs); [apply IH | discriminate].
    + intros [= <-]. exact E.
Qed.

Lemma trim_loop_stable (fuel : nat) (max : Z) (msgs : list message) :
  over_budget max msgs = false -> trim_loop fuel max msgs = Trimmed msgs.
Proof. intros H. destruct fuel; simpl; rewrite H; reflexivity. Qed.

Lemma under_ceiling_not_over (max : Z) (msgs : list message) :
  (total_tokens msgs <= max)%Z -> over_budget max msgs = false.
Proof.
  intros H. unfold over_budget.
  destruct (total_tokens msgs >? max)%Z eqn:E; [|reflexivity].
  apply Z.gtb_lt in E. lia.
Qed.

Lemma trim_messages_under_ceiling (max : Z) (msgs : list message) :
  (total_tokens msgs <= max)%Z -> trim_messages max msgs = Trimmed msgs.
Proof.
  intros H. unfold trim_messages.
  apply trim_loop_stable, under_ceiling_not_over, H.
Qed.

(** Whenever a trim returns, a second one changes nothing. *)
Lemma trim_messages_idempotent (max : Z) (msgs msgs' : list message) :
  trim_messages max msgs = Trimmed msgs' -> trim_messages max msgs' = Trimmed msgs'.
Proof.
  intros H. unfold trim_messages in *.
  apply trim_loop_stable. eapply trim_loop_result, H.
Qed.

Lemma trim_history_idempotent (dm dm' : DialogueManager) :
  _trim_history dm = Some dm' -> _trim_history dm' = Some dm'.
Proof.
  unfold _trim_history. intros H.
  destruct (trim_messages (max_tokens dm) (messages dm)) as [msgs| |] eqn:E; try discriminate.
  injection H as <-. simpl.
  rewrite (trim_messages_idempotent _ _ _ E). reflexivity.
Qed.

(** A conversation of system messages only that is over the ceiling makes
    the loop spin: the call of [_trim_history] does not return. *)
Remark trim_spins_without_candidate :
  trim_messages 0 (repeat {| msg_role := System; content := u "sys." |} 3) = Spins.
Proof. reflexivity. Qed.

(** C8. Trimming is a no-op under the ceiling: when the estimated cost of the
    conversation (its total number of characters divided by 4) does not
    exceed [max_tokens], [_trim_history] returns and leaves the conversation
    unchanged; hence trimming twice gives what trimming once gives. *)
Theorem trim_history_noop_under_ceiling (dm : DialogueManager) :
  (total_tokens (messages dm) <= max_tokens dm)%Z ->
  _trim_history dm = Some dm /\
  (_trim_history dm ≫= _trim_history) = _trim_history dm.
Proof.
  intros H.
  assert (E : _trim_history dm = Some dm).
  { unfold _trim_history. rewrite (trim_messages_under_ceiling _ _ H).
    destruct dm; reflexivity. }
  split; [exact E|].
  rewrite E. simpl. exact E.
Qed.

Lemma trim_history_noop_under_ceiling_witness :
  _trim_history short_dialogue = Some short_dialogue /\
  (_trim_history short_dialogue ≫= _trim_history) = _trim_history short_dialogue.
Proof.
  apply (trim_history_noop_under_ceiling short_dialogue).
  apply Z.leb_le. reflexivity.
Defined.

Lemma pinned_inv (prompt : str) (msgs : list message) :
  pinned prompt msgs = true ->
  exists rest, msgs = {| msg_role := System; content := prompt |} :: rest /\
               forallb non_system rest = true.
Proof.
  destruct msgs as [|[r c] rest]; simpl; [discriminate|].
  intros H. apply andb_prop in H as [H Hrest]. apply andb_prop in H as [Hs Hc].
  apply is_system_true in Hs. apply str_eqb_eq in Hc. simpl in *. subst.
  now exists rest.
Qed.

Lemma pinned_intro (prompt : str) (rest : list message) :
  forallb non_system rest = true ->
  pinned prompt ({| msg_role := System; content := prompt |} :: rest) = true.
Proof.
  intros H. simpl. rewrite H, str_eqb_refl. reflexivity.
Qed.

Lemma pinned_spec (prompt : str) (msgs : list message) :
  pinned prompt msgs = true <-> system_pinned prompt msgs.
Proof.
  split.
  - intros H. apply pinned_inv in H as (rest & -> & Hrest). split; [reflexivity|].
    intros [|i] m Hm Hrole; [reflexivity|]. simpl in Hm.
    rewrite forallb_forall in Hrest.
    assert (Hin : In m rest) by (apply list_elem_of_In; eapply list_elem_of_lookup_2; eauto).
    apply Hrest in Hin. unfold non_system in Hin. apply negb_true_iff in Hin.
    apply is_system_true in Hrole. congruence.
  - intros [H0 Honly]. destruct msgs as [|m rest]; [discriminate|].
    injection H0 as ->. apply pinned_intro.
    apply forallb_forall. intros m Hin.
    apply list_elem_of_In, list_elem_of_lookup_1 in Hin as [i Hi].
    unfold non_system. apply negb_true_iff.
    destruct (is_system m) eqn:E; [|reflexivity].
    apply is_system_true in E. specialize (Honly (S i) m Hi E). discriminate.
Qed.

(** Appending a message that is not a system message keeps the pin. *)
Lemma pinned_append (prompt : str) (dm : DialogueManager) (r : role) (text : str) :
  r <> System ->
  pinned prompt (messages dm) = true ->
  pinned prompt (messages (append_message dm r text)) = true.
Proof.
  intros Hr H. apply pinned_inv in H as (rest & E & Hrest).
  simpl. rewrite E. simpl. rewrite str_eqb_refl. simpl.
  rewrite forallb_app, Hrest. simpl.
  unfold non_system, is_system. simpl.
  rewrite bool_decide_eq_false_2; auto.
Qed.

(** Outside the runs of the agent the pin can be lost: a second system
    message appended to a pinned conversation breaks it.  The agent appends
    its system message once, when it is created. *)
Remark second_system_message_unpins (prompt : str) (dm : DialogueManager) (text : str) :
  pinned prompt (messages dm) = true ->
  pinned prompt (messages (add_system_message dm text)) = false.
Proof.
  intros H. apply pinned_inv in H as (rest & E & _). simpl. rewrite E. simpl.
  rewrite forallb_app. simpl. rewrite !andb_false_r. reflexivity.
Qed.

Lemma pop_pinned (sys m : message) (rest : list message) :
  is_system sys = true ->
  non_system m = true ->
  pop_first_non_system (sys :: m :: rest) = Some (sys :: rest).
Proof.
  intros Hs Hm. simpl. rewrite Hs.
  unfold non_system in Hm. apply negb_true_iff in Hm. rewrite Hm. reflexivity.
Qed.

(** On a pinned conversation the trimming loop returns; it keeps the pin and
    the newest message. *)
Lemma trim_loop_pinned (prompt : str) (max : Z) (fuel : nat) (msgs : list message) :
  (length msgs <= fuel)%nat ->
  pinned prompt msgs = true ->
  exists msgs', trim_loop fuel max msgs = Trimmed msgs' /\
                pinned prompt msgs' = true /\
                last msgs' = last msgs.
Proof.
  revert msgs. induction fuel as [|fuel IH]; intros msgs Hlen Hpin.
  - destruct msgs; [discriminate | simpl in Hlen; lia].
  - simpl. destruct (over_budget max msgs) eqn:Hover; [|now exists msgs].
    apply pinned_inv in Hpin as (rest & -> & Hrest).
    unfold over_budget in Hover. apply andb_prop in Hover as [_ Hlong].
    apply Z.gtb_lt in Hlong. unfold len in Hlong. simpl in Hlong.
    destruct rest as [|m1 [|m2 rest]]; simpl in Hlong; try lia.
    simpl in Hrest. apply andb_prop in Hrest as [H1 Hrest].
    rewrite pop_pinned by (auto; reflexivity).
    destruct (IH ({| msg_role := System; content := prompt |} :: m2 :: rest))
      as (msgs' & E & Hpin' & Hlast).
    + simpl in *. lia.
    + now apply pinned_intro.
    + exists msgs'. repeat split; auto.
Qed.

Lemma trim_history_pinned (prompt : str) (dm : DialogueManager) :
  pinned prompt (messages dm) = true ->
  exists dm', _trim_history dm = Some dm' /\
              pinned prompt (messages dm') = true /\
              last (messages dm') = last (messages dm) /\
              max_tokens dm' = max_tokens dm /\
              last_tool_was_info dm' = last_tool_was_info dm.
Proof.
  intros H. unfold _trim_history, trim_messages.
  destruct (trim_loop_pinned prompt (max_tokens dm) (length (messages dm)) (messages dm))
    as (msgs' & E & Hpin & Hlast); auto.
  rewrite E. eexists. split; [reflexivity|]. simpl. auto.
Qed.

Lemma add_tool_result_pinned (prompt : str) (dm : DialogueManager)
      (call : tool_call) (res : tool_result) :
  pinned prompt (messages dm) = true ->
  exists dm', add_tool_result dm call res = Some dm' /\
              pinned prompt (messages dm') = true /\
              last (messages dm') =
                Some {| msg_role := User; content := tool_result_message call res |} /\
              max_tokens dm' = max_tokens dm /\
              last_tool_was_info dm' = str_eqb (name call) (u "info").
Proof.
  intros H. unfold add_tool_result.
  set (dm1 := {| max_tokens := max_tokens dm; messages := messages dm;
                 last_tool_was_info := str_eqb (name call) (u "info") |}).
  destruct (trim_history_pinned prompt
              (add_user_message dm1 (tool_result_message call res)))
    as (dm' & E & Hpin & Hlast & Hmax & Hflag).
  { apply pinned_append; [discriminate | exact H]. }
  exists dm'. repeat split; auto.
  rewrite Hlast. simpl. apply last_snoc.
Qed.

(** C7. The result body that [add_tool_result] embeds in the user message it
    synthesizes: a body of more than 4000 characters is cut to its first
    4000 characters, followed by the marker that states the length of the
    whole body; a body of at most 4000 characters is embedded as it is,
    without a marker.  On a pinned conversation the call returns and this
    message is the newest one of the conversation. *)
Theorem add_tool_result_truncation (dm : DialogueManager) (call : tool_call)
        (res : tool_result) (body : str) :
  result res = Some body ->
  exists embedded,
    ((4000 < len body)%Z ->
       embedded = firstn 4000 body ++ nl ++ u "... [内容已截断，共 "
                    ++ str_of_int (len body) ++ u " 字符]" /\
       length (firstn 4000 body) = 4000%nat) /\
    ((len body <= 4000)%Z -> embedded = body) /\
    tool_result_message call res =
      tool_result_header call res ++ u "结果:" ++ nl ++ embedded
        ++ tool_result_reply call res /\
    (forall prompt,
        pinned prompt (messages dm) = true ->
        exists dm',
          add_tool_result dm call res = Some dm' /\
          last (messages dm') =
            Some {| msg_role := User; content := tool_result_message call res |}).
Proof.
  intros Hres. exists (truncate_result body). repeat split.
  - apply Z.gtb_lt in H. unfold truncate_result, truncation_marker. now rewrite H.
  - apply firstn_length_le. unfold len in H. lia.
  - intros Hlen. unfold truncate_result.
    destruct (len body >? 4000)%Z eqn:Hb; [|reflexivity].
    apply Z.gtb_lt in Hb. lia.
  - unfold tool_result_message, tool_result_body. rewrite Hres.
    now rewrite <- !app_assoc.
  - intros prompt Hpin.
    destruct (add_tool_result_pinned prompt dm call res Hpin) as (dm' & E & _ & Hlast & _).
    now exists dm'.
Qed.

Lemma add_tool_result_truncation_witness :
  exists embedded,
    ((4000 < len (repeat 120 4001))%Z ->
       embedded = firstn 4000 (repeat 120 4001) ++ nl ++ u "... [内容已截断，共 "
                    ++ str_of_int (len (repeat 120 4001)) ++ u " 字符]" /\
       length (firstn 4000 (repeat 120 4001)) = 4000%nat) /\
    ((len (repeat 120 4001) <= 4000)%Z -> embedded = repeat 120 4001) /\
    tool_result_message narration long_result =
      tool_result_header narration long_result ++ u "结果:" ++ nl ++ embedded
        ++ tool_result_reply narration long_result /\
    (forall prompt,
        pinned prompt (messages (dialogue_manager fresh_agent)) = true ->
        exists dm',
          add_tool_result (dialogue_manager fresh_agent) narration long_result = Some dm' /\
          last (messages dm') =
            Some {| msg_role := User;
                    content := tool_result_message narration long_result |}).
Proof.
  apply (add_tool_result_truncation (dialogue_manager fresh_agent) narration long_result
                                    (repeat 120 4001)).
  reflexivity.
Defined.

(** ** Turns of the agent *)

Lemma flag_after_app (flag : bool) (t1 t2 : list event) :
  flag_after flag (t1 ++ t2) = flag_after (flag_after flag t1) t2.
Proof. unfold flag_after. apply fold_left_app. Qed.

Lemma flag_after_last_recorded (trace : list event) (flag : bool) :
  flag_after flag trace =
  match last_recorded trace with
  | Some call => str_eqb (name call) (u "info")
  | None => flag
  end.
Proof.
  revert flag. induction trace as [|e trace IH]; intros flag; [reflexivity|].
  change (flag_after flag (e :: trace)) with
    (flag_after (match e with
                 | ResultRecorded call _ => str_eqb (name call) (u "info")
                 | _ => flag
                 end) trace).
  rewrite IH. simpl. destruct (last_recorded trace); [reflexivity|].
  destruct e; reflexivity.
Qed.

Section AgentTurns.
Context {World : Type}.
Variables json_block_rule tool_mention_rule : str -> list str -> rule_result.
Variable prompt : str.

Local Abbreviation process := (@process_message World json_block_rule tool_mention_rule).
Local Abbreviation complete :=
  (@complete_interaction World json_block_rule tool_mention_rule).
Local Abbreviation sound := (@sound_turn World prompt).

Lemma dispatch_sound (agent : AIAgent World) (env : turn_env World)
      (before : list event) (call : tool_call) :
  pinned prompt (conversation agent) = true ->
  sound agent before (dispatch agent env before call).
Proof.
  intros Hpin. unfold dispatch, sound_turn.
  destruct (str_eqb (name call) (u "info") && was_last_tool_info (dialogue_manager agent))
    eqn:Hguard.
  - destruct (add_tool_result_pinned prompt _ call info_loop_result Hpin)
      as (dm' & -> & Hpin' & _ & _ & Hflag).
    eexists _, _, _. split; [reflexivity|]. repeat split; auto.
  - destruct (get_tool_function (tool_manager agent) (name call)) as [f|].
    + destruct (str_eqb (name call) (u "interact")).
      * eexists [], _, _. rewrite app_nil_r. split; [reflexivity|]. repeat split; auto.
      * destruct (call_tool f (world env) (args call)) as [e|res].
        -- eexists _, _, _. split; [reflexivity|]. repeat split; auto.
        -- destruct (add_tool_result_pinned prompt _ call res Hpin)
             as (dm' & -> & Hpin' & _ & _ & Hflag).
           eexists _, _, _. split; [reflexivity|]. repeat split; auto.
    + destruct (add_tool_result_pinned prompt _ call
                  (unknown_tool_result (name call)) Hpin)
        as (dm' & -> & Hpin' & _ & _ & Hflag).
      eexists _, _, _. split; [reflexivity|]. repeat split; auto.
Qed.

Lemma process_message_sound (agent : AIAgent World) (env : turn_env World) (text : str) :
  pinned prompt (conversation agent) = true ->
  sound agent [] (process agent env text).
Proof.
  intros Hpin. unfold process_message.
  set (dm1 := add_user_message (dialogue_manager agent) text).
  assert (Hpin1 : pinned prompt (messages dm1) = true)
    by (apply pinned_append; [discriminate | exact Hpin]).
  destruct (send_request env (get_messages dm1)) as [err details|choices] eqn:Hsend.
  - eexists [ModelRequest (get_messages dm1)], _, _. split; [reflexivity|].
    repeat split; auto.
  - set (dm2 := match first_content choices with
                | [] => dm1
                | c :: text0 => add_assistant_message dm1 (c :: text0)
                end).
    assert (Hpin2 : pinned prompt (messages dm2) = true).
    { subst dm2. destruct (first_content choices); [exact Hpin1|].
      apply pinned_append; [discriminate | exact Hpin1]. }
    assert (Hflag2 : last_tool_was_info dm2 = last_tool_was_info (dialogue_manager agent)).
    { subst dm2. destruct (first_content choices); reflexivity. }
    assert (Hd : forall call,
               sound agent [] (dispatch (set_dialogue agent dm2) env
                                             [ModelRequest (get_messages dm1)] call)).
    { intros call.
      destruct (dispatch_sound (set_dialogue agent dm2) env
                  [ModelRequest (get_messages dm1)] call Hpin2)
        as (trace & agent' & c & E & Hp & Htm & Hf).
      exists (ModelRequest (get_messages dm1) :: trace), agent', c.
      split; [exact E|]. repeat split; auto.
      unfold info_flag, was_last_tool_info in *. simpl in Hf.
      rewrite Hf, Hflag2. reflexivity. }
    destruct (parse_response json_block_rule tool_mention_rule
                (ResponseBody choices)
                (map fst (get_tool_descriptions (tool_manager agent)))).
    + eexists [ModelRequest (get_messages dm1)], _, _. split; [reflexivity|].
      repeat split; auto.
    + apply Hd.
    + apply Hd.
Qed.

Lemma complete_interaction_sound (agent : AIAgent World) (env : turn_env World)
      (id reply : str) :
  pinned prompt (conversation agent) = true ->
  sound agent [] (complete agent env id reply).
Proof.
  intros Hpin. unfold complete_interaction.
  destruct (pending_interactions agent !! id) as [pending|].
  - destruct (add_tool_result_pinned prompt _ (pending_call pending)
                (reply_result reply) Hpin)
      as (dm' & -> & Hpin' & _ & _ & Hflag).
    match goal with
    | |- sound_turn _ _ _ (after_record _ (process_message _ _ ?a _ _)) =>
        destruct (process_message_sound a env (u "继续执行任务") Hpin')
          as (trace & agent' & c & E & Hp & Htm & Hf)
    end.
    simpl in E. rewrite E. simpl.
    exists (ResultRecorded (pending_call pending) (reply_result reply) :: trace), agent', c.
    split; [reflexivity|]. repeat split; auto.
    unfold info_flag, was_last_tool_info in *. simpl in Hf. simpl.
    rewrite Hf, Hflag. reflexivity.
  - eexists [], agent, _. split; [reflexivity|]. repeat split; auto.
Qed.

Lemma run_sound (tm : ToolManager World) (max : Z) (tr : list event)
      (agent : AIAgent World) :
  run json_block_rule tool_mention_rule (new_agent tm max prompt) tr agent ->
  pinned prompt (conversation agent) = true /\
  info_flag agent = flag_after false tr.
Proof.
  induction 1 as [|tr agent env text trace agent' c _ [IHp IHf] E
                  |tr agent env id reply trace agent' c _ [IHp IHf] E].
  - split; [|reflexivity]. unfold conversation. simpl.
    rewrite str_eqb_refl. reflexivity.
  - destruct (process_message_sound agent env text IHp)
      as (trace0 & agent0 & c0 & E0 & Hp & _ & Hf).
    rewrite E in E0. injection E0 as -> -> ->.
    split; [exact Hp|]. rewrite flag_after_app, <- IHf. exact Hf.
  - destruct (complete_interaction_sound agent env id reply IHp)
      as (trace0 & agent0 & c0 & E0 & Hp & _ & Hf).
    rewrite E in E0. injection E0 as -> -> ->.
    split; [exact Hp|]. rewrite flag_after_app, <- IHf. exact Hf.
Qed.
End AgentTurns.

Section AgentInvariants.
Context {World : Type}.
Variables json_block_rule tool_mention_rule : str -> list str -> rule_result.
Variable prompt : str.
Variable tm : ToolManager World.
Variable max : Z.

Local Abbreviation process := (@process_message World json_block_rule tool_mention_rule).
Local Abbreviation complete :=
  (@complete_interaction World json_block_rule tool_mention_rule).
Local Abbreviation runs :=
  (@run World json_block_rule tool_mention_rule (new_agent tm max prompt)).

(** C5. In every state that an agent reaches from its creation by any
    number of turns, the message at index 0 is the system message given at
    creation and it is the only message with the system role; appending a
    user or an assistant message keeps this, a trim returns and keeps it,
    recording a tool result (an append followed by a trim) returns and
    keeps it, and every turn on such a state ends. *)
Theorem system_message_pinned (tr : list event) (agent : AIAgent World) :
  runs tr agent ->
  let dm := dialogue_manager agent in
  system_pinned prompt (messages dm) /\
  (forall text, system_pinned prompt (messages (add_user_message dm text))) /\
  (forall text, system_pinned prompt (messages (add_assistant_message dm text))) /\
  (exists dm', _trim_history dm = Some dm' /\ system_pinned prompt (messages dm')) /\
  (forall call res, exists dm',
      add_tool_result dm call res = Some dm' /\ system_pinned prompt (messages dm')) /\
  (forall env text, exists trace agent' c,
      process agent env text = Done trace agent' c) /\
  (forall env id reply, exists trace agent' c,
      complete agent env id reply = Done trace agent' c).
Proof.
  intros Hrun dm.
  apply run_sound in Hrun as [Hpin _]. fold dm in Hpin.
  unfold conversation in Hpin.
  split; [|split; [|split; [|split; [|split; [|split]]]]].
  - apply pinned_spec, Hpin.
  - intros text. apply pinned_spec, pinned_append; [discriminate | exact Hpin].
  - intros text. apply pinned_spec, pinned_append; [discriminate | exact Hpin].
  - destruct (trim_history_pinned prompt dm Hpin) as (dm' & E & Hp & _).
    exists dm'. split; [exact E | apply pinned_spec, Hp].
  - intros call res.
    destruct (add_tool_result_pinned prompt dm call res Hpin) as (dm' & E & Hp & _).
    exists dm'. split; [exact E | apply pinned_spec, Hp].
  - intros env text.
    destruct (process_message_sound json_block_rule tool_mention_rule prompt
                agent env text Hpin) as (trace & agent' & c & E & _).
    now exists trace, agent', c.
  - intros env id reply.
    destruct (complete_interaction_sound json_block_rule tool_mention_rule prompt
                agent env id reply Hpin) as (trace & agent' & c & E & _).
    now exists trace, agent', c.
Qed.

(** C10. In every run the flag [last_tool_was_info] says whether the most
    recently recorded tool result was recorded under the name [info]
    (false when none was recorded).  When the flag is set and the model
    answers with an [info] call, the call is intercepted: the turn records
    the synthetic failed result under that call, invokes no tool, returns
    the warning, and leaves the flag set, so that the next [info] call is
    intercepted as well.  A turn changes the flag only by recording a
    result: after it, the flag is that of the result it recorded last, and
    is unchanged if it recorded none. *)
Theorem info_flag_follows_records (tr : list event) (agent : AIAgent World) :
  runs tr agent ->
  info_flag agent = last_recorded_was_info tr /\
  (forall env text call,
      info_flag agent = true ->
      parse_response json_block_rule tool_mention_rule
        (send_request env (conversation agent ++ [{| msg_role := User; content := text |}]))
        (map fst (get_tool_descriptions (tool_manager agent))) = ParsedCall call ->
      name call = u "info" ->
      exists agent',
        process agent env text =
          Done [ModelRequest (conversation agent ++ [{| msg_role := User; content := text |}]);
                ResultRecorded call info_loop_result]
               agent'
               (Returns (WarningResponse
                           (u "连续使用info工具")
                           (u "检测到连续使用info工具。请改用其他工具执行具体操作。")
                           (u "请使用其他工具执行具体操作，而非继续提供信息。"))) /\
        info_flag agent' = true) /\
  (forall env text trace agent' c,
      process agent env text = Done trace agent' c ->
      info_flag agent' = match last_recorded trace with
                         | Some call => str_eqb (name call) (u "info")
                         | None => info_flag agent
                         end).
Proof.
  intros Hrun.
  apply run_sound in Hrun as [Hpin Hflag].
  split; [|split].
  - rewrite Hflag, flag_after_last_recorded. reflexivity.
  - intros env text call Hset Hparse Hname.
    unfold process_message.
    change (get_messages (add_user_message (dialogue_manager agent) text))
      with (conversation agent ++ [{| msg_role := User; content := text |}]).
    destruct (send_request env _) as [err details|choices]; [discriminate|].
    rewrite Hparse.
    set (dm2 := match first_content choices with
                | [] => add_user_message (dialogue_manager agent) text
                | c :: s => add_assistant_message
                              (add_user_message (dialogue_manager agent) text) (c :: s)
                end).
    assert (Hpin2 : pinned prompt (messages dm2) = true).
    { subst dm2. destruct (first_content choices);
        repeat (apply pinned_append; [discriminate|]); exact Hpin. }
    assert (Hflag2 : was_last_tool_info dm2 = true).
    { subst dm2. destruct (first_content choices); exact Hset. }
    unfold dispatch. simpl dialogue_manager.
    rewrite Hflag2, Hname, str_eqb_refl. simpl andb. cbv iota.
    destruct (add_tool_result_pinned prompt dm2 call info_loop_result Hpin2)
      as (dm' & E & _ & _ & _ & Hf).
    rewrite E.
    eexists. split; [reflexivity|].
    unfold info_flag, was_last_tool_info. simpl.
    rewrite Hf, Hname. apply str_eqb_refl.
  - intros env text trace agent' c E.
    destruct (process_message_sound json_block_rule tool_mention_rule prompt
                agent env text Hpin) as (trace0 & agent0 & c0 & E0 & _ & _ & Hf).
    rewrite E in E0. injection E0 as -> -> ->.
    rewrite Hf. apply flag_after_last_recorded.
Qed.
End AgentInvariants.

Lemma system_message_pinned_witness :
  system_pinned (u "You are Axiom Agent.")
                (conversation (turn_agent fresh_agent (narrating no_rule no_rule))).
Proof.
  refine (proj1 (system_message_pinned no_rule no_rule (u "You are Axiom Agent.")
                  repo_registry 16000
                  (turn_trace (narrating no_rule no_rule))
                  (turn_agent fresh_agent (narrating no_rule no_rule)) _)).
  apply (run_process no_rule no_rule fresh_agent [] fresh_agent
           (answering (u "info(content='working')")) (u "deploy the site")
           (turn_trace (narrating no_rule no_rule))
           (turn_agent fresh_agent (narrating no_rule no_rule))
           (Returns (ToolResultResponse (u "info") true (u "working")))).
  - apply run_start.
  - vm_compute. reflexivity.
Defined.

Lemma info_flag_follows_records_witness :
  info_flag (turn_agent fresh_agent (narrating no_rule no_rule)) =
  last_recorded_was_info (turn_trace (narrating no_rule no_rule)).
Proof.
  refine (proj1 (info_flag_follows_records no_rule no_rule (u "You are Axiom Agent.")
                  repo_registry 16000
                  (turn_trace (narrating no_rule no_rule))
                  (turn_agent fresh_agent (narrating no_rule no_rule)) _)).
  apply (run_process no_rule no_rule fresh_agent [] fresh_agent
           (answering (u "info(content='working')")) (u "deploy the site")
           (turn_trace (narrating no_rule no_rule))
           (turn_agent fresh_agent (narrating no_rule no_rule))
           (Returns (ToolResultResponse (u "info") true (u "working")))).
  - apply run_start.
  - vm_compute. reflexivity.
Defined.

(** In the deployment, a second narration in a row is intercepted: the
    answer is the warning and the info tool is not invoked. *)
Lemma second_narration_intercepted :
  turn_completion
    (process_message no_rule no_rule
       (turn_agent fresh_agent (narrating no_rule no_rule))
       (answering (u "info(content='still working')")) (u "go on"))
    = Some (Returns (WarningResponse
                       (u "连续使用info工具")
                       (u "检测到连续使用info工具。请改用其他工具执行具体操作。")
                       (u "请使用其他工具执行具体操作，而非继续提供信息。"))) /\
  existsb (fun e => match e with ToolInvoked _ _ => true | _ => false end)
    (turn_trace
       (process_message no_rule no_rule
          (turn_agent fresh_agent (narrating no_rule no_rule))
          (answering (u "info(content='still working')")) (u "go on")))
    = false.
Proof. split; vm_compute; reflexivity. Qed.

(** ** The sessions of the service *)

(** An object that holds a key is not the empty one. *)
Lemma held_key_nonempty (o : option str) (t : str) : truthy o = Some t -> o <> None.
Proof. intros H ->. discriminate. Qed.

Lemma session_id_nonempty (data : chat_request) (t : str) :
  truthy (req_session_id data) = Some t -> empty_object data = false.
Proof.
  intros H. apply held_key_nonempty in H. unfold empty_object.
  destruct (req_session_id data); [reflexivity | contradiction].
Qed.

Lemma message_nonempty (data : chat_request) (t : str) :
  truthy (req_message data) = Some t -> empty_object data = false.
Proof.
  intros H. apply held_key_nonempty in H. unfold empty_object.
  destruct (req_session_id data); [reflexivity|].
  destruct (req_message data); [reflexivity | contradiction].
Qed.

Lemma interaction_id_nonempty (data : chat_request) (t : str) :
  truthy (req_interaction_id data) = Some t -> empty_object data = false.
Proof.
  intros H. apply held_key_nonempty in H. unfold empty_object.
  destruct (req_session_id data); [reflexivity|].
  destruct (req_message data); [reflexivity|].
  destruct (req_interaction_id data); [reflexivity | contradiction].
Qed.

Lemma other_keys_nonempty (data : chat_request) :
  req_other_keys data = true -> empty_object data = false.
Proof.
  intros H. unfold empty_object. rewrite H.
  destruct (req_session_id data); [reflexivity|].
  destruct (req_message data); [reflexivity|].
  destruct (req_interaction_id data); [reflexivity|].
  apply andb_false_r.
Qed.

Lemma continue_nonempty (data : chat_request) :
  req_continue data = true -> empty_object data = false.
Proof.
  intros H. unfold empty_object. rewrite H.
  destruct (req_session_id data); [reflexivity|].
  destruct (req_message data); [reflexivity|].
  destruct (req_interaction_id data); reflexivity.
Qed.

Section SurfaceInvariant.
Context {World : Type}.
Variables json_block_rule tool_mention_rule : str -> list str -> rule_result.

Local Abbreviation process := (@process_message World json_block_rule tool_mention_rule).

(** The dispatch adds no request to the model backend to the trace. *)
Lemma dispatch_trace (agent : AIAgent World) (env : turn_env World)
      (before : list event) (call : tool_call) :
  exists rest,
    turn_trace (dispatch agent env before call) = before ++ rest /\
    existsb is_model_request rest = false.
Proof.
  unfold dispatch.
  destruct (str_eqb (name call) (u "info") && was_last_tool_info (dialogue_manager agent)).
  - destruct (add_tool_result (dialogue_manager agent) call info_loop_result);
      [eexists; split; reflexivity | exists []; now rewrite app_nil_r].
  - destruct (get_tool_function (tool_manager agent) (name call)) as [f|].
    + destruct (str_eqb (name call) (u "interact")).
      * exists []. now rewrite app_nil_r.
      * destruct (call_tool f (world env) (args call)) as [e|res].
        -- eexists; split; reflexivity.
        -- destruct (add_tool_result (dialogue_manager agent) call res);
             eexists; split; reflexivity.
    + destruct (add_tool_result (dialogue_manager agent) call
                  (unknown_tool_result (name call)));
        [eexists; split; reflexivity | exists []; now rewrite app_nil_r].
Qed.

(** Every call of [process_message] asks the model once, with the
    conversation extended by the message as a user message. *)
Lemma process_message_asks_model (agent : AIAgent World) (env : turn_env World)
      (text : str) :
  exists rest,
    turn_trace (process agent env text) =
      ModelRequest (conversation agent ++ [{| msg_role := User; content := text |}])
        :: rest /\
    existsb is_model_request rest = false.
Proof.
  unfold process_message.
  change (get_messages (add_user_message (dialogue_manager agent) text))
    with (conversation agent ++ [{| msg_role := User; content := text |}]).
  destruct (send_request env (conversation agent ++ [{| msg_role := User; content := text |}]))
    as [err details|choices].
  - now exists [].
  - destruct (parse_response json_block_rule tool_mention_rule (ResponseBody choices)
                (map fst (get_tool_descriptions (tool_manager agent)))).
    + now exists [].
    + apply dispatch_trace.
    + apply dispatch_trace.
Qed.

Lemma sessions_pinned_insert (st : app_state World) (sid : str) (agent : AIAgent World)
      (prompt : str) :
  sessions_pinned st ->
  pinned prompt (conversation agent) = true ->
  sessions_pinned (set_session st sid agent).
Proof.
  intros Hst Hpin. unfold sessions_pinned. simpl.
  apply map_Forall_insert_2; [now exists prompt | exact Hst].
Qed.

Lemma sessions_pinned_create (st : app_state World) (env : request_env World) (sid : str) :
  sessions_pinned st -> sessions_pinned (create_session st env sid).
Proof.
  intros Hst. unfold sessions_pinned. simpl.
  apply map_Forall_insert_2; [|exact Hst].
  exists (system_prompt env). unfold conversation. simpl.
  rewrite str_eqb_refl. reflexivity.
Qed.

(** A request to a state whose sessions are pinned is answered, and the
    sessions of the state it leaves are pinned. *)
Lemma chat_turn_sound (st : app_state World) (env : request_env World) (sid : str)
      (agent : AIAgent World) (continue_execution : bool) (text prompt : str) :
  sessions_pinned st ->
  pinned prompt (conversation agent) = true ->
  answered_soundly
    (chat_turn json_block_rule tool_mention_rule st env sid agent continue_execution text).
Proof.
  intros Hst Ha. unfold chat_turn, answered_soundly.
  destruct (process_message_sound json_block_rule tool_mention_rule prompt agent
              (turn_surroundings env)
              (if continue_execution && get_default (continuation_flags st !! sid) false
               then u "继续执行任务" else text) Ha)
    as (tr & agent' & c & -> & Hp & _).
  assert (Hs : sessions_pinned (set_session (set_flag st sid false) sid agent'))
    by (eapply sessions_pinned_insert; [exact Hst | exact Hp]).
  destruct c as [result|e]; eexists _, _, _; (split; [reflexivity|]); [|exact Hs].
  destruct (str_eqb (response_type result) (u "interaction_required"));
    [destruct (interaction_id_of result)|]; exact Hs.
Qed.

Lemma chat_completion_sound (st : app_state World) (env : request_env World) (sid : str)
      (agent : AIAgent World) (id : str) (data : interaction_request)
      (reply prompt : str) :
  sessions_pinned st ->
  pinned prompt (conversation agent) = true ->
  answered_soundly
    (chat_completion json_block_rule tool_mention_rule st env sid agent id data reply).
Proof.
  intros Hst Ha. unfold chat_completion, answered_soundly.
  destruct (complete_interaction_sound json_block_rule tool_mention_rule prompt agent
              (turn_surroundings env) id reply Ha)
    as (tr & agent' & c & -> & Hp & _).
  destruct c as [result|e]; eexists _, _, _; (split; [reflexivity|]);
    eapply sessions_pinned_insert; try exact Hp; exact Hst.
Qed.

Lemma handle_chat_sound (st : app_state World) (env : request_env World)
      (body : option chat_request) :
  sessions_pinned st ->
  answered_soundly (handle_chat json_block_rule tool_mention_rule st env body).
Proof.
  intros Hst. unfold handle_chat, chat.
  assert (H0 : sessions_pinned (cleanup_expired_data st (now env))) by exact Hst.
  set (st0 := cleanup_expired_data st (now env)) in *. clearbody st0.
  destruct body as [data|]; [|now eexists _, _, _].
  destruct (empty_object data); [now eexists _, _, _|].
  set (p := match truthy (req_session_id data) with
            | Some sid => (sid, st0)
            | None => (session_uuid env, create_session st0 env (session_uuid env))
            end).
  assert (H1 : sessions_pinned (snd p)).
  { subst p. destruct (truthy (req_session_id data)); simpl;
      [exact H0 | now apply sessions_pinned_create]. }
  destruct p as [sid st1]. simpl in H1.
  destruct (truthy (req_message data)) as [text|]; [|now eexists _, _, _].
  set (st2 := match sessions st1 !! sid with
              | Some _ => st1
              | None => create_session st1 env sid
              end).
  assert (H2 : sessions_pinned st2).
  { subst st2. destruct (sessions st1 !! sid); [exact H1 | now apply sessions_pinned_create]. }
  set (agent := get_default (sessions st2 !! sid) _).
  assert (Ha : exists prompt, pinned prompt (conversation agent) = true).
  { subst agent. destruct (sessions st2 !! sid) as [a|] eqn:Ea; simpl.
    - exact (H2 sid a Ea).
    - exists (system_prompt env). unfold conversation. simpl.
      rewrite str_eqb_refl. reflexivity. }
  destruct Ha as [prompt Ha]. clearbody agent st2.
  destruct (truthy (req_interaction_id data)) as [id|];
    [destruct (interaction_requests st2 !! id) as [pending|]|];
    eauto using chat_turn_sound, chat_completion_sound.
Qed.

(** In every state of the service, every session holds a conversation with
    a pinned system message, and every request is answered. *)
Lemma served_sessions_pinned (st : app_state World) :
  served json_block_rule tool_mention_rule st ->
  sessions_pinned st /\
  forall env body, exists trace st' r,
    handle_chat json_block_rule tool_mention_rule st env body = Responded trace st' r.
Proof.
  intros H.
  assert (Hp : sessions_pinned st).
  { induction H as [|st env body trace st' r _ IH E].
    - unfold sessions_pinned. simpl. apply map_Forall_empty.
    - destruct (handle_chat_sound st env body IH) as (trace0 & st0 & r0 & E0 & Hp).
      rewrite E in E0. injection E0 as _ -> _. exact Hp. }
  split; [exact Hp|].
  intros env body.
  destruct (handle_chat_sound st env body Hp) as (trace & st' & r & E & _).
  now exists trace, st', r.
Qed.
End SurfaceInvariant.

(** ** The sensitive-command gate *)

(** In [main.py] a rule whose pattern is the base command returns its own
    description before the compound checks of the same rule are looked
    at. *)
Lemma main_gate_basic_match_first (casemap : str -> str) (current_os : str)
      (command base_cmd : str) (cmd_parts : list str)
      (r : sensitive_cmd) (rest : list sensitive_cmd) :
  applies_to current_os (get_default (os r) []) = true ->
  matches_start base_cmd (lower casemap (get_default (pattern r) (u ""))) = true ->
  MainPy.check_rules casemap current_os command base_cmd cmd_parts (r :: rest) =
    (true, get_default (description r) (u "敏感命令")).
Proof. intros Hos Hm. simpl. rewrite Hos, Hm. reflexivity. Qed.

(** C1. On the default rule set of [main.py], which holds the pattern [rm],
    and on Linux, the command [rm -rf /] is reported as sensitive with the
    description of the [rm] rule, not with the description of the compound
    check for a dangerous recursive delete. *)
Theorem main_gate_rm_rf_root (casemap : str -> str) :
  MainPy.is_sensitive_command casemap (u "linux") MainPy.default_sensitive_commands
                              (u "rm -rf /")
    = (true, u "删除文件或目录命令") /\
  MainPy.is_sensitive_command casemap (u "linux") MainPy.default_sensitive_commands
                              (u "rm -rf /")
    <> (true, u "危险的递归删除命令").
Proof. split; [vm_compute; reflexivity | vm_compute; discriminate]. Qed.

(** This does not depend on the rest of the rule set: whenever the first
    rule is a rule for [rm] that applies to the platform, [rm -rf /] gets
    the description of that rule. *)
Lemma main_gate_rm_rule_first (casemap : str -> str) (current_os : str)
      (text : option str) (platforms : option (list str)) (rest : list sensitive_cmd) :
  applies_to current_os (get_default platforms []) = true ->
  MainPy.is_sensitive_command casemap current_os
    ({| pattern := Some (u "rm"); description := text; os := platforms |} :: rest)
    (u "rm -rf /")
    = (true, get_default text (u "敏感命令")).
Proof.
  intros Hos. unfold MainPy.is_sensitive_command.
  change (shlex_split (u "rm -rf /")) with (@inr shlex_error _ [u "rm"; u "-rf"; u "/"]).
  cbv iota beta.
  apply main_gate_basic_match_first; [exact Hos | reflexivity].
Qed.

(** A recursive delete of another path is sensitive in the same way:
    [rm -rf /tmp/x] gets the description of the [rm] rule. *)
Lemma main_gate_rm_rf_tmp (casemap : str -> str) :
  MainPy.is_sensitive_command casemap (u "linux") MainPy.default_sensitive_commands
                              (u "rm -rf /tmp/x")
    = (true, u "删除文件或目录命令").
Proof. vm_compute. reflexivity. Qed.

(** The compound description is returned when the rule that fires only
    occurs inside the command: here a rule for the option [-rf] comes before
    the [rm] rule. *)
Lemma main_gate_compound_after_substring (casemap : str -> str) :
  MainPy.is_sensitive_command casemap (u "linux")
    (MainPy.rule "-rf" "递归强制选项" [] :: MainPy.default_sensitive_commands)
    (u "rm -rf /")
    = (true, u "危险的递归删除命令").
Proof. vm_compute. reflexivity. Qed.

(** [agent.py] has no compound check: the same command gets the description
    of the [rm] rule. *)
Lemma agent_gate_rm_rf_root (casemap : str -> str) :
  AgentPy.is_sensitive_command casemap (u "linux") MainPy.default_sensitive_commands
                               (u "rm -rf /")
    = (true, u "删除文件或目录命令").
Proof. vm_compute. reflexivity. Qed.

(** [main.py] fails closed: a command that [shlex.split] rejects is
    sensitive. *)
Lemma main_gate_fails_closed (casemap : str -> str) (current_os : str)
      (rules : list sensitive_cmd) (command : str) (e : shlex_error) :
  shlex_split command = inl e ->
  MainPy.is_sensitive_command casemap current_os rules command
    = (true, u "命令检查异常，请谨慎执行").
Proof. intros H. unfold MainPy.is_sensitive_command. rewrite H. reflexivity. Qed.

(** The [except] branch of [agent.py]: a command that [shlex.split] rejects
    is reported as not sensitive. *)
Lemma agent_gate_lexer_error (casemap : str -> str) (current_os : str)
      (rules : list sensitive_cmd) (command : str) (e : shlex_error) :
  shlex_split command = inl e ->
  AgentPy.is_sensitive_command casemap current_os rules command = (false, u "").
Proof.
  intros H. unfold AgentPy.is_sensitive_command. rewrite H.
  destruct rules; reflexivity.
Qed.

(** C2. [agent.py] (and [tools/execute.py], which carries the same function)
    fails open: a command that [shlex.split] rejects is reported as not
    sensitive, whatever the rule set. *)
Theorem agent_gate_fails_open (casemap : str -> str) (current_os : str)
        (rules : list sensitive_cmd) (command : str) (e : shlex_error) :
  shlex_split command = inl e ->
  AgentPy.is_sensitive_command casemap current_os rules command = (false, u "").
Proof. apply agent_gate_lexer_error. Qed.

Lemma agent_gate_fails_open_witness :
  shlex_split (u "rm -rf / '") = inl NoClosingQuotation /\
  AgentPy.is_sensitive_command (fun s => s) (u "linux") MainPy.default_sensitive_commands
                               (u "rm -rf / '") = (false, u "").
Proof.
  split; [reflexivity|].
  apply (agent_gate_fails_open (fun s => s) (u "linux") MainPy.default_sensitive_commands
                               (u "rm -rf / '") NoClosingQuotation).
  reflexivity.
Defined.

(** What failing open costs: [tools/execute.py] hands a command that
    [shlex.split] rejects to the shell without a warning, whatever the rule
    set. *)
Lemma execute_runs_rejected_command {World : Type} (casemap : str -> str)
      (current_os : str) (security_json : World -> list sensitive_cmd)
      (run_subprocess : World -> str -> tool_result)
      (w : World) (command : str) (e : shlex_error) :
  shlex_split command = inl e ->
  ExecuteTool.execute World casemap current_os security_json run_subprocess w command
    = run_subprocess w command.
Proof.
  intros H. unfold ExecuteTool.execute, ExecuteTool.is_sensitive_command.
  rewrite (agent_gate_lexer_error casemap current_os (security_json w) command e H).
  reflexivity.
Qed.

(** ** The response parser *)

Lemma endswith_nonempty (p s : str) : p <> [] -> endswith p s = true -> s <> [].
Proof.
  intros Hp H ->. unfold endswith in H. simpl in H.
  destruct (rev p) eqn:E; [|discriminate].
  apply (f_equal (@rev _)) in E. rewrite rev_involutive in E. simpl in E. contradiction.
Qed.

Lemma strip_nil : strip [] = [].
Proof. reflexivity. Qed.

(** The EOF rule is the first of the cascade: a reply whose trimmed text
    ends with [EOF] parses to the EOF mark, whatever the later rules would
    make of it. *)
Lemma eof_rule_first (json_block_rule tool_mention_rule : str -> list str -> rule_result)
      (text : str) (available_tools : list str) :
  endswith (u "EOF") (strip text) = true ->
  parse_response json_block_rule tool_mention_rule (model_reply text) available_tools = ParsedEOF.
Proof.
  intros H. unfold parse_response, model_reply, first_content. simpl.
  destruct text as [|c text].
  - rewrite strip_nil in H. discriminate.
  - rewrite H, orb_true_r. reflexivity.
Qed.


(** Without the EOF rule the same reply is not recognised by the later
    rules that the model spells out: no call syntax, no keyword. *)
Lemma done_eof_has_no_keyword :
  call_syntax_rule (u "done, EOF") [u "exit"] = None /\
  guess_tool (u "done, EOF") [u "exit"] =
    ParseError (u "无法解析响应为工具调用") (Some (u "done, EOF")).
Proof. split; reflexivity. Qed.

(** ** The HTTP surface *)

Section Surface.
Context {World : Type}.
Variables json_block_rule tool_mention_rule : str -> list str -> rule_result.

Local Abbreviation process := (@process_message World json_block_rule tool_mention_rule).
Local Abbreviation serve_message := (@chat_turn World json_block_rule tool_mention_rule).
Local Abbreviation serve := (@chat World json_block_rule tool_mention_rule).
Local Abbreviation handle := (@handle_chat World json_block_rule tool_mention_rule).

Lemma flag_of_set_flag (st : app_state World) (sid : str) (flag : bool) :
  get_default (continuation_flags (set_flag st sid flag) !! sid) false = flag.
Proof. simpl. rewrite lookup_insert_eq. reflexivity. Qed.

(** On the message path the flag of the response is set by the type of the
    result alone. *)
Lemma chat_turn_has_continuation (st : app_state World) (env : request_env World)
      (sid : str) (agent : AIAgent World) (continue_execution : bool) (text : str)
      (trace : list event) (st' : app_state World) (result : response)
      (sid' : str) (hc : bool) :
  serve_message st env sid agent continue_execution text
    = Responded trace st' (JsonResult result sid' hc) ->
  hc = negb (str_eqb (response_type result) (u "interaction_required")).
Proof.
  unfold chat_turn.
  destruct (process_message _ _ _ _ _) as [tr agent' [r|e]|tr]; try discriminate.
  intros [= _ _ <- _ <-].
  destruct (str_eqb (response_type r) (u "interaction_required")).
  - destruct (interaction_id_of r); apply flag_of_set_flag.
  - apply flag_of_set_flag.
Qed.

(** A request that answers no live interaction is served by the message
    path. *)
Lemma chat_message_path (st : app_state World) (env : request_env World)
      (data : chat_request) (trace : list event) (st' : app_state World)
      (r : http_response) :
  match truthy (req_interaction_id data) with
  | Some id => interaction_requests st !! id = None
  | None => True
  end ->
  serve st env (Some data) = Responded trace st' r ->
  (exists error status, r = JsonError (Literal error) status /\ trace = []) \/
  (exists st0 sid agent text,
      serve_message st0 env sid agent (req_continue data) text = Responded trace st' r).
Proof.
  intros Hno. unfold chat.
  destruct (empty_object data); [intros [= <- _ <-]; left; eauto|].
  destruct (truthy (req_session_id data)) as [sid|];
    (destruct (truthy (req_message data)) as [text|];
     [|intros [= <- _ <-]; left; eauto]).
  - destruct (truthy (req_interaction_id data)) as [id|].
    + assert (E : forall st1 : app_state World,
                 interaction_requests st1 = interaction_requests st ->
                 interaction_requests st1 !! id = None)
        by (intros st1 ->; exact Hno).
      rewrite E by (destruct (sessions st !! sid); reflexivity).
      intros H. right. eauto.
    + intros H. right. eauto.
  - destruct (truthy (req_interaction_id data)) as [id|].
    + assert (E : forall st1 : app_state World,
                 interaction_requests st1 = interaction_requests st ->
                 interaction_requests st1 !! id = None)
        by (intros st1 ->; exact Hno).
      rewrite E by (simpl; rewrite lookup_insert_eq; reflexivity).
      intros H. right. eauto.
    + intros H. right. eauto.
Qed.

(** C9. For a request to [/api/chat] that answers no live interaction (a
    new message or a continuation), whenever the endpoint sends a result,
    its [has_continuation] is false exactly when the type of the result is
    [interaction_required]; results of type [exit], [error] and [warning]
    carry [has_continuation] true. *)
Theorem has_continuation_iff_not_interaction
        (st : app_state World) (env : request_env World) (data : chat_request)
        (trace : list event) (st' : app_state World) (result : response)
        (sid : str) (hc : bool) :
  answers_interaction st env data = false ->
  handle st env (Some data) = Responded trace st' (JsonResult result sid hc) ->
  (hc = false <-> response_type result = u "interaction_required") /\
  (response_type result = u "exit" \/ response_type result = u "error" \/
   response_type result = u "warning" -> hc = true).
Proof.
  intros Hno H. unfold handle_chat in H.
  apply chat_message_path in H as [(error & status & [=] & _)|(st0 & sid0 & agent & text & H)].
  - apply chat_turn_has_continuation in H. subst hc. split.
    + rewrite negb_false_iff. apply str_eqb_eq.
    + intros [E|[E|E]]; rewrite E; reflexivity.
  - unfold answers_interaction in Hno.
    destruct (truthy (req_interaction_id data)) as [id|]; [|exact I].
    destruct (interaction_requests (cleanup_expired_data st (now env)) !! id);
      [discriminate | reflexivity].
Qed.

(** An exception that leaves [process_message] is caught by the blanket
    handler of the view: the answer is an error payload with status 500. *)
Lemma chat_turn_exception (st : app_state World) (env : request_env World)
      (sid : str) (agent : AIAgent World) (continue_execution : bool) (text : str)
      (trace : list event) (agent' : AIAgent World) (e : exn) :
  process agent (turn_surroundings env)
    (if continue_execution && get_default (continuation_flags st !! sid) false
     then u "继续执行任务" else text)
    = Done trace agent' (Raises e) ->
  serve_message st env sid agent continue_execution text
    = Responded trace (set_session (set_flag st sid false) sid agent')
                (JsonError (ExceptionText e) 500).
Proof. intros H. unfold chat_turn. rewrite H. reflexivity. Qed.

(** An interaction request older than 1800 seconds is gone once the hook
    has run. *)
Lemma cleanup_drops_expired (st : app_state World) (current_time : Q)
      (id : str) (pending : interaction_request) :
  interaction_requests st !! id = Some pending ->
  expired current_time pending = true ->
  interaction_requests (cleanup_expired_data st current_time) !! id = None.
Proof.
  intros Hin Hexp. simpl. apply map_lookup_filter_None. right.
  intros x Hx. rewrite Hin in Hx. injection Hx as <-. simpl.
  rewrite Hexp. discriminate.
Qed.

(** The endpoint does not tell the reply to an expired interaction from a
    fresh message: it serves the request as if it named no interaction. *)
Lemma expired_completion_is_a_message (st : app_state World) (env : request_env World)
      (data : chat_request) (id : str) (pending : interaction_request) :
  truthy (req_interaction_id data) = Some id ->
  interaction_requests st !! id = Some pending ->
  expired (now env) pending = true ->
  handle st env (Some data) = handle st env (Some (without_interaction data)).
Proof.
  intros Hid Hin Hexp.
  pose proof (cleanup_drops_expired st (now env) id pending Hin Hexp) as Hgone.
  unfold handle_chat, chat.
  rewrite (interaction_id_nonempty _ _ Hid).
  rewrite (other_keys_nonempty (without_interaction data)) by reflexivity.
  set (st0 := cleanup_expired_data st (now env)) in *.
  simpl req_session_id. simpl req_message. simpl req_interaction_id. simpl req_continue.
  rewrite Hid. simpl truthy.
  assert (E : forall st1 : app_state World,
             interaction_requests st1 = interaction_requests st0 ->
             interaction_requests st1 !! id = None)
    by (intros st1 ->; exact Hgone).
  destruct (truthy (req_session_id data)) as [sid|];
    destruct (truthy (req_message data)) as [text|]; try reflexivity.
  - rewrite E by (destruct (sessions st0 !! sid); reflexivity). reflexivity.
  - rewrite E by (simpl; rewrite lookup_insert_eq; reflexivity). reflexivity.
Qed.
End Surface.

Lemma has_continuation_iff_not_interaction_witness :
  (false = false <->
   response_type (InteractionRequired (u "interaction-1") (u "Proceed?")
                                      (u "请输入您的回复: "))
     = u "interaction_required") /\
  (response_type (InteractionRequired (u "interaction-1") (u "Proceed?")
                                      (u "请输入您的回复: ")) = u "exit" \/
   response_type (InteractionRequired (u "interaction-1") (u "Proceed?")
                                      (u "请输入您的回复: ")) = u "error" \/
   response_type (InteractionRequired (u "interaction-1") (u "Proceed?")
                                      (u "请输入您的回复: ")) = u "warning" ->
   false = true).
Proof.
  refine (has_continuation_iff_not_interaction no_rule no_rule empty_app
            (at_time 0 (u "interact(content='Proceed?')")) first_request
            (outcome_trace (asked no_rule no_rule)) (suspended no_rule no_rule)
            (InteractionRequired (u "interaction-1") (u "Proceed?") (u "请输入您的回复: "))
            (u "session-1") false _ _).
  - reflexivity.
  - vm_compute. reflexivity.
Defined.

Section ExpiryInGeneral.
Context {World : Type}.
Variables json_block_rule tool_mention_rule : str -> list str -> rule_result.

Local Abbreviation process := (@process_message World json_block_rule tool_mention_rule).
Local Abbreviation serve_message := (@chat_turn World json_block_rule tool_mention_rule).
Local Abbreviation handle := (@handle_chat World json_block_rule tool_mention_rule).

(** The message path passes on the events of its call of
    [process_message]. *)
Lemma chat_turn_trace (st : app_state World) (env : request_env World)
      (sid : str) (agent : AIAgent World) (continue_execution : bool) (text : str) :
  outcome_trace (serve_message st env sid agent continue_execution text) =
  turn_trace (process agent (turn_surroundings env)
                (if continue_execution && get_default (continuation_flags st !! sid) false
                 then u "继续执行任务" else text)).
Proof.
  unfold chat_turn.
  destruct (process_message _ _ _ _ _) as [trace agent' [r|e]|trace]; reflexivity.
Qed.

(** In every state, the reply to an interaction that has expired asks the
    model again: the request is served by the message path, whose first
    event is a request to the backend with the reply (or the continuation
    text) appended to the conversation as a user message. *)
Lemma expired_reply_asks_model (st : app_state World) (env : request_env World)
      (data : chat_request) (id : str) (pending : interaction_request) (text : str) :
  truthy (req_interaction_id data) = Some id ->
  interaction_requests st !! id = Some pending ->
  expired (now env) pending = true ->
  truthy (req_message data) = Some text ->
  exists history sent rest,
    outcome_trace (handle st env (Some data)) =
      ModelRequest (history ++ [{| msg_role := User; content := sent |}]) :: rest /\
    (sent = text \/ sent = u "继续执行任务") /\
    existsb is_model_request rest = false.
Proof.
  intros Hid Hin Hexp Hmsg.
  rewrite (expired_completion_is_a_message _ _ _ _ _ _ _ Hid Hin Hexp).
  unfold handle_chat, chat.
  rewrite (other_keys_nonempty (without_interaction data)) by reflexivity.
  simpl req_session_id. simpl req_message.
  simpl req_interaction_id. simpl req_continue. simpl truthy at 3.
  set (st0 := cleanup_expired_data st (now env)).
  assert (G : forall st2 sid agent,
             exists history sent rest,
               outcome_trace (serve_message st2 env sid agent (req_continue data) text) =
                 ModelRequest (history ++ [{| msg_role := User; content := sent |}]) :: rest /\
               (sent = text \/ sent = u "继续执行任务") /\
               existsb is_model_request rest = false).
  { intros st2 sid agent. rewrite chat_turn_trace.
    destruct (process_message_asks_model json_block_rule tool_mention_rule agent
                (turn_surroundings env)
                (if req_continue data && get_default (continuation_flags st2 !! sid) false
                 then u "继续执行任务" else text)) as (rest & E & Hrest).
    eexists (conversation agent), _, rest. split; [exact E|]. split; [|exact Hrest].
    destruct (req_continue data && get_default (continuation_flags st2 !! sid) false); auto. }
  destruct (truthy (req_session_id data)) as [sid|]; rewrite Hmsg; apply G.
Qed.
End ExpiryInGeneral.

(** ** Failures of a tool invocation *)

(** The model calls the built-in exit tool with a keyword that the
    function does not have.  The call raises at the boundary, the exception
    leaves [process_message], no tool result is recorded, and the endpoint
    answers with status 500. *)
Lemma unexpected_keyword_escapes :
  turn_completion
    (process_message no_rule no_rule fresh_agent (answering (u "exit(msg='bye')"))
                     (u "stop now"))
    = Some (Raises (UnexpectedKeyword (u "msg"))) /\
  last_recorded
    (turn_trace
       (process_message no_rule no_rule fresh_agent (answering (u "exit(msg='bye')"))
                        (u "stop now")))
    = None /\
  outcome_response
    (handle_chat no_rule no_rule empty_app (at_time 0 (u "exit(msg='bye')"))
                 (Some first_request))
    = Some (JsonError (ExceptionText (UnexpectedKeyword (u "msg"))) 500).
Proof. repeat split; vm_compute; reflexivity. Qed.

Section Dispatch.
Context {World : Type}.
Variables json_block_rule tool_mention_rule : str -> list str -> rule_result.

(** The guarded part of [dispatch] for a registered tool other than
    [interact] that gets past the loop guard. *)
Lemma dispatch_registered (prompt : str) (agent : AIAgent World)
      (env : turn_env World) (before : list event) (call : tool_call)
      (f : tool_function World) :
  pinned prompt (conversation agent) = true ->
  str_eqb (name call) (u "info") && info_flag agent = false ->
  get_tool_function (tool_manager agent) (name call) = Some f ->
  str_eqb (name call) (u "interact") = false ->
  match call_tool f (world env) (args call) with
  | inr res =>
      exists agent',
        dispatch agent env before call =
          Done (before ++ [ToolInvoked (name call) (args call); ResultRecorded call res])
               agent'
               (Returns
                  (if str_eqb (name call) (u "exit") && success res && exit res
                   then ExitResponse (get_default (result res) (u "任务已完成"))
                   else ToolResultResponse (name call) (success res)
                                           (get_default (result res) [])))
  | inl e =>
      dispatch agent env before call =
        Done (before ++ [ToolInvoked (name call) (args call)]) agent (Raises e)
  end.
Proof.
  intros Hpin Hguard Hf Hint.
  unfold dispatch. fold (info_flag agent). rewrite Hguard, Hf, Hint.
  destruct (call_tool f (world env) (args call)) as [e|res].
  - reflexivity.
  - destruct (add_tool_result_pinned prompt _ call res Hpin) as (dm' & -> & _).
    eexists. reflexivity.
Qed.

(** C3.  The model answers a message with a call of a registered tool
    other than [interact] that gets past the loop guard.  When the tool
    function returns a result, also a failed one (which is how a tool
    reports a failure it caught itself), the result is recorded and comes
    back in an exit or tool_result response with its success flag.  When
    the invocation raises (an argument-name mismatch at the call boundary
    or an exception the tool lets escape), [process_message] catches
    nothing: the exception leaves it after the request to the model and
    the invocation, no tool result is recorded, the agent keeps the message
    and the answer of the model only, and the endpoint answers with the
    exception text and status 500 instead of a failed tool result. *)
Theorem tool_failure_propagates (prompt : str) (agent : AIAgent World)
        (env : turn_env World) (text : str) (choices : list choice)
        (call : tool_call) (f : tool_function World) :
  pinned prompt (conversation agent) = true ->
  send_request env (conversation agent ++ [{| msg_role := User; content := text |}])
    = ResponseBody choices ->
  parse_response json_block_rule tool_mention_rule (ResponseBody choices)
                 (map fst (get_tool_descriptions (tool_manager agent)))
    = ParsedCall call ->
  str_eqb (name call) (u "info") && info_flag agent = false ->
  get_tool_function (tool_manager agent) (name call) = Some f ->
  str_eqb (name call) (u "interact") = false ->
  let asked :=
    ModelRequest (conversation agent ++ [{| msg_role := User; content := text |}]) in
  let heard :=
    set_dialogue agent
      match first_content choices with
      | [] => add_user_message (dialogue_manager agent) text
      | reply =>
          add_assistant_message (add_user_message (dialogue_manager agent) text) reply
      end in
  match call_tool f (world env) (args call) with
  | inr res =>
      exists agent',
        process_message json_block_rule tool_mention_rule agent env text =
          Done [asked; ToolInvoked (name call) (args call); ResultRecorded call res]
               agent'
               (Returns
                  (if str_eqb (name call) (u "exit") && success res && exit res
                   then ExitResponse (get_default (result res) (u "任务已完成"))
                   else ToolResultResponse (name call) (success res)
                                           (get_default (result res) [])))
  | inl e =>
      process_message json_block_rule tool_mention_rule agent env text =
        Done [asked; ToolInvoked (name call) (args call)] heard (Raises e) /\
      last_recorded [asked; ToolInvoked (name call) (args call)] = None /\
      forall (st : app_state World) (renv : request_env World) (sid : str),
        turn_surroundings renv = env ->
        chat_turn json_block_rule tool_mention_rule st renv sid agent false text =
          Responded [asked; ToolInvoked (name call) (args call)]
                    (set_session (set_flag st sid false) sid heard)
                    (JsonError (ExceptionText e) 500)
  end.
Proof.
  intros Hpin Hsend Hparse Hguard Hf Hint asked heard.
  assert (Hheard : pinned prompt (conversation heard) = true).
  { subst heard. unfold conversation. simpl.
    destruct (first_content choices);
      repeat (apply pinned_append; [discriminate|]); exact Hpin. }
  assert (Hflag : info_flag heard = info_flag agent).
  { subst heard. unfold info_flag, was_last_tool_info. simpl.
    destruct (first_content choices); reflexivity. }
  assert (Hturn : process_message json_block_rule tool_mention_rule agent env text =
                  dispatch heard env [asked] call).
  { unfold process_message. unfold get_messages, add_user_message at 1. simpl messages.
    fold (conversation agent). rewrite Hsend, Hparse. reflexivity. }
  pose proof (dispatch_registered prompt heard env [asked] call f Hheard) as H.
  rewrite Hflag in H. specialize (H Hguard Hf Hint).
  destruct (call_tool f (world env) (args call)) as [e|res].
  - rewrite <- Hturn in H. split; [exact H|]. split; [reflexivity|].
    intros st renv sid <-. unfold chat_turn. simpl andb. cbv iota.
    rewrite H. reflexivity.
  - destruct H as (agent' & H). exists agent'. rewrite Hturn. exact H.
Qed.
End Dispatch.

Lemma tool_failure_propagates_witness :
  turn_completion
    (process_message no_rule no_rule fresh_agent (answering (u "exit(msg='bye')"))
                     (u "stop now"))
    = Some (Raises (UnexpectedKeyword (u "msg"))).
Proof.
  refine (f_equal turn_completion
            (proj1 (tool_failure_propagates no_rule no_rule (u "You are Axiom Agent.")
                      fresh_agent (answering (u "exit(msg='bye')")) (u "stop now")
                      _ exit_with_wrong_keyword exit_program _ _ _ _ _ _)));
    reflexivity.
Defined.

(** A tool function that returns: the built-in exit tool called with its own
    keyword ends the task. *)
Lemma exit_call_returns :
  turn_completion
    (process_message no_rule no_rule fresh_agent (answering (u "exit(message='bye')"))
                     (u "stop now"))
    = Some (Returns (ExitResponse (u "bye"))).
Proof. vm_compute. reflexivity. Qed.

(** ** Expired interactions *)

Section Expiry.
Variables json_block_rule tool_mention_rule : str -> list str -> rule_result.

Local Abbreviation first_answer := (asked json_block_rule tool_mention_rule).
Local Abbreviation waiting := (suspended json_block_rule tool_mention_rule).
Local Abbreviation reply_at := (answered json_block_rule tool_mention_rule).

(** C4.  An interaction is created at time 0 and the human answers at time
    1801, after the 1800 seconds have elapsed, with nothing in between.
    The answer is not rejected: the endpoint serves it as a fresh message.
    The model is asked again, the conversation grows by the reply taken
    as a user message, the answer of the model and a tool result, the
    response is an ordinary tool result, and the interaction is still
    pending in the agent. *)
Theorem expired_reply_is_processed :
  outcome_response first_answer =
    Some (JsonResult (InteractionRequired (u "interaction-1") (u "Proceed?")
                                          (u "请输入您的回复: "))
                     (u "session-1") false) /\
  outcome_response (reply_at 1801) =
    Some (JsonResult (ToolResultResponse (u "info") true (u "working"))
                     (u "session-1") true) /\
  map is_model_request (outcome_trace (reply_at 1801)) = [true; false; false] /\
  session_conversation (outcome_state waiting (reply_at 1801)) (u "session-1") =
    session_conversation waiting (u "session-1") ++
      [{| msg_role := User; content := u "yes" |};
       {| msg_role := Assistant; content := u "info(content='working')" |};
       {| msg_role := User; content := tool_result_message narration narrated |}] /\
  session_pending (outcome_state waiting (reply_at 1801))
                  (u "session-1") (u "interaction-1") = true.
Proof. repeat split; vm_compute; reflexivity. Qed.

(** At time 1800 the same reply still completes the interaction: the
    reply is recorded as the result of the interact call and the
    interaction is consumed. *)
Lemma timely_reply_completes :
  map is_model_request (outcome_trace (reply_at 1800)) = [false; true; false; false] /\
  last_recorded (firstn 1 (outcome_trace (reply_at 1800))) =
    Some {| name := u "interact"; args := [(u "content", u "Proceed?")] |} /\
  session_pending (outcome_state waiting (reply_at 1800))
                  (u "session-1") (u "interaction-1") = false.
Proof. repeat split; vm_compute; reflexivity. Qed.
End Expiry.

(** * Further properties *)

(** ** More on the conversation store *)

Lemma without_oldest_zero (msgs : list message) : without_oldest 0 msgs = msgs.
Proof.
  induction msgs as [|m msgs IH]; simpl; [reflexivity|].
  destruct (is_system m); [now rewrite IH | reflexivity].
Qed.

Lemma without_oldest_pop (k : nat) (msgs msgs' : list message) :
  pop_first_non_system msgs = Some msgs' ->
  without_oldest (S k) msgs = without_oldest k msgs'.
Proof.
  revert msgs'. induction msgs as [|m msgs IH]; intros msgs' H; simpl in *; [discriminate|].
  destruct (is_system m) eqn:Hm.
  - destruct (pop_first_non_system msgs) as [r|]; [|discriminate].
    injection H as <-. simpl. rewrite Hm. f_equal. now apply IH.
  - injection H as <-. reflexivity.
Qed.

Lemma without_oldest_system (k : nat) (msgs : list message) :
  List.filter is_system (without_oldest k msgs) = List.filter is_system msgs.
Proof.
  revert k. induction msgs as [|m msgs IH]; intros k; simpl; [reflexivity|].
  destruct (is_system m) eqn:Hm; simpl.
  - rewrite Hm. f_equal. apply IH.
  - destruct k; simpl; [now rewrite Hm | apply IH].
Qed.

Lemma without_oldest_others (k : nat) (msgs : list message) :
  List.filter non_system (without_oldest k msgs) = skipn k (List.filter non_system msgs).
Proof.
  revert k. induction msgs as [|m msgs IH]; intros k; simpl.
  - now destruct k.
  - unfold non_system at 2. destruct (is_system m) eqn:Hm; simpl.
    + unfold non_system at 1. rewrite Hm. simpl. apply IH.
    + destruct k; simpl.
      * unfold non_system at 1. rewrite Hm. reflexivity.
      * apply IH.
Qed.

Lemma trim_loop_without_oldest (max : Z) (fuel : nat) (msgs msgs' : list message) :
  trim_loop fuel max msgs = Trimmed msgs' ->
  exists k, msgs' = without_oldest k msgs /\
            forall j, (j < k)%nat -> over_budget max (without_oldest j msgs) = true.
Proof.
  revert msgs. induction fuel as [|fuel IH]; intros msgs; simpl.
  - destruct (over_budget max msgs) eqn:E.
    + destruct (pop_first_non_system msgs); discriminate.
    + intros [= <-]. exists 0%nat. split; [now rewrite without_oldest_zero | lia].
  - destruct (over_budget max msgs) eqn:E.
    + destruct (pop_first_non_system msgs) as [popped|] eqn:Hpop; [|discriminate].
      intros H. apply IH in H as (k & -> & Hmin).
      exists (S k). split; [symmetry; now apply without_oldest_pop|].
      intros [|j] Hj.
      * now rewrite without_oldest_zero.
      * rewrite (without_oldest_pop j msgs popped Hpop). apply Hmin. lia.
    + intros [= <-]. exists 0%nat. split; [now rewrite without_oldest_zero | lia].
Qed.

(** X1. What a trim that returns has done, for every conversation: it has
    removed the [k] oldest messages that are not system messages, for the
    least [k] that ends the loop.  The system messages are all kept, the
    other messages that are kept are the newest ones in their order, and
    the result is within the ceiling or has at most two messages. *)
Theorem trim_removes_fewest_oldest (dm dm' : DialogueManager) :
  _trim_history dm = Some dm' ->
  exists k : nat,
    messages dm' = without_oldest k (messages dm) /\
    (forall j, (j < k)%nat ->
       (total_tokens (without_oldest j (messages dm)) > max_tokens dm)%Z /\
       (2 < length (without_oldest j (messages dm)))%nat) /\
    ((total_tokens (messages dm') <= max_tokens dm)%Z \/ (length (messages dm') <= 2)%nat) /\
    List.filter is_system (messages dm') = List.filter is_system (messages dm) /\
    List.filter non_system (messages dm') = skipn k (List.filter non_system (messages dm)).
Proof.
  unfold _trim_history, trim_messages. intros H.
  destruct (trim_loop (length (messages dm)) (max_tokens dm) (messages dm))
    as [msgs'| |] eqn:E; try discriminate.
  injection H as <-. simpl.
  pose proof (trim_loop_result _ _ _ _ E) as Hres.
  apply trim_loop_without_oldest in E as (k & -> & Hmin).
  exists k. split; [reflexivity|]. split; [|split; [|split]].
  - intros j Hj. specialize (Hmin j Hj). unfold over_budget in Hmin.
    apply andb_prop in Hmin as [H1 H2].
    rewrite Z.gtb_ltb in H1, H2. apply Z.ltb_lt in H1. apply Z.ltb_lt in H2. unfold len in H2. lia.
  - unfold over_budget in Hres. apply andb_false_iff in Hres as [H1|H2].
    + left. rewrite Z.gtb_ltb in H1. apply Z.ltb_ge in H1. lia.
    + right. rewrite Z.gtb_ltb in H2. apply Z.ltb_ge in H2. unfold len in H2. lia.
  - apply without_oldest_system.
  - apply without_oldest_others.
Qed.

Lemma trim_removes_fewest_oldest_witness :
  exists k : nat,
    [ {| msg_role := System; content := u "You are an agent." |};
      {| msg_role := User; content := u "README.md src tests" |} ]
      = without_oldest k (messages crowded_dialogue) /\
    (forall j, (j < k)%nat ->
       (total_tokens (without_oldest j (messages crowded_dialogue)) > 10)%Z /\
       (2 < length (without_oldest j (messages crowded_dialogue)))%nat) /\
    ((total_tokens [ {| msg_role := System; content := u "You are an agent." |};
                     {| msg_role := User; content := u "README.md src tests" |} ] <= 10)%Z \/
     (2 <= 2)%nat) /\
    [ {| msg_role := System; content := u "You are an agent." |} ]
      = List.filter is_system (messages crowded_dialogue) /\
    [ {| msg_role := User; content := u "README.md src tests" |} ]
      = skipn k (List.filter non_system (messages crowded_dialogue)).
Proof.
  exact (trim_removes_fewest_oldest crowded_dialogue
           {| max_tokens := 10;
              messages := [ {| msg_role := System; content := u "You are an agent." |};
                            {| msg_role := User; content := u "README.md src tests" |} ];
              last_tool_was_info := false |}
           eq_refl).
Defined.

Lemma pop_none_all_system (msgs : list message) :
  pop_first_non_system msgs = None -> List.filter is_system msgs = msgs.
Proof.
  induction msgs as [|m msgs IH]; simpl; [reflexivity|].
  destruct (is_system m) eqn:Hm; [|discriminate].
  destruct (pop_first_non_system msgs); [discriminate|].
  intros _. now rewrite IH.
Qed.

Lemma pop_some_system (msgs msgs' : list message) :
  pop_first_non_system msgs = Some msgs' ->
  List.filter is_system msgs' = List.filter is_system msgs.
Proof.
  intros H. rewrite <- (without_oldest_zero msgs'), <- (without_oldest_pop 0 msgs msgs' H).
  apply without_oldest_system.
Qed.

Lemma total_chars_nonneg (msgs : list message) : (0 <= total_chars msgs)%Z.
Proof.
  induction msgs as [|m msgs IH]; [simpl; lia|].
  change (0 <= len (content m) + total_chars msgs)%Z. unfold len. lia.
Qed.

Lemma system_part_smaller (msgs : list message) :
  (total_chars (List.filter is_system msgs) <= total_chars msgs)%Z /\
  (length (List.filter is_system msgs) <= length msgs)%nat.
Proof.
  induction msgs as [|m msgs [IH1 IH2]]; [simpl; split; lia|].
  change (total_chars (m :: msgs)) with (len (content m) + total_chars msgs)%Z.
  simpl List.filter. simpl length.
  destruct (is_system m).
  - change (total_chars (m :: List.filter is_system msgs))
      with (len (content m) + total_chars (List.filter is_system msgs))%Z.
    simpl length. split; lia.
  - unfold len. split; lia.
Qed.

Lemma over_budget_mono (max : Z) (a b : list message) :
  (total_chars a <= total_chars b)%Z ->
  (length a <= length b)%nat ->
  over_budget max a = true -> over_budget max b = true.
Proof.
  unfold over_budget, total_tokens, len. intros Hc Hl H.
  apply andb_prop in H as [H1 H2]. rewrite Z.gtb_ltb in H1, H2.
  apply Z.ltb_lt in H1. apply Z.ltb_lt in H2.
  apply andb_true_intro. rewrite !Z.gtb_ltb. split; apply Z.ltb_lt; [|lia].
  pose proof (Z.div_le_mono _ _ 4 ltac:(lia) Hc). lia.
Qed.

Lemma trim_loop_spins (max : Z) (fuel : nat) (msgs : list message) :
  (length msgs <= fuel)%nat ->
  trim_loop fuel max msgs = Spins <-> over_budget max (List.filter is_system msgs) = true.
Proof.
  revert msgs. induction fuel as [|fuel IH]; intros msgs Hlen.
  - destruct msgs; [|simpl in Hlen; lia]. simpl. unfold over_budget, len. simpl.
    rewrite andb_false_r. split; discriminate.
  - simpl. destruct (over_budget max msgs) eqn:Hover.
    + destruct (pop_first_non_system msgs) as [msgs'|] eqn:Hpop.
      * rewrite <- (pop_some_system _ _ Hpop). apply IH.
        apply pop_first_non_system_length in Hpop. lia.
      * rewrite (pop_none_all_system _ Hpop). tauto.
    + split; [discriminate|]. intros H.
      destruct (system_part_smaller msgs) as [Hc Hl].
      rewrite (over_budget_mono _ _ _ Hc Hl H) in Hover. discriminate.
Qed.

(** X2. When a trim never returns: exactly when the system messages of the
    conversation alone are over the ceiling and there are more than two of
    them.  Then every message that can be removed is removed and the loop
    goes on without anything left to remove. *)
Theorem trim_never_returns_iff (dm : DialogueManager) :
  _trim_history dm = None <->
  (total_tokens (List.filter is_system (messages dm)) > max_tokens dm)%Z /\
  (2 < length (List.filter is_system (messages dm)))%nat.
Proof.
  assert (Hspin : _trim_history dm = None <->
                  trim_messages (max_tokens dm) (messages dm) = Spins).
  { unfold _trim_history.
    pose proof (trim_messages_fuel (max_tokens dm) (messages dm)) as Hfuel.
    destruct (trim_messages (max_tokens dm) (messages dm)); split; congruence. }
  rewrite Hspin. unfold trim_messages.
  rewrite trim_loop_spins by lia. unfold over_budget, len.
  rewrite andb_true_iff, !Z.gtb_ltb, !Z.ltb_lt. lia.
Qed.
(** ** The retry loop of [send_request] *)

Section Transport.
Import Communicator.
Variable mc : ModelCommunicator.
Variable time_sleep : Q -> option str.
Variable attempts : nat -> attempt.
Variable messages : list message.

Lemma exchange_succ (n : nat) :
  exchange mc messages (S (S n)) =
    Posted messages :: Slept (retry_delay mc) :: exchange mc messages (S n).
Proof. reflexivity. Qed.

Lemma send_loop_stop (fuel : nat) (retries : Z) (posted : nat) :
  (max_retries mc < retries)%Z ->
  send_loop fuel mc time_sleep attempts messages retries posted
    = Sent [] (retries_error mc).
Proof.
  intros H. destruct fuel; cbn [send_loop];
    replace (retries <=? max_retries mc)%Z with false
      by (symmetry; apply Z.leb_gt; lia); reflexivity.
Qed.




(** X28. A sleep that raises ends the call at the first attempt that
    settles nothing, when a retry is left.  After a time-out, a connection
    error or another exception the sleep is made in the [except] clause and
    its exception leaves [send_request].  After a 200 reply without JSON or
    a 5xx reply the sleep is made in the body of the [try]: its exception
    is caught and counted as one more retry; with a retry still left the
    sleep is made again and raises out of the function, and with none left
    the function returns the exception error with the text of the sleep's
    exception. *)
Theorem send_request_sleep_raises (e : str) :
  time_sleep (retry_delay mc) = Some e ->
  (1 <= max_retries mc)%Z ->
  settles (attempts 0%nat) = None ->
  send_request mc time_sleep attempts messages =
    match attempts 0%nat with
    | HttpReply _ _ _ =>
        if (2 <=? max_retries mc)%Z then Raised [Posted messages] e
        else Sent [Posted messages] (exception_error e)
    | _ => Raised [Posted messages] e
    end.
Proof.
  intros Hsleep Hmax Hnone. unfold send_request.
  assert (Hfuel : Z.to_nat (max_retries mc + 1) = S (Z.to_nat (max_retries mc)))
    by lia.
  rewrite Hfuel. cbn [send_loop]. rewrite Hsleep.
  replace (0 <=? max_retries mc)%Z with true by (symmetry; apply Z.leb_le; lia).
  change (0 + 1 + 1)%Z with 2%Z. change (0 + 1)%Z with 1%Z.
  replace (1 <=? max_retries mc)%Z with true by (symmetry; apply Z.leb_le; lia).
  unfold settles in Hnone.
  destruct (attempts 0%nat) as [code text json| | |]; try reflexivity.
  destruct (code =? 200)%Z.
  - destruct json; [discriminate Hnone | reflexivity].
  - destruct ((500 <=? code)%Z && (code <? 600)%Z); [reflexivity | discriminate Hnone].
Qed.

Section Sleeping.
Hypothesis sleep_returns : time_sleep (retry_delay mc) = None.

(** One pass of the loop when the sleep returns. *)
Lemma send_loop_pass (fuel : nat) (retries : Z) (posted : nat) :
  send_loop (S fuel) mc time_sleep attempts messages retries posted =
    if (retries <=? max_retries mc)%Z then
      match settles (attempts posted) with
      | Some r => Sent [Posted messages] r
      | None =>
          if (retries + 1 <=? max_retries mc)%Z
          then after_post mc messages
                 (send_loop fuel mc time_sleep attempts messages (retries + 1) (S posted))
          else Sent [Posted messages] (failure_of (attempts posted))
      end
    else Sent [] (retries_error mc).
Proof.
  unfold settles, failure_of. cbn [send_loop]. rewrite sleep_returns.
  destruct (retries <=? max_retries mc)%Z; [|reflexivity].
  destruct (attempts posted) as [code text json| | |]; try reflexivity.
  destruct (code =? 200)%Z; [destruct json; reflexivity|].
  destruct ((500 <=? code)%Z && (code <? 600)%Z); reflexivity.
Qed.

(** While the attempts settle nothing and retries are left, the loop goes
    round; the first attempt that settles something ends it. *)
Lemma send_loop_settled (k : nat) (r : model_response) :
  forall (fuel : nat) (retries : Z) (posted : nat),
    (k < fuel)%nat ->
    (retries + Z.of_nat k <= max_retries mc)%Z ->
    (forall i, (i < k)%nat -> settles (attempts (posted + i)) = None) ->
    settles (attempts (posted + k)) = Some r ->
    send_loop fuel mc time_sleep attempts messages retries posted
      = Sent (exchange mc messages (S k)) r.
Proof.
  induction k as [|k IH]; intros fuel retries posted Hfuel Hmax Hnone Hsome;
    (destruct fuel as [|fuel]; [lia|]); rewrite send_loop_pass;
    replace (retries <=? max_retries mc)%Z with true by (symmetry; apply Z.leb_le; lia).
  - rewrite Nat.add_0_r in Hsome. rewrite Hsome. reflexivity.
  - pose proof (Hnone 0%nat ltac:(lia)) as H0. rewrite Nat.add_0_r in H0. rewrite H0.
    replace (retries + 1 <=? max_retries mc)%Z with true by (symmetry; apply Z.leb_le; lia).
    rewrite (IH fuel (retries + 1)%Z (S posted)); [reflexivity | lia | lia | |].
    + intros i Hi. replace (S posted + i)%nat with (posted + S i)%nat by lia.
      apply Hnone. lia.
    + now replace (S posted + k)%nat with (posted + S k)%nat by lia.
Qed.

(** When no attempt settles anything, the loop gives up after the last
    retry with the error of the last attempt. *)
Lemma send_loop_exhausted (k : nat) :
  forall (fuel : nat) (retries : Z) (posted : nat),
    (k < fuel)%nat ->
    (retries + Z.of_nat k = max_retries mc)%Z ->
    (forall i, (i <= k)%nat -> settles (attempts (posted + i)) = None) ->
    send_loop fuel mc time_sleep attempts messages retries posted
      = Sent (exchange mc messages (S k)) (failure_of (attempts (posted + k))).
Proof.
  induction k as [|k IH]; intros fuel retries posted Hfuel Hmax Hnone;
    (destruct fuel as [|fuel]; [lia|]); rewrite send_loop_pass;
    replace (retries <=? max_retries mc)%Z with true by (symmetry; apply Z.leb_le; lia);
    pose proof (Hnone 0%nat ltac:(lia)) as H0; rewrite Nat.add_0_r in H0; rewrite H0.
  - replace (retries + 1 <=? max_retries mc)%Z with false by (symmetry; apply Z.leb_gt; lia).
    now rewrite Nat.add_0_r.
  - replace (retries + 1 <=? max_retries mc)%Z with true by (symmetry; apply Z.leb_le; lia).
    rewrite (IH fuel (retries + 1)%Z (S posted)); [| lia | lia |].
    + now replace (S posted + k)%nat with (posted + S k)%nat by lia.
    + intros i Hi. replace (S posted + i)%nat with (posted + S i)%nat by lia.
      apply Hnone. lia.
Qed.

(** The loop returns whenever it has a pass left for every retry; it posts
    once per pass, and at least once when it is entered. *)
Lemma send_loop_returns :
  forall (fuel : nat) (retries : Z) (posted : nat),
    (max_retries mc + 1 - retries <= Z.of_nat fuel)%Z ->
    exists n r,
      send_loop fuel mc time_sleep attempts messages retries posted
        = Sent (exchange mc messages n) r /\
      (Z.of_nat n <= Z.max 0 (max_retries mc + 1 - retries))%Z /\
      ((retries <= max_retries mc)%Z -> (0 < n)%nat).
Proof.
  induction fuel as [|fuel IH]; intros retries posted Hfuel.
  - exists 0%nat, (retries_error mc). rewrite send_loop_stop by lia.
    repeat split; [lia | lia].
  - destruct (Z.leb_spec retries (max_retries mc)) as [Hle|Hgt].
    2:{ exists 0%nat, (retries_error mc). rewrite send_loop_stop by lia.
        repeat split; [lia | lia]. }
    rewrite send_loop_pass.
    replace (retries <=? max_retries mc)%Z with true by (symmetry; apply Z.leb_le; lia).
    destruct (settles (attempts posted)) as [r|].
    { exists 1%nat, r. repeat split; lia. }
    destruct (Z.leb_spec (retries + 1) (max_retries mc)) as [Hnext|Hlast].
    + destruct (IH (retries + 1)%Z (S posted) ltac:(lia)) as (n & r & E & Hn & Hpos).
      rewrite E. destruct n as [|n]; [specialize (Hpos Hnext); lia|].
      exists (S (S n)), r. rewrite exchange_succ. repeat split; lia.
    + exists 1%nat, (failure_of (attempts posted)). repeat split; lia.
Qed.

(** X3. When [time.sleep] returns for [retry_delay], [send_request]
    returns for every backend, after at most [max_retries + 1] requests.
    Every request carries the same conversation, and the call sleeps for
    [retry_delay] between two requests and at no other time. *)
Theorem send_request_returns_within_retries :
  exists (n : nat) (r : model_response),
    send_request mc time_sleep attempts messages = Sent (exchange mc messages n) r /\
    (Z.of_nat n <= Z.max 0 (max_retries mc + 1))%Z.
Proof.
  unfold send_request.
  destruct (send_loop_returns (Z.to_nat (max_retries mc + 1)) 0 0 ltac:(lia))
    as (n & r & E & Hn & _).
  exists n, r. split; [exact E | lia].
Qed.

(** X4. When [time.sleep] returns for [retry_delay], the first attempt
    that settles something decides the call: after [k] attempts that time
    out, fail to connect, raise, answer 200 without JSON or answer 5xx,
    with [k] not above [max_retries], a 200 reply with a JSON body is
    returned as it is and a reply that is neither 200 nor 5xx is returned
    as a status error, after [k + 1] requests. *)
Theorem send_request_first_settled (k : nat) (r : model_response) :
  (Z.of_nat k <= max_retries mc)%Z ->
  (forall i, (i < k)%nat -> settles (attempts i) = None) ->
  settles (attempts k) = Some r ->
  send_request mc time_sleep attempts messages = Sent (exchange mc messages (S k)) r.
Proof.
  intros Hk Hnone Hsome. unfold send_request.
  apply send_loop_settled; auto; lia.
Qed.

(** X5. When [time.sleep] returns for [retry_delay] and none of the
    [max_retries + 1] attempts settles anything, the call returns the error
    of the last attempt: the time-out, connection or exception error, the
    invalid-JSON error of a 200 reply, or, for a 5xx reply, its status
    error with the body as details. *)
Theorem send_request_gives_up_with_last_failure :
  (0 <= max_retries mc)%Z ->
  (forall i, (Z.of_nat i <= max_retries mc)%Z -> settles (attempts i) = None) ->
  send_request mc time_sleep attempts messages
    = Sent (exchange mc messages (S (Z.to_nat (max_retries mc))))
           (failure_of (attempts (Z.to_nat (max_retries mc)))).
Proof.
  intros Hmax Hnone. unfold send_request.
  apply (send_loop_exhausted (Z.to_nat (max_retries mc))); [lia | lia |].
  intros i Hi. apply Hnone. lia.
Qed.
End Sleeping.
End Transport.

Lemma send_request_returns_within_retries_witness :
  exists (n : nat) (r : model_response),
    Communicator.send_request default_communicator time_sleep flaky_backend
                              (messages short_dialogue)
      = Communicator.Sent
          (Communicator.exchange default_communicator (messages short_dialogue) n) r /\
    (Z.of_nat n <= Z.max 0 (3 + 1))%Z.
Proof.
  exact (send_request_returns_within_retries default_communicator time_sleep
           flaky_backend (messages short_dialogue) eq_refl).
Defined.

Lemma send_request_first_settled_witness :
  Communicator.send_request default_communicator time_sleep flaky_backend
                            (messages short_dialogue)
    = Communicator.Sent
        [Communicator.Posted (messages short_dialogue); Communicator.Slept 5;
         Communicator.Posted (messages short_dialogue); Communicator.Slept 5;
         Communicator.Posted (messages short_dialogue)]
        (ResponseBody []).
Proof.
  refine (send_request_first_settled default_communicator time_sleep flaky_backend
            (messages short_dialogue) eq_refl 2 (ResponseBody []) _ _ _).
  - simpl. lia.
  - intros [|[|i]] Hi; [reflexivity | reflexivity | lia].
  - reflexivity.
Defined.

Lemma send_request_gives_up_with_last_failure_witness :
  Communicator.send_request default_communicator time_sleep
                            (fun _ => Communicator.RequestTimeout)
                            (messages short_dialogue)
    = Communicator.Sent
        (Communicator.exchange default_communicator (messages short_dialogue) 4)
        Communicator.timeout_error.
Proof.
  refine (send_request_gives_up_with_last_failure default_communicator time_sleep
            (fun _ => Communicator.RequestTimeout) (messages short_dialogue)
            eq_refl _ _).
  - simpl. lia.
  - intros i _. reflexivity.
Defined.

Lemma send_request_sleep_raises_witness :
  Communicator.send_request hasty_communicator time_sleep overloaded_backend
                            (messages short_dialogue)
    = Communicator.Raised [Communicator.Posted (messages short_dialogue)]
                          (u "sleep length must be non-negative").
Proof.
  refine (send_request_sleep_raises hasty_communicator time_sleep overloaded_backend
            (messages short_dialogue) (u "sleep length must be non-negative") _ _ _).
  - reflexivity.
  - simpl. lia.
  - reflexivity.
Defined.

(** A negative delay with the last retry in hand: after a 5xx reply the
    exception of the sleep is what the call returns as its error. *)
Lemma sleep_failure_is_returned :
  Communicator.send_request
    {| Communicator.max_retries := 1; Communicator.retry_delay := -1 |}
    time_sleep overloaded_backend (messages short_dialogue)
    = Communicator.Sent [Communicator.Posted (messages short_dialogue)]
        (Communicator.exception_error (u "sleep length must be non-negative")).
Proof. vm_compute. reflexivity. Qed.

(** ** Turns that the backend leaves unanswered *)

Section Unanswered.
Context {World : Type}.
Variables json_block_rule tool_mention_rule : str -> list str -> rule_result.

Lemma turns_snoc (env : turn_env World) (agent : AIAgent World) (texts : list str)
      (text : str) :
  turns json_block_rule tool_mention_rule env agent (texts ++ [text]) =
    turn_agent (turns json_block_rule tool_mention_rule env agent texts)
      (process_message json_block_rule tool_mention_rule
         (turns json_block_rule tool_mention_rule env agent texts) env text).
Proof. unfold turns. rewrite fold_left_app. reflexivity. Qed.

(** X7. While [send_request] returns an error dict, every message of the
    user is stored and nothing else happens to the agent: after the turns
    the conversation is the old one followed by the messages sent, however
    low the ceiling is (the conversation is trimmed only when a tool result
    is recorded), and the next request carries all of them. *)
Theorem unanswered_turns_pile_up (env : turn_env World) (agent : AIAgent World)
        (texts : list str) :
  (forall history, exists error details,
      send_request env history = ResponseError error details) ->
  conversation (turns json_block_rule tool_mention_rule env agent texts) =
    conversation agent ++ map (fun text => {| msg_role := User; content := text |}) texts /\
  pending_interactions (turns json_block_rule tool_mention_rule env agent texts) =
    pending_interactions agent /\
  info_flag (turns json_block_rule tool_mention_rule env agent texts) = info_flag agent /\
  forall text,
    turn_trace (process_message json_block_rule tool_mention_rule
                  (turns json_block_rule tool_mention_rule env agent texts) env text) =
      [ModelRequest (conversation agent
                       ++ map (fun t => {| msg_role := User; content := t |}) (texts ++ [text]))].
Proof.
  intros Hdown.
  assert (Hturn : forall a text,
             process_message json_block_rule tool_mention_rule a env text =
               Done [ModelRequest (conversation a ++ [{| msg_role := User; content := text |}])]
                    (set_dialogue a (add_user_message (dialogue_manager a) text))
                    (Returns (ErrorResponse
                                (match send_request env
                                         (conversation a
                                            ++ [{| msg_role := User; content := text |}]) with
                                 | ResponseError error _ => error
                                 | ResponseBody _ => []
                                 end)
                                (Some (match send_request env
                                               (conversation a
                                                  ++ [{| msg_role := User; content := text |}]) with
                                       | ResponseError _ details => get_default details []
                                       | ResponseBody _ => []
                                       end))
                                None))).
  { intros a text. unfold process_message, conversation, get_messages. cbn [add_user_message append_message messages].
    destruct (Hdown (messages (dialogue_manager a) ++ [{| msg_role := User; content := text |}]))
      as (error & details & E).
    rewrite E. reflexivity. }
  assert (Hall : conversation (turns json_block_rule tool_mention_rule env agent texts) =
                   conversation agent
                     ++ map (fun text => {| msg_role := User; content := text |}) texts /\
                 pending_interactions (turns json_block_rule tool_mention_rule env agent texts) =
                   pending_interactions agent /\
                 info_flag (turns json_block_rule tool_mention_rule env agent texts)
                   = info_flag agent).
  { induction texts as [|text texts IH] using rev_ind.
    - simpl. rewrite app_nil_r. auto.
    - destruct IH as (IHc & IHp & IHf).
      rewrite turns_snoc, Hturn. cbn [turn_agent].
      unfold conversation, info_flag, set_dialogue in *.
      cbn [dialogue_manager pending_interactions add_user_message append_message messages
           was_last_tool_info last_tool_was_info].
      rewrite IHc, map_app, app_assoc. auto. }
  destruct Hall as (Hc & Hp & Hf). repeat split; auto.
  intros text. rewrite Hturn. cbn [turn_trace]. rewrite Hc, map_app, app_assoc. reflexivity.
Qed.
End Unanswered.

Lemma unanswered_turns_pile_up_witness :
  conversation (turns no_rule no_rule unreachable fresh_agent [u "hello"; u "anyone?"]) =
    conversation fresh_agent ++
      [{| msg_role := User; content := u "hello" |};
       {| msg_role := User; content := u "anyone?" |}].
Proof.
  refine (proj1 (unanswered_turns_pile_up no_rule no_rule unreachable fresh_agent
                   [u "hello"; u "anyone?"] _)).
  intros history. exists (u "API请求多次超时，请检查网络连接或稍后再试"), None.
  reflexivity.
Defined.

(** ** The registry that [load_tools] builds *)

Lemma lookup_dict_put_eq {A} (k : str) (v : A) (items : list (str * A)) :
  lookup_item k (dict_put k v items) = Some v.
Proof.
  induction items as [|[k' v'] items IH]; simpl.
  - now rewrite str_eqb_refl.
  - destruct (str_eqb k k') eqn:E; simpl; rewrite ?str_eqb_refl, ?E; auto.
Qed.

Lemma lookup_dict_put_ne {A} (k k' : str) (v : A) (items : list (str * A)) :
  k' <> k -> lookup_item k' (dict_put k v items) = lookup_item k' items.
Proof.
  intros Hne. induction items as [|[k0 v0] items IH]; simpl.
  - destruct (str_eqb k' k) eqn:E; [apply str_eqb_eq in E; congruence | reflexivity].
  - destruct (str_eqb k k0) eqn:E; simpl.
    + apply str_eqb_eq in E. subst k0.
      destruct (str_eqb k' k) eqn:E'; [apply str_eqb_eq in E'; congruence | reflexivity].
    + now rewrite IH.
Qed.

Lemma has_key_dict_put {A} (k k' : str) (v : A) (items : list (str * A)) :
  has_key k' items = true -> has_key k' (dict_put k v items) = true.
Proof.
  unfold has_key. destruct (decide (k' = k)) as [->|Hne].
  - now rewrite lookup_dict_put_eq.
  - now rewrite lookup_dict_put_ne.
Qed.

Section Registry.
Context {World : Type}.
Variable import_module : str -> str -> load_outcome World.
Variable tools_dir : str.

Lemma load_tool_well_loaded (tm : ToolManager World) (item : str * tool_info) :
  well_loaded tm -> well_loaded (load_tool import_module tools_dir tm item).
Proof.
  intros (Hexit & Hdesc & Hsub). destruct item as [tool_name info]. unfold load_tool.
  destruct (str_eqb tool_name (u "exit")) eqn:Hname; [repeat split; auto|].
  assert (Hne : u "exit" <> tool_name).
  { intros <-. now rewrite str_eqb_refl in Hname. }
  set (tm1 := set_description tm tool_name (get_default (info_description info) [])).
  assert (H1 : well_loaded tm1).
  { repeat split; auto.
    - unfold tm1, get_tool_descriptions, set_description. cbn [tool_descriptions].
      now rewrite lookup_dict_put_ne.
    - intros n Hn. unfold tm1, set_description in *. cbn [tool_descriptions tools] in *.
      apply has_key_dict_put. auto. }
  destruct (truthy (info_implementation info)) as [implementation|]; [|exact H1].
  unfold load_custom_tool.
  destruct (import_module tool_name (path_join tools_dir implementation))
    as [| | e | [execute|]]; try exact H1.
  destruct H1 as (H1e & H1d & H1s). repeat split.
  - unfold get_tool_function, set_tool in *. cbn [tools] in *.
    now rewrite lookup_dict_put_ne.
  - exact H1d.
  - intros n Hn. unfold set_tool in *. cbn [tools tool_descriptions] in *.
    destruct (decide (n = tool_name)) as [->|Hn'].
    + unfold tm1, set_description. cbn [tool_descriptions].
      unfold has_key. now rewrite lookup_dict_put_eq.
    + apply H1s. unfold has_key in *. now rewrite lookup_dict_put_ne in Hn.
Qed.

Lemma load_tools_well_loaded (tool_definitions : option (list (str * tool_info))) :
  well_loaded (load_tools import_module tools_dir tool_definitions).
Proof.
  unfold load_tools.
  generalize (get_default tool_definitions []).
  assert (H0 : well_loaded {| tools := [(u "exit", @exit_program World)];
                              tool_descriptions := [(u "exit", u "结束当前任务")] |}).
  { repeat split.
    intros n. unfold has_key. simpl. now destruct (str_eqb n (u "exit")). }
  revert H0.
  generalize {| tools := [(u "exit", @exit_program World)];
                tool_descriptions := [(u "exit", u "结束当前任务")] |}.
  intros tm H0 items. revert tm H0.
  induction items as [|item items IH]; intros tm H0; simpl; [exact H0|].
  apply IH, load_tool_well_loaded, H0.
Qed.

(** X8. Whatever [tools.json] holds and whatever the tool modules do when
    they are imported, the registry that [ToolManager()] builds calls the
    built-in function for [exit] and describes it with the built-in text:
    an [exit] entry of [tools.json] is passed over, and no other entry can
    take the name. *)
Theorem exit_tool_is_builtin (tool_definitions : option (list (str * tool_info))) :
  get_tool_function (load_tools import_module tools_dir tool_definitions) (u "exit")
    = Some exit_program /\
  lookup_item (u "exit")
    (get_tool_descriptions (load_tools import_module tools_dir tool_definitions))
    = Some (u "结束当前任务").
Proof.
  destruct (load_tools_well_loaded tool_definitions) as (H1 & H2 & _). auto.
Qed.

(** X9. Every tool that the registry can call is also described, so it is
    among the tool names that the parser accepts and that the system prompt
    lists. *)
Theorem callable_tools_are_described (tool_definitions : option (list (str * tool_info)))
        (tool_name : str) :
  is_Some (get_tool_function (load_tools import_module tools_dir tool_definitions) tool_name) ->
  member tool_name
    (map fst (get_tool_descriptions (load_tools import_module tools_dir tool_definitions)))
    = true.
Proof.
  destruct (load_tools_well_loaded tool_definitions) as (_ & _ & Hsub).
  intros [f Hf]. specialize (Hsub tool_name).
  unfold get_tool_function in Hf. unfold has_key in Hsub at 1. rewrite Hf in Hsub.
  specialize (Hsub eq_refl). unfold get_tool_descriptions.
  revert Hsub. generalize (tool_descriptions (load_tools import_module tools_dir tool_definitions)).
  intros items. unfold has_key, member.
  induction items as [|[k v] items IH]; simpl; [discriminate|].
  destruct (str_eqb tool_name k); [reflexivity | exact IH].
Qed.
Lemma load_tool_keeps_descriptions (tm : ToolManager World) (item : str * tool_info)
      (tool_name : str) :
  has_key tool_name (tool_descriptions tm) = true ->
  has_key tool_name (tool_descriptions (load_tool import_module tools_dir tm item)) = true.
Proof.
  intros H. destruct item as [k info]. unfold load_tool.
  destruct (str_eqb k (u "exit")); [exact H|].
  assert (H1 : has_key tool_name
                 (tool_descriptions
                    (set_description tm k (get_default (info_description info) []))) = true).
  { unfold set_description. cbn [tool_descriptions]. now apply has_key_dict_put. }
  destruct (truthy (info_implementation info)) as [implementation|]; [|exact H1].
  unfold load_custom_tool.
  destruct (import_module k (path_join tools_dir implementation))
    as [| | e | [execute|]]; exact H1.
Qed.

Lemma load_tools_keep_descriptions (items : list (str * tool_info)) (tm : ToolManager World)
      (tool_name : str) :
  has_key tool_name (tool_descriptions tm) = true ->
  has_key tool_name
    (tool_descriptions (fold_left (load_tool import_module tools_dir) items tm)) = true.
Proof.
  revert tm. induction items as [|item items IH]; intros tm H; simpl; [exact H|].
  apply IH, load_tool_keeps_descriptions, H.
Qed.

Lemma load_tools_describe (items : list (str * tool_info)) (tm : ToolManager World)
      (tool_name : str) (info : tool_info) :
  In (tool_name, info) items ->
  tool_name <> u "exit" ->
  has_key tool_name
    (tool_descriptions (fold_left (load_tool import_module tools_dir) items tm)) = true.
Proof.
  revert tm. induction items as [|item items IH]; intros tm Hin Hne; [destruct Hin|].
  simpl. destruct Hin as [->|Hin]; [|now apply IH].
  apply load_tools_keep_descriptions. unfold load_tool.
  destruct (str_eqb tool_name (u "exit")) eqn:E; [apply str_eqb_eq in E; congruence|].
  assert (H1 : has_key tool_name
                 (tool_descriptions
                    (set_description tm tool_name (get_default (info_description info) [])))
               = true).
  { unfold set_description, has_key. cbn [tool_descriptions].
    now rewrite lookup_dict_put_eq. }
  destruct (truthy (info_implementation info)) as [implementation|]; [|exact H1].
  unfold load_custom_tool.
  destruct (import_module tool_name (path_join tools_dir implementation))
    as [| | e | [execute|]]; exact H1.
Qed.

Lemma load_tools_not_callable (items : list (str * tool_info)) (tm : ToolManager World)
      (tool_name : str) :
  (forall info implementation,
      In (tool_name, info) items ->
      truthy (info_implementation info) = Some implementation ->
      forall execute,
        import_module tool_name (path_join tools_dir implementation)
          <> Loaded (Some execute)) ->
  get_tool_function tm tool_name = None ->
  get_tool_function (fold_left (load_tool import_module tools_dir) items tm) tool_name = None.
Proof.
  revert tm. induction items as [|[k info] items IH]; intros tm Hfail Hnone; [exact Hnone|].
  simpl. apply IH; [intros; eapply Hfail; eauto; now right|].
  destruct (str_eqb k (u "exit")); [exact Hnone|].
  destruct (truthy (info_implementation info)) as [implementation|] eqn:Himpl; [|exact Hnone].
  unfold load_custom_tool.
  destruct (import_module k (path_join tools_dir implementation))
    as [| | e | [execute|]] eqn:Hload; try exact Hnone.
  unfold get_tool_function, set_tool in *. cbn [tools set_description] in *.
  destruct (decide (tool_name = k)) as [->|Hne].
  - exfalso. eapply Hfail; [now left | exact Himpl | exact Hload].
  - now rewrite lookup_dict_put_ne.
Qed.

Lemma has_key_member {A} (k : str) (items : list (str * A)) :
  has_key k items = member k (map fst items).
Proof.
  unfold has_key, member.
  induction items as [|[k' v] items IH]; simpl; [reflexivity|].
  destruct (str_eqb k k'); [reflexivity | exact IH].
Qed.

(** X10. A tool of [tools.json] whose module cannot be loaded (the file is
    missing, has no spec, raises when it is executed, has no [execute], or
    the entry names no implementation) is still described.  The parser
    accepts a call of it, and the engine answers the call with the
    unknown-tool error, which it records as the result of the call; no tool
    is invoked. *)
Theorem unloadable_tool_is_offered_but_unknown
        (tool_definitions : list (str * tool_info)) (info : tool_info)
        (prompt : str) (agent : AIAgent World) (env : turn_env World)
        (before : list event) (call : tool_call) :
  In (name call, info) tool_definitions ->
  name call <> u "exit" ->
  (forall info' implementation,
      In (name call, info') tool_definitions ->
      truthy (info_implementation info') = Some implementation ->
      forall execute,
        import_module (name call) (path_join tools_dir implementation)
          <> Loaded (Some execute)) ->
  tool_manager agent = load_tools import_module tools_dir (Some tool_definitions) ->
  pinned prompt (conversation agent) = true ->
  str_eqb (name call) (u "info") && info_flag agent = false ->
  member (name call) (map fst (get_tool_descriptions (tool_manager agent))) = true /\
  get_tool_function (tool_manager agent) (name call) = None /\
  exists agent',
    dispatch agent env before call =
      Done (before ++ [ResultRecorded call (unknown_tool_result (name call))]) agent'
           (Returns (ErrorResponse (u "未知工具: " ++ name call) None None)).
Proof.
  intros Hin Hne Hfail Htm Hpin Hguard.
  assert (Hdesc : member (name call) (map fst (get_tool_descriptions (tool_manager agent)))
                  = true).
  { rewrite Htm, <- has_key_member. unfold load_tools, get_tool_descriptions.
    eapply load_tools_describe; eauto. }
  assert (Hnone : get_tool_function (tool_manager agent) (name call) = None).
  { rewrite Htm. unfold load_tools. apply load_tools_not_callable; [exact Hfail|].
    unfold get_tool_function. simpl.
    destruct (str_eqb (name call) (u "exit")) eqn:E; [apply str_eqb_eq in E; congruence|].
    reflexivity. }
  repeat split; auto.
  unfold dispatch. unfold info_flag in Hguard. rewrite Hguard, Hnone.
  destruct (add_tool_result_pinned prompt (dialogue_manager agent) call
              (unknown_tool_result (name call)) Hpin) as (dm' & E & _).
  rewrite E. eexists. reflexivity.
Qed.
End Registry.

Lemma callable_tools_are_described_witness :
  member (u "info") (map fst (get_tool_descriptions sample_registry)) = true.
Proof.
  refine (callable_tools_are_described sample_modules (u "tools")
            (Some sample_definitions) (u "info") _).
  exists info_execute. reflexivity.
Defined.

Lemma unloadable_tool_is_offered_but_unknown_witness :
  member (u "read") (map fst (get_tool_descriptions sample_registry)) = true /\
  get_tool_function sample_registry (u "read") = None /\
  exists agent',
    dispatch (new_agent sample_registry 16000 (u "You are Axiom Agent."))
             (answering (u "read(file_path='notes.txt')")) []
             {| name := u "read"; args := [(u "file_path", u "notes.txt")] |} =
      Done ([] ++ [ResultRecorded {| name := u "read"; args := [(u "file_path", u "notes.txt")] |}
                                  (unknown_tool_result (u "read"))])
           agent'
           (Returns (ErrorResponse (u "未知工具: " ++ u "read") None None)).
Proof.
  refine (unloadable_tool_is_offered_but_unknown sample_modules (u "tools")
            sample_definitions
            {| info_description := Some (u "读取文件内容");
               info_implementation := Some (u "read.py") |}
            (u "You are Axiom Agent.")
            (new_agent sample_registry 16000 (u "You are Axiom Agent."))
            (answering (u "read(file_path='notes.txt')")) []
            {| name := u "read"; args := [(u "file_path", u "notes.txt")] |}
            _ _ _ _ _ _).
  - simpl. right. right. left. reflexivity.
  - vm_compute. discriminate.
  - intros info' implementation Hin Himpl execute.
    simpl in Hin. destruct Hin as [Hin|[Hin|[Hin|[Hin|[]]]]];
      try (exfalso; revert Hin; vm_compute; discriminate).
    injection Hin as <-. injection Himpl as <-. vm_compute. discriminate.
  - reflexivity.
  - vm_compute. reflexivity.
  - vm_compute. reflexivity.
Defined.

(** ** More on the command gates *)

Section Gates.
Variable casemap : str -> str.
Variable current_os : str.

Lemma agent_check_rules_fires (command base_cmd : str) (rules : list sensitive_cmd) :
  AgentPy.check_rules casemap current_os command base_cmd rules =
    match find (fires_in_agent casemap current_os command base_cmd) rules with
    | Some r => (true, get_default (description r) (u "敏感命令"))
    | None => (false, u "")
    end.
Proof.
  induction rules as [|r rules IH]; [reflexivity|].
  cbn [AgentPy.check_rules find]. unfold fires_in_agent at 1, rule_applies, rule_pattern.
  destruct (applies_to current_os (get_default (os r) [])); [|exact IH].
  destruct (matches_start base_cmd (lower casemap (get_default (pattern r) (u ""))));
    [reflexivity|].
  destruct (contains (lower casemap (get_default (pattern r) (u ""))) command);
    [reflexivity | exact IH].
Qed.

Lemma main_check_rules_fires (command base_cmd : str) (cmd_parts : list str)
      (rules : list sensitive_cmd) :
  fst (MainPy.check_rules casemap current_os command base_cmd cmd_parts rules) =
    existsb (fires_in_main casemap current_os command base_cmd cmd_parts) rules.
Proof.
  induction rules as [|r rules IH]; [reflexivity|].
  cbn [MainPy.check_rules existsb]. unfold fires_in_main at 1, rule_applies, rule_pattern.
  destruct (applies_to current_os (get_default (os r) [])); [|exact IH].
  destruct (matches_start base_cmd (lower casemap (get_default (pattern r) (u ""))));
    [reflexivity|].
  destruct (contains (lower casemap (get_default (pattern r) (u ""))) command);
    [|exact IH].
  destruct (MainPy.dangerous_rm base_cmd cmd_parts); [reflexivity|].
  destruct (MainPy.disk_write_dd base_cmd cmd_parts); [reflexivity | exact IH].
Qed.

(** X11. The gate of [agent.py] on a command that [shlex] splits into at
    least one word: the command is flagged exactly when some rule fires,
    that is, applies to the platform and either names the first word or has
    its pattern somewhere in the command text; the description returned is
    that of the first such rule of the rule set. *)
Theorem agent_gate_flags_iff_rule_fires (rules : list sensitive_cmd) (command first : str)
        (others : list str) :
  shlex_split command = inr (first :: others) ->
  AgentPy.is_sensitive_command casemap current_os rules command =
    match find (fires_in_agent casemap current_os command (lower casemap first)) rules with
    | Some r => (true, get_default (description r) (u "敏感命令"))
    | None => (false, u "")
    end /\
  (fst (AgentPy.is_sensitive_command casemap current_os rules command) = true <->
   exists r, In r rules /\
             fires_in_agent casemap current_os command (lower casemap first) r = true).
Proof.
  intros Hsplit.
  assert (E : AgentPy.is_sensitive_command casemap current_os rules command =
              match find (fires_in_agent casemap current_os command (lower casemap first))
                         rules with
              | Some r => (true, get_default (description r) (u "敏感命令"))
              | None => (false, u "")
              end).
  { unfold AgentPy.is_sensitive_command. rewrite Hsplit.
    destruct rules as [|r rules]; [reflexivity|]. apply agent_check_rules_fires. }
  split; [exact E|]. rewrite E.
  destruct (find (fires_in_agent casemap current_os command (lower casemap first)) rules)
    as [r|] eqn:Hfind; simpl.
  - apply find_some in Hfind. split; [intros _; now exists r | reflexivity].
  - split; [discriminate|]. intros (r & Hin & Hr).
    now rewrite (find_none _ _ Hfind r Hin) in Hr.
Qed.

(** X12. On the commands that [shlex] can split, whatever the gate of
    [main.py] flags the gate of [agent.py] flags as well, under the same
    rule set. *)
Theorem main_flagged_is_agent_flagged (rules : list sensitive_cmd) (command : str)
        (cmd_parts : list str) :
  shlex_split command = inr cmd_parts ->
  fst (MainPy.is_sensitive_command casemap current_os rules command) = true ->
  fst (AgentPy.is_sensitive_command casemap current_os rules command) = true.
Proof.
  intros Hsplit. unfold MainPy.is_sensitive_command, AgentPy.is_sensitive_command.
  rewrite Hsplit. destruct cmd_parts as [|first others]; [discriminate|].
  rewrite main_check_rules_fires.
  destruct rules as [|r0 rules0] eqn:Hrules; [discriminate|]. rewrite <- Hrules. clear Hrules.
  rewrite agent_check_rules_fires. intros H.
  apply existsb_exists in H as (r & Hin & Hr).
  destruct (find (fires_in_agent casemap current_os command (lower casemap first)) rules)
    as [r'|] eqn:Hfind; [reflexivity|].
  exfalso. pose proof (find_none _ _ Hfind r Hin) as Hnot.
  unfold fires_in_main in Hr. unfold fires_in_agent in Hnot.
  destruct (rule_applies current_os r); [|discriminate]. simpl in *.
  destruct (matches_start (lower casemap first) (rule_pattern casemap r)); [discriminate|].
  simpl in *. rewrite Hnot in Hr. discriminate.
Qed.

(** X13. The gate of [main.py] looks at the first word only: a command that
    [shlex] splits is flagged exactly when some applicable rule names its
    first word, or when the first word is rm or dd, the arguments have the
    dangerous shape and some applicable rule has its pattern in the text.
    So no command whose first word is neither named by a rule nor rm nor
    dd is flagged, whatever follows. *)
Theorem main_gate_reads_first_word (rules : list sensitive_cmd) (command first : str)
        (others : list str) :
  shlex_split command = inr (first :: others) ->
  (fst (MainPy.is_sensitive_command casemap current_os rules command) =
     existsb (fires_in_main casemap current_os command (lower casemap first)
                            (first :: others)) rules) /\
  (existsb (names_command casemap current_os (lower casemap first)) rules = false ->
   lower casemap first <> u "rm" ->
   lower casemap first <> u "dd" ->
   MainPy.is_sensitive_command casemap current_os rules command = (false, u "")).
Proof.
  intros Hsplit. unfold MainPy.is_sensitive_command. rewrite Hsplit.
  split; [apply main_check_rules_fires|].
  intros Hnames Hrm Hdd.
  assert (Hrm' : MainPy.dangerous_rm (lower casemap first) (first :: others) = false).
  { unfold MainPy.dangerous_rm.
    destruct (str_eqb (lower casemap first) (u "rm")) eqn:E; [|reflexivity].
    apply str_eqb_eq in E. contradiction. }
  assert (Hdd' : MainPy.disk_write_dd (lower casemap first) (first :: others) = false).
  { unfold MainPy.disk_write_dd.
    destruct (str_eqb (lower casemap first) (u "dd")) eqn:E; [|reflexivity].
    apply str_eqb_eq in E. contradiction. }
  induction rules as [|r rules IH]; [reflexivity|].
  cbn [existsb] in Hnames. apply orb_false_elim in Hnames as [Hr Hrest].
  cbn [MainPy.check_rules]. unfold names_command, rule_applies, rule_pattern in Hr.
  destruct (applies_to current_os (get_default (os r) [])); [|now apply IH].
  simpl in Hr. rewrite Hr, Hrm', Hdd'.
  destruct (contains (lower casemap (get_default (pattern r) (u ""))) command); now apply IH.
Qed.

(** X14. The shell tool of [main.py] hands a command that the gate flags
    to the shell only after the user has answered the prompt with the
    letter y (in either case, white space around it aside); any other
    answer, and an [input] that raises, ends the call with a failed result
    and nothing is run.  A command that [shlex] cannot split is always
    flagged, so it is never run unasked. *)
Theorem flagged_command_runs_only_confirmed (rules : list sensitive_cmd)
        (spawn : str -> MainTools.popen_outcome) (answer : MainTools.console_input)
        (command : str) :
  fst (MainPy.is_sensitive_command casemap current_os rules command) = true \/
  (exists e, shlex_split command = inl e) ->
  hd_error (fst (MainTools.execute_command casemap current_os rules spawn answer command))
    = Some (MainTools.Asked MainTools.confirmation_prompt) /\
  MainTools.spawned
    (fst (MainTools.execute_command casemap current_os rules spawn answer command))
    = (if MainTools.confirms casemap answer then [command] else []) /\
  (MainTools.confirms casemap answer = false ->
   success (snd (MainTools.execute_command casemap current_os rules spawn answer command))
     = false).
Proof.
  intros H.
  assert (Hflag : fst (MainPy.is_sensitive_command casemap current_os rules command) = true).
  { destruct H as [H|[e He]]; [exact H|].
    unfold MainPy.is_sensitive_command. now rewrite He. }
  unfold MainTools.execute_command.
  destruct (MainPy.is_sensitive_command casemap current_os rules command)
    as [is_sensitive description].
  simpl in Hflag. subst is_sensitive.
  unfold MainTools.run_command, MainTools.confirms.
  destruct answer as [text|e];
    [destruct (str_eqb (lower casemap (strip text)) (u "y")); cbn [negb]|];
    (split; [reflexivity | split; [reflexivity | intros Hno; first [discriminate Hno | reflexivity]]]).
Qed.
End Gates.

Lemma agent_gate_flags_iff_rule_fires_witness :
  AgentPy.is_sensitive_command (fun s => s) (u "linux") MainPy.default_sensitive_commands
                               (u "/bin/rm -rf /")
    = (true, u "删除文件或目录命令").
Proof.
  refine (eq_trans (proj1 (agent_gate_flags_iff_rule_fires (fun s => s) (u "linux")
                             MainPy.default_sensitive_commands (u "/bin/rm -rf /")
                             (u "/bin/rm") [u "-rf"; u "/"] _)) _).
  - vm_compute. reflexivity.
  - vm_compute. reflexivity.
Defined.

Lemma main_flagged_is_agent_flagged_witness :
  fst (AgentPy.is_sensitive_command (fun s => s) (u "linux")
         MainPy.default_sensitive_commands (u "sudo reboot")) = true.
Proof.
  refine (main_flagged_is_agent_flagged (fun s => s) (u "linux")
            MainPy.default_sensitive_commands (u "sudo reboot")
            [u "sudo"; u "reboot"] _ _).
  - vm_compute. reflexivity.
  - vm_compute. reflexivity.
Defined.

Lemma main_gate_reads_first_word_witness :
  MainPy.is_sensitive_command (fun s => s) (u "linux") MainPy.default_sensitive_commands
                              (u "/bin/rm -rf /")
    = (false, u "").
Proof.
  refine (proj2 (main_gate_reads_first_word (fun s => s) (u "linux")
                   MainPy.default_sensitive_commands (u "/bin/rm -rf /")
                   (u "/bin/rm") [u "-rf"; u "/"] _) _ _ _).
  - vm_compute. reflexivity.
  - vm_compute. reflexivity.
  - vm_compute. discriminate.
  - vm_compute. discriminate.
Defined.

Lemma flagged_command_runs_only_confirmed_witness :
  MainTools.spawned
    (fst (MainTools.execute_command (fun s => s) (u "linux")
            MainPy.default_sensitive_commands MainTools.nothing_to_say
            (MainTools.Line (u "yes")) (u "rm -rf / '")))
    = [].
Proof.
  refine (proj1 (proj2 (flagged_command_runs_only_confirmed (fun s => s) (u "linux")
                          MainPy.default_sensitive_commands MainTools.nothing_to_say
                          (MainTools.Line (u "yes")) (u "rm -rf / '") _))).
  right. exists NoClosingQuotation. vm_compute. reflexivity.
Defined.

(** ** The shape of a turn *)

Section TurnShape.
Context {World : Type}.
Variables json_block_rule tool_mention_rule : str -> list str -> rule_result.

Local Abbreviation process_turn :=
  (@process_message World json_block_rule tool_mention_rule).
Local Abbreviation complete_turn :=
  (@complete_interaction World json_block_rule tool_mention_rule).

Lemma dispatch_one_tool (agent : AIAgent World) (env : turn_env World)
      (before : list event) (call : tool_call) :
  exists tail,
    turn_trace (dispatch agent env before call) = before ++ tail /\
    one_tool_at_most tail = true.
Proof.
  unfold dispatch.
  destruct (str_eqb (name call) (u "info") && was_last_tool_info (dialogue_manager agent)).
  - destruct (add_tool_result (dialogue_manager agent) call info_loop_result);
      [eexists; split; reflexivity | exists []; now rewrite app_nil_r].
  - destruct (get_tool_function (tool_manager agent) (name call)) as [f|].
    + destruct (str_eqb (name call) (u "interact")).
      * exists []. now rewrite app_nil_r.
      * destruct (call_tool f (world env) (args call)) as [e|res].
        -- eexists; split; reflexivity.
        -- destruct (add_tool_result (dialogue_manager agent) call res).
           ++ eexists; split; [reflexivity|]. cbn [one_tool_at_most].
              rewrite str_eqb_refl, bool_decide_eq_true_2; reflexivity.
           ++ eexists; split; reflexivity.
    + destruct (add_tool_result (dialogue_manager agent) call
                  (unknown_tool_result (name call)));
        [eexists; split; reflexivity | exists []; now rewrite app_nil_r].
Qed.

Lemma process_message_one_tool (agent : AIAgent World) (env : turn_env World)
      (text : str) :
  exists tail,
    turn_trace (process_turn agent env text) =
      ModelRequest (conversation agent ++ [{| msg_role := User; content := text |}])
        :: tail /\
    one_tool_at_most tail = true.
Proof.
  unfold process_message.
  change (get_messages (add_user_message (dialogue_manager agent) text))
    with (conversation agent ++ [{| msg_role := User; content := text |}]).
  destruct (send_request env (conversation agent ++ [{| msg_role := User; content := text |}]))
    as [err details|choices].
  - now exists [].
  - destruct (parse_response json_block_rule tool_mention_rule (ResponseBody choices)
                (map fst (get_tool_descriptions (tool_manager agent)))).
    + now exists [].
    + apply dispatch_one_tool.
    + apply dispatch_one_tool.
Qed.

(** X15. One tool per turn.  A call of [process_message] asks the model
    once, with the conversation extended by the message, then invokes at
    most one tool and records at most one result; when it has invoked a
    tool, the result it records is that of the call it invoked.  A call of
    [complete_interaction] for an id that the agent does not hold returns
    the unknown-interaction error, with no event and the agent as it was.
    For an id that the agent holds, the call first records the reply as the
    result of the pending call, then asks the model once, with the
    conversation as the record left it extended by the continuation
    message, and goes on as [process_message] does; the one exception is a
    conversation on which recording the reply does not end (the trimming
    loop of [add_tool_result] goes on for ever): then the call never
    returns. *)
Theorem one_tool_per_turn (agent : AIAgent World) (env : turn_env World)
        (text id reply : str) :
  (exists tail,
      turn_trace (process_turn agent env text) =
        ModelRequest (conversation agent ++ [{| msg_role := User; content := text |}])
          :: tail /\
      one_tool_at_most tail = true) /\
  match pending_interactions agent !! id with
  | None =>
      complete_turn agent env id reply = Done [] agent (Returns (unknown_interaction id))
  | Some pending =>
      match add_tool_result (dialogue_manager agent) (pending_call pending)
                            (reply_result reply) with
      | None => complete_turn agent env id reply = Hangs []
      | Some dm' =>
          exists tail,
            turn_trace (complete_turn agent env id reply) =
              ResultRecorded (pending_call pending) (reply_result reply)
                :: ModelRequest (messages dm' ++
                                   [{| msg_role := User; content := u "继续执行任务" |}])
                :: tail /\
            one_tool_at_most tail = true
      end
  end.
Proof.
  split; [apply process_message_one_tool|].
  unfold complete_interaction.
  destruct (pending_interactions agent !! id) as [pending|]; [|reflexivity].
  destruct (add_tool_result (dialogue_manager agent) (pending_call pending)
              (reply_result reply)) as [dm'|]; [|reflexivity].
  match goal with
  | |- context [process_message _ _ ?a _ ?t] =>
      destruct (process_message_one_tool a env t) as (tail & E & Hone)
  end.
  exists tail. split; [|exact Hone].
  match goal with
  | |- turn_trace (after_record ?e ?t) = _ =>
      replace (turn_trace (after_record e t)) with (e :: turn_trace t)
        by (destruct t; reflexivity)
  end.
  rewrite E. reflexivity.
Qed.

Lemma dispatch_pending (agent : AIAgent World) (env : turn_env World)
      (before : list event) (call : tool_call) :
  (forall k, k <> uuid4 env ->
             pending_interactions (turn_agent agent (dispatch agent env before call)) !! k
               = pending_interactions agent !! k) /\
  (forall id content prompt,
      turn_completion (dispatch agent env before call)
        = Some (Returns (InteractionRequired id content prompt)) ->
      id = uuid4 env /\
      turn_trace (dispatch agent env before call) = before /\
      name call = u "interact" /\
      dialogue_manager (turn_agent agent (dispatch agent env before call))
        = dialogue_manager agent /\
      pending_interactions (turn_agent agent (dispatch agent env before call)) =
        <[ id := {| pending_call := call; pending_content := content;
                    pending_prompt := prompt |} ]> (pending_interactions agent)).
Proof.
  unfold dispatch.
  destruct (str_eqb (name call) (u "info") && was_last_tool_info (dialogue_manager agent)).
  { destruct (add_tool_result (dialogue_manager agent) call info_loop_result);
      cbn [turn_agent turn_completion turn_trace set_dialogue pending_interactions];
      (split; [reflexivity | intros id content prompt H; discriminate H]). }
  destruct (get_tool_function (tool_manager agent) (name call)) as [f|].
  - destruct (str_eqb (name call) (u "interact")) eqn:Hname.
    + cbn [turn_agent turn_completion turn_trace pending_interactions dialogue_manager].
      split.
      * intros k Hk. now rewrite lookup_insert_ne.
      * intros id content prompt H.
        apply str_eqb_eq in Hname.
        assert (Hid : id = uuid4 env) by congruence.
        assert (Hc : content = get_default (lookup_item (u "content") (args call))
                                           (u "请输入您的回复")) by congruence.
        assert (Hp : prompt = get_default (lookup_item (u "prompt") (args call))
                                          (u "请输入您的回复: ")) by congruence.
        subst id content prompt. auto.
    + destruct (call_tool f (world env) (args call)) as [e|res].
      * cbn [turn_agent turn_completion turn_trace set_dialogue pending_interactions].
        split; [reflexivity | intros id content prompt H; discriminate H].
      * destruct (add_tool_result (dialogue_manager agent) call res);
          cbn [turn_agent turn_completion turn_trace set_dialogue pending_interactions];
          (split; [reflexivity | intros id content prompt H]); [|discriminate H].
        destruct (str_eqb (name call) (u "exit") && success res && exit res);
          discriminate H.
  - destruct (add_tool_result (dialogue_manager agent) call
                (unknown_tool_result (name call)));
      cbn [turn_agent turn_completion turn_trace set_dialogue pending_interactions];
      (split; [reflexivity | intros id content prompt H; discriminate H]).
Qed.

Lemma process_message_pending (agent : AIAgent World) (env : turn_env World) (text : str) :
  (forall k, k <> uuid4 env ->
             pending_interactions (turn_agent agent (process_turn agent env text)) !! k
               = pending_interactions agent !! k) /\
  (forall id content prompt,
      turn_completion (process_turn agent env text)
        = Some (Returns (InteractionRequired id content prompt)) ->
      id = uuid4 env /\
      turn_trace (process_turn agent env text) =
        [ModelRequest (conversation agent
                         ++ [{| msg_role := User; content := text |}])] /\
      info_flag (turn_agent agent (process_turn agent env text)) = info_flag agent /\
      exists call,
        name call = u "interact" /\
        pending_interactions (turn_agent agent (process_turn agent env text)) =
          <[ id := {| pending_call := call; pending_content := content;
                      pending_prompt := prompt |} ]> (pending_interactions agent)).
Proof.
  unfold process_message.
  change (get_messages (add_user_message (dialogue_manager agent) text))
    with (conversation agent ++ [{| msg_role := User; content := text |}]).
  destruct (send_request env (conversation agent ++ [{| msg_role := User; content := text |}]))
    as [err details|choices].
  { cbn [turn_agent turn_completion turn_trace set_dialogue pending_interactions].
    split; [reflexivity | intros id content prompt H; discriminate H]. }
  set (dm2 := match first_content choices with
              | [] => add_user_message (dialogue_manager agent) text
              | c0 :: text0 =>
                  add_assistant_message (add_user_message (dialogue_manager agent) text)
                                        (c0 :: text0)
              end).
  assert (Hflag2 : last_tool_was_info dm2 = last_tool_was_info (dialogue_manager agent)).
  { subst dm2. destruct (first_content choices); reflexivity. }
  set (asked := [ModelRequest (conversation agent
                                 ++ [{| msg_role := User; content := text |}])]).
  assert (Hd : forall call,
             (forall k, k <> uuid4 env ->
                pending_interactions
                  (turn_agent agent (dispatch (set_dialogue agent dm2) env asked call)) !! k
                  = pending_interactions agent !! k) /\
             (forall id content prompt,
                 turn_completion (dispatch (set_dialogue agent dm2) env asked call)
                   = Some (Returns (InteractionRequired id content prompt)) ->
                 id = uuid4 env /\
                 turn_trace (dispatch (set_dialogue agent dm2) env asked call) = asked /\
                 info_flag (turn_agent agent (dispatch (set_dialogue agent dm2) env asked call))
                   = info_flag agent /\
                 exists held,
                   name held = u "interact" /\
                   pending_interactions
                     (turn_agent agent (dispatch (set_dialogue agent dm2) env asked call)) =
                     <[ id := {| pending_call := held; pending_content := content;
                                 pending_prompt := prompt |} ]>
                       (pending_interactions agent))).
  { intros call.
    destruct (dispatch_pending (set_dialogue agent dm2) env asked call) as [Hk Hi].
    assert (Hagent : forall t : turn World,
               turn_completion t <> None ->
               turn_agent agent t = turn_agent (set_dialogue agent dm2) t).
    { intros [tr a c0|tr]; [reflexivity | intros H; exfalso; apply H; reflexivity]. }
    split.
    - intros k Hne. specialize (Hk k Hne).
      destruct (dispatch (set_dialogue agent dm2) env asked call); [exact Hk | reflexivity].
    - intros id content prompt Hc.
      destruct (Hi id content prompt Hc) as (H1 & H2 & H3 & H4 & H5).
      rewrite Hagent by (rewrite Hc; discriminate).
      split; [exact H1|]. split; [exact H2|]. split.
      + unfold info_flag, was_last_tool_info. rewrite H4. exact Hflag2.
      + exists call. split; [exact H3 | exact H5]. }
  destruct (parse_response json_block_rule tool_mention_rule (ResponseBody choices)
              (map fst (get_tool_descriptions (tool_manager agent)))).
  - cbn [turn_agent turn_completion turn_trace set_dialogue pending_interactions].
    split; [reflexivity | intros id content prompt H; discriminate H].
  - apply Hd.
  - apply Hd.
Qed.

(** X16. A turn that ends with an interaction request has done nothing but
    ask the model: no tool function was invoked (the [interact] module is
    looked up, not called) and nothing was recorded.  The request carries
    the id that [uuid4] gave, under that id the agent now holds the
    [interact] call with the content and the prompt that the response
    shows, and the info flag is as before. *)
Theorem interaction_request_suspends (agent agent' : AIAgent World) (env : turn_env World)
        (text : str) (trace : list event) (id content prompt : str) :
  process_turn agent env text
    = Done trace agent' (Returns (InteractionRequired id content prompt)) ->
  id = uuid4 env /\
  trace = [ModelRequest (conversation agent ++ [{| msg_role := User; content := text |}])] /\
  info_flag agent' = info_flag agent /\
  exists call,
    name call = u "interact" /\
    pending_interactions agent' =
      <[ id := {| pending_call := call; pending_content := content;
                  pending_prompt := prompt |} ]> (pending_interactions agent).
Proof.
  intros E. destruct (process_message_pending agent env text) as [_ Hi].
  rewrite E in Hi. apply (Hi id content prompt). reflexivity.
Qed.

(** X17. An interaction is answered once.  When the agent holds the id, the
    conversation is pinned and the turn draws a different id,
    [complete_interaction] records the reply as the result of the pending
    call, asks the model with a conversation that ends with that result and
    the message that asks it to go on, and no longer holds the id when it
    is done; a second answer to the same id returns the
    unknown-interaction error and causes no event. *)
Theorem interaction_is_answered_once (prompt : str) (agent : AIAgent World)
        (env : turn_env World) (id reply : str) (pending : interaction) :
  pinned prompt (conversation agent) = true ->
  pending_interactions agent !! id = Some pending ->
  uuid4 env <> id ->
  exists history tail agent' c,
    complete_turn agent env id reply =
      Done (ResultRecorded (pending_call pending) (reply_result reply)
              :: ModelRequest (history ++ [{| msg_role := User; content := u "继续执行任务" |}])
              :: tail)
           agent' c /\
    last history =
      Some {| msg_role := User;
              content := tool_result_message (pending_call pending) (reply_result reply) |} /\
    pending_interactions agent' !! id = None /\
    forall env' reply',
      complete_turn agent' env' id reply' = Done [] agent' (Returns (unknown_interaction id)).
Proof.
  intros Hpin Hheld Hfresh. unfold complete_interaction at 1. rewrite Hheld.
  destruct (add_tool_result_pinned prompt (dialogue_manager agent) (pending_call pending)
              (reply_result reply) Hpin) as (dm' & E & Hpin' & Hlast & _).
  rewrite E.
  set (resumed := {| tool_manager := tool_manager agent;
                     dialogue_manager := dm';
                     pending_interactions := delete id (pending_interactions agent) |}).
  destruct (process_message_sound json_block_rule tool_mention_rule prompt resumed env
              (u "继续执行任务") Hpin') as (trace & agent' & c & Eturn & _).
  destruct (process_message_one_tool resumed env (u "继续执行任务")) as (tail & Etrace & _).
  rewrite Eturn in Etrace. cbn [turn_trace app] in Etrace.
  rewrite Eturn. cbn [after_record app]. rewrite Etrace.
  exists (messages dm'), tail, agent', c.
  split; [reflexivity|]. split; [exact Hlast|].
  destruct (process_message_pending resumed env (u "继续执行任务")) as [Hkeep _].
  rewrite Eturn in Hkeep. cbn [turn_agent] in Hkeep.
  assert (Hgone : pending_interactions agent' !! id = None).
  { rewrite Hkeep by congruence. apply lookup_delete_eq. }
  split; [exact Hgone|].
  intros env' reply'. unfold complete_interaction. now rewrite Hgone.
Qed.
End TurnShape.

Lemma interaction_request_suspends_witness :
  turn_trace asking =
    [ModelRequest (conversation fresh_agent
                     ++ [{| msg_role := User; content := u "deploy the site" |}])].
Proof.
  refine (proj1 (proj2 (interaction_request_suspends no_rule no_rule fresh_agent
                          (turn_agent fresh_agent asking)
                          (answering (u "interact(content='Proceed?')"))
                          (u "deploy the site") (turn_trace asking)
                          (u "interaction-1") (u "Proceed?") (u "请输入您的回复: ") _))).
  vm_compute. reflexivity.
Defined.

Lemma interaction_is_answered_once_witness :
  exists history tail agent' c,
    complete_interaction no_rule no_rule (turn_agent fresh_agent asking)
        {| send_request := fun _ => model_reply (u "info(content='working')");
           world := tt; uuid4 := u "interaction-2" |}
        (u "interaction-1") (u "yes") =
      Done (ResultRecorded question (reply_result (u "yes"))
              :: ModelRequest (history ++ [{| msg_role := User; content := u "继续执行任务" |}])
              :: tail)
           agent' c /\
    last history =
      Some {| msg_role := User;
              content := tool_result_message question (reply_result (u "yes")) |} /\
    pending_interactions agent' !! u "interaction-1" = None /\
    forall env' reply',
      complete_interaction no_rule no_rule agent' env' (u "interaction-1") reply'
        = Done [] agent' (Returns (unknown_interaction (u "interaction-1"))).
Proof.
  refine (interaction_is_answered_once no_rule no_rule (u "You are Axiom Agent.")
            (turn_agent fresh_agent asking)
            {| send_request := fun _ => model_reply (u "info(content='working')");
               world := tt; uuid4 := u "interaction-2" |}
            (u "interaction-1") (u "yes")
            {| pending_call := question; pending_content := u "Proceed?";
               pending_prompt := u "请输入您的回复: " |} _ _ _).
  - vm_compute. reflexivity.
  - vm_compute. reflexivity.
  - vm_compute. discriminate.
Defined.

Lemma one_tool_per_turn_witness :
  exists history tail,
    turn_trace (complete_interaction no_rule no_rule (turn_agent fresh_agent asking)
                  (answering (u "info(content='working')"))
                  (u "interaction-1") (u "yes")) =
      ResultRecorded question (reply_result (u "yes")) :: ModelRequest history :: tail /\
    one_tool_at_most tail = true.
Proof.
  generalize (proj2 (one_tool_per_turn no_rule no_rule (turn_agent fresh_agent asking)
                       (answering (u "info(content='working')"))
                       (u "go on") (u "interaction-1") (u "yes"))).
  vm_compute. intros (tail & E & Hone). eexists _, tail. split; [exact E | exact Hone].
Defined.

(** ** More on the HTTP surface *)

Section Surface.
Context {World : Type}.
Variables json_block_rule tool_mention_rule : str -> list str -> rule_result.

Local Abbreviation handle_request :=
  (@handle_chat World json_block_rule tool_mention_rule).

Lemma cleanup_lookup (st : app_state World) (current_time : Q) (id : str)
      (data : interaction_request) :
  interaction_requests (cleanup_expired_data st current_time) !! id = Some data <->
  interaction_requests st !! id = Some data /\ expired current_time data = false.
Proof.
  unfold cleanup_expired_data. cbn [interaction_requests].
  rewrite map_lookup_filter_Some. reflexivity.
Qed.

(** A reply that names a registered interaction which the agent of the
    session does not hold. *)
Lemma reply_to_unheld (st : app_state World) (env : request_env World)
      (data : chat_request) (sid id text : str) (pending : interaction_request) :
  truthy (req_session_id data) = Some sid ->
  truthy (req_message data) = Some text ->
  truthy (req_interaction_id data) = Some id ->
  interaction_requests st !! id = Some pending ->
  expired (now env) pending = false ->
  session_pending st sid id = false ->
  handle_request st env (Some data) =
    Responded []
      (set_flag
         (set_session
            (set_request
               (match sessions st !! sid with
                | Some _ => cleanup_expired_data st (now env)
                | None => create_session (cleanup_expired_data st (now env)) env sid
                end)
               id (answered_request pending text))
            sid
            (get_default (sessions st !! sid)
               (new_agent (registry env) (config_max_tokens env) (system_prompt env))))
         sid true)
      (JsonResult (unknown_interaction id) sid true).
Proof.
  intros Hsid Hmsg Hid Hreq Hlive Hheld.
  unfold handle_chat, chat. rewrite (message_nonempty _ _ Hmsg), Hsid, Hmsg, Hid.
  change (sessions (cleanup_expired_data st (now env))) with (sessions st).
  assert (Hreq' : interaction_requests (cleanup_expired_data st (now env)) !! id
                  = Some pending) by (apply cleanup_lookup; auto).
  unfold session_pending in Hheld.
  destruct (sessions st !! sid) as [agent|] eqn:Hsession.
  - rewrite Hreq'. change (sessions (cleanup_expired_data st (now env))) with (sessions st).
    rewrite Hsession. cbn [get_default].
    unfold chat_completion, complete_interaction.
    apply bool_decide_eq_false in Hheld.
    destruct (pending_interactions agent !! id) eqn:E; [exfalso; apply Hheld; eauto|].
    reflexivity.
  - cbn [create_session interaction_requests sessions]. rewrite Hreq'.
    rewrite lookup_insert_eq. cbn [get_default].
    unfold chat_completion, complete_interaction. cbn [new_agent pending_interactions].
    rewrite lookup_empty. reflexivity.
Qed.

(** X18. A reply that names an interaction which is still registered but
    which the agent of the session does not hold (it was answered before,
    or the session was deleted or never asked it) is answered with the
    unknown-interaction error and a continuation flag that is set.  The
    model is not asked, the conversation of the session is as before, and
    the registered request is stamped as completed with the new input. *)
Theorem reply_to_unheld_interaction (st : app_state World) (env : request_env World)
        (data : chat_request) (sid id text : str) (pending : interaction_request) :
  truthy (req_session_id data) = Some sid ->
  truthy (req_message data) = Some text ->
  truthy (req_interaction_id data) = Some id ->
  interaction_requests st !! id = Some pending ->
  expired (now env) pending = false ->
  session_pending st sid id = false ->
  exists st',
    handle_request st env (Some data) =
      Responded [] st' (JsonResult (unknown_interaction id) sid true) /\
    (forall agent, sessions st !! sid = Some agent -> sessions st' !! sid = Some agent) /\
    continuation_flags st' !! sid = Some true /\
    interaction_requests st' !! id = Some (answered_request pending text).
Proof.
  intros Hsid Hmsg Hid Hreq Hlive Hheld.
  eexists. split; [eapply reply_to_unheld; eauto|].
  cbn [set_flag set_session set_request sessions continuation_flags interaction_requests].
  rewrite !lookup_insert_eq. repeat split.
  intros agent Hagent. rewrite Hagent. reflexivity.
Qed.

(** X19. Deleting a session removes its agent and its continuation flag and
    nothing else: the interaction requests that the session raised stay
    registered.  A later reply to one of them under the old session id is
    taken for a reply to a live interaction; a new agent is created under
    the id, and the reply gets the unknown-interaction error. *)
Theorem deleted_session_keeps_its_requests (st : app_state World) (env : request_env World)
        (sid id text : str) (agent : AIAgent World) (pending : interaction_request) :
  sessions st !! sid = Some agent ->
  interaction_requests st !! id = Some pending ->
  expired (now env) pending = false ->
  text <> [] -> sid <> [] -> id <> [] ->
  snd (delete_session st sid) = SessionDeleted (u "会话 " ++ sid ++ u " 已删除") /\
  sessions (fst (delete_session st sid)) = delete sid (sessions st) /\
  continuation_flags (fst (delete_session st sid)) = delete sid (continuation_flags st) /\
  interaction_requests (fst (delete_session st sid)) = interaction_requests st /\
  exists st',
    handle_request (fst (delete_session st sid)) env (Some (reply_to sid id text)) =
      Responded [] st' (JsonResult (unknown_interaction id) sid true) /\
    sessions st' !! sid =
      Some (new_agent (registry env) (config_max_tokens env) (system_prompt env)).
Proof.
  intros Hsession Hreq Hlive Htext Hsid Hid.
  unfold delete_session. rewrite Hsession. cbn [fst snd sessions continuation_flags
                                                  interaction_requests].
  repeat (split; [reflexivity|]).
  eexists. split.
  - eapply reply_to_unheld; cbn [reply_to req_session_id req_message req_interaction_id].
    + destruct sid; [contradiction | reflexivity].
    + destruct text; [contradiction | reflexivity].
    + destruct id; [contradiction | reflexivity].
    + exact Hreq.
    + exact Hlive.
    + unfold session_pending. cbn [sessions]. now rewrite lookup_delete_eq.
  - cbn [set_flag set_session set_request sessions]. rewrite lookup_insert_eq.
    rewrite lookup_delete_eq. reflexivity.
Qed.

(** X20. A request whose body is an object that holds a key, but no
    session id, is given a new session before its message is looked at.
    When the message is missing or empty the request is rejected with
    status 400 and the text for a missing message, in a payload without a
    session id, and the new agent stays in the session table.  The object
    without a key is turned away before that, with status 400 and the text
    for an empty body, and leaves the session table as it was. *)
Theorem rejected_request_leaves_a_session (st : app_state World) (env : request_env World)
        (data : chat_request) :
  truthy (req_session_id data) = None ->
  truthy (req_message data) = None ->
  handle_request st env (Some data) =
    (if empty_object data
     then Responded [] (cleanup_expired_data st (now env))
                    (JsonError (Literal (u "请求体不能为空")) 400)
     else Responded [] (create_session (cleanup_expired_data st (now env)) env
                                       (session_uuid env))
                    (JsonError (Literal (u "消息不能为空")) 400)) /\
  sessions (outcome_state st (handle_request st env (Some data))) !! session_uuid env =
    (if empty_object data
     then sessions st !! session_uuid env
     else Some (new_agent (registry env) (config_max_tokens env) (system_prompt env))).
Proof.
  intros Hsid Hmsg.
  assert (E : handle_request st env (Some data) =
              if empty_object data
              then Responded [] (cleanup_expired_data st (now env))
                             (JsonError (Literal (u "请求体不能为空")) 400)
              else Responded [] (create_session (cleanup_expired_data st (now env)) env
                                                (session_uuid env))
                             (JsonError (Literal (u "消息不能为空")) 400)).
  { unfold handle_chat, chat. rewrite Hsid, Hmsg. reflexivity. }
  split; [exact E|]. rewrite E. destruct (empty_object data).
  - reflexivity.
  - cbn [outcome_state create_session sessions]. apply lookup_insert_eq.
Qed.

Lemma chat_turn_elsewhere (st : app_state World) (env : request_env World) (sid : str)
      (agent : AIAgent World) (continue_execution : bool) (text : str)
      (trace : list event) (st' : app_state World) (r : http_response) (other : str) :
  chat_turn json_block_rule tool_mention_rule st env sid agent continue_execution text
    = Responded trace st' r ->
  other <> sid ->
  sessions st' !! other = sessions st !! other /\
  continuation_flags st' !! other = continuation_flags st !! other /\
  is_Some (sessions st' !! sid).
Proof.
  unfold chat_turn. intros H Hother.
  destruct (process_message _ _ _ _ _) as [tr agent' [result|e]|tr]; [| |discriminate].
  - injection H as _ <- _.
    destruct (str_eqb (response_type result) (u "interaction_required"));
      [destruct (interaction_id_of result)|];
      cbn [set_flag set_session set_request sessions continuation_flags];
      rewrite ?lookup_insert_eq, !lookup_insert_ne by congruence; eauto.
  - injection H as _ <- _.
    cbn [set_flag set_session set_request sessions continuation_flags].
    rewrite ?lookup_insert_eq, !lookup_insert_ne by congruence; eauto.
Qed.

Lemma chat_completion_elsewhere (st : app_state World) (env : request_env World)
      (sid : str) (agent : AIAgent World) (id : str) (data : interaction_request)
      (text : str) (trace : list event) (st' : app_state World) (r : http_response)
      (other : str) :
  chat_completion json_block_rule tool_mention_rule st env sid agent id data text
    = Responded trace st' r ->
  other <> sid ->
  sessions st' !! other = sessions st !! other /\
  continuation_flags st' !! other = continuation_flags st !! other /\
  is_Some (sessions st' !! sid).
Proof.
  unfold chat_completion. intros H Hother.
  destruct (complete_interaction _ _ _ _ _ _) as [tr agent' [result|e]|tr]; [| |discriminate];
    injection H as _ <- _;
    cbn [set_flag set_session set_request sessions continuation_flags];
    rewrite ?lookup_insert_eq, !lookup_insert_ne by congruence; eauto.
Qed.

Lemma chat_elsewhere (st : app_state World) (env : request_env World)
      (data : chat_request) (trace : list event) (st' : app_state World)
      (r : http_response) :
  chat json_block_rule tool_mention_rule st env (Some data) = Responded trace st' r ->
  (forall other, other <> session_of env data ->
     sessions st' !! other = sessions st !! other /\
     continuation_flags st' !! other = continuation_flags st !! other) /\
  (is_Some (sessions st !! session_of env data) ->
   is_Some (sessions st' !! session_of env data)).
Proof.
  unfold chat, session_of. intros H.
  destruct (empty_object data); [injection H as _ <- _; auto|].
  set (sid := match truthy (req_session_id data) with
              | Some s => s
              | None => session_uuid env
              end) in *.
  set (st1 := match truthy (req_session_id data) with
              | Some s => st
              | None => create_session st env (session_uuid env)
              end).
  assert (Hpair : match truthy (req_session_id data) with
                  | Some s => (s, st)
                  | None => (session_uuid env, create_session st env (session_uuid env))
                  end = (sid, st1))
    by (subst sid st1; destruct (truthy (req_session_id data)); reflexivity).
  rewrite Hpair in H.
  assert (Hst1 : forall other, other <> sid ->
             sessions st1 !! other = sessions st !! other /\
             continuation_flags st1 !! other = continuation_flags st !! other).
  { intros other Hother. subst st1. destruct (truthy (req_session_id data));
      [split; reflexivity|].
    cbn [create_session sessions continuation_flags].
    rewrite !lookup_insert_ne by congruence. split; reflexivity. }
  assert (Hown1 : is_Some (sessions st !! sid) -> is_Some (sessions st1 !! sid)).
  { subst st1. destruct (truthy (req_session_id data)); [auto|].
    intros _. cbn [create_session sessions]. rewrite lookup_insert_eq. eauto. }
  clearbody st1 sid. clear Hpair.
  destruct (truthy (req_message data)) as [text|].
  2:{ injection H as _ <- _. auto. }
  set (st2 := match sessions st1 !! sid with
              | Some _ => st1
              | None => create_session st1 env sid
              end) in *.
  assert (Hst2 : forall other, other <> sid ->
             sessions st2 !! other = sessions st !! other /\
             continuation_flags st2 !! other = continuation_flags st !! other).
  { intros other Hother. destruct (Hst1 other Hother) as [H1 H2].
    subst st2. destruct (sessions st1 !! sid); [auto|].
    cbn [create_session sessions continuation_flags].
    rewrite !lookup_insert_ne by congruence. auto. }
  clearbody st2.
  assert (Hfresh : (0%N :: sid) <> sid).
  { intros Habs. apply (f_equal length) in Habs. simpl in Habs. lia. }
  assert (Hend : (forall other, other <> sid ->
                    sessions st' !! other = sessions st2 !! other /\
                    continuation_flags st' !! other = continuation_flags st2 !! other) /\
                 is_Some (sessions st' !! sid)).
  { destruct (truthy (req_interaction_id data)) as [id|];
      [destruct (interaction_requests st2 !! id) as [pending|]|].
    - split; [intros other Hother|];
        [destruct (chat_completion_elsewhere _ _ _ _ _ _ _ _ _ _ other H Hother)
           as (H1 & H2 & _); auto
        |eapply chat_completion_elsewhere; eauto].
    - split; [intros other Hother|];
        [destruct (chat_turn_elsewhere _ _ _ _ _ _ _ _ _ other H Hother)
           as (H1 & H2 & _); auto
        |eapply chat_turn_elsewhere; eauto].
    - split; [intros other Hother|];
        [destruct (chat_turn_elsewhere _ _ _ _ _ _ _ _ _ other H Hother)
           as (H1 & H2 & _); auto
        |eapply chat_turn_elsewhere; eauto]. }
  destruct Hend as [Hother Hown]. split; [|auto].
  intros other Hne. destruct (Hother other Hne) as [-> ->]. auto.
Qed.

(** X21. Sessions do not interfere and do not go away.  A request to
    [/api/chat] that is answered leaves the agent and the continuation
    flag of every session other than its own as they were, and every
    session that was there before is still there; the hook and the view
    remove interaction requests only. *)
Theorem chat_leaves_other_sessions (st : app_state World) (env : request_env World)
        (data : chat_request) (trace : list event) (st' : app_state World)
        (r : http_response) :
  handle_request st env (Some data) = Responded trace st' r ->
  (forall other, other <> session_of env data ->
     sessions st' !! other = sessions st !! other /\
     continuation_flags st' !! other = continuation_flags st !! other) /\
  (forall sid, is_Some (sessions st !! sid) -> is_Some (sessions st' !! sid)).
Proof.
  unfold handle_chat. intros H. apply chat_elsewhere in H as [Hother Hown].
  change (sessions (cleanup_expired_data st (now env))) with (sessions st) in *.
  change (continuation_flags (cleanup_expired_data st (now env)))
    with (continuation_flags st) in *.
  split; [exact Hother|].
  intros sid Hsid. destruct (decide (sid = session_of env data)) as [->|Hne].
  - auto.
  - destruct (Hother sid Hne) as [-> _]. exact Hsid.
Qed.

(** X22. A reply to a live interaction always comes back with a
    continuation flag that is set, whatever the type of the result, and
    registers no interaction request: when the resumed turn ends with a new
    interaction request, its id is not entered in the table of the
    service, although the agent holds it. *)
Theorem completion_sets_continuation (st : app_state World) (env : request_env World)
        (data : chat_request) (trace : list event) (st' : app_state World)
        (result : response) (sid : str) (hc : bool) :
  answers_interaction st env data = true ->
  handle_request st env (Some data) = Responded trace st' (JsonResult result sid hc) ->
  hc = true /\
  sid = session_of env data /\
  continuation_flags st' !! sid = Some true /\
  forall id, is_Some (interaction_requests st' !! id) <->
             is_Some (interaction_requests (cleanup_expired_data st (now env)) !! id).
Proof.
  unfold answers_interaction, handle_chat, chat, session_of. intros Hlive H.
  destruct (truthy (req_interaction_id data)) as [id|] eqn:Hid; [|discriminate].
  rewrite (interaction_id_nonempty _ _ Hid) in H.
  destruct (interaction_requests (cleanup_expired_data st (now env)) !! id)
    as [pending|] eqn:Hreq; [|discriminate].
  assert (Hend : forall st2 agent s,
             interaction_requests st2 = interaction_requests (cleanup_expired_data st (now env)) ->
             chat_completion json_block_rule tool_mention_rule st2 env s agent id pending
               (get_default (truthy (req_message data)) [])
               = Responded trace st' (JsonResult result sid hc) ->
             hc = true /\ sid = s /\ continuation_flags st' !! sid = Some true /\
             forall id', is_Some (interaction_requests st' !! id') <->
                         is_Some (interaction_requests
                                    (cleanup_expired_data st (now env)) !! id')).
  { intros st2 agent s Hst2 E. unfold chat_completion in E.
    destruct (complete_interaction _ _ _ _ _ _) as [tr agent' [res|e]|tr]; try discriminate.
    injection E as _ <- _ <- <-.
    cbn [set_flag set_session set_request continuation_flags interaction_requests].
    rewrite lookup_insert_eq. repeat split; auto.
    - rewrite Hst2. destruct (decide (id' = id)) as [->|Hne].
      + rewrite Hreq. eauto.
      + now rewrite lookup_insert_ne by congruence.
    - rewrite Hst2. destruct (decide (id' = id)) as [->|Hne].
      + rewrite lookup_insert_eq. eauto.
      + now rewrite lookup_insert_ne by congruence. }
  destruct (truthy (req_session_id data)) as [s|];
    (destruct (truthy (req_message data)) as [text|]; [|discriminate]).
  - destruct (sessions (cleanup_expired_data st (now env)) !! s).
    + cbn iota beta in H. rewrite Hreq in H. eapply Hend; [|exact H]. reflexivity.
    + cbn iota beta in H. cbn [create_session interaction_requests] in H.
      rewrite Hreq in H. eapply Hend; [|exact H]. reflexivity.
  - cbn [create_session interaction_requests sessions] in H.
    rewrite lookup_insert_eq in H. cbn iota beta in H.
    cbn [create_session interaction_requests sessions] in H. rewrite Hreq in H.
    eapply Hend; [|exact H]. reflexivity.
Qed.

(** X23. What the clean-up hook keeps: the interaction requests that are
    at most 1800 seconds old.  Running the hook at an earlier time as well
    makes no difference, so the table does not depend on the requests that
    came in between. *)
Theorem cleanup_keeps_recent_requests (st : app_state World) (earlier later : Q) (id : str)
        (data : interaction_request) :
  (earlier <= later)%Q ->
  (interaction_requests (cleanup_expired_data st later) !! id = Some data <->
   interaction_requests st !! id = Some data /\ (later - created_at data <= 1800)%Q) /\
  cleanup_expired_data (cleanup_expired_data st earlier) later =
    cleanup_expired_data st later.
Proof.
  intros Hle. split.
  - rewrite cleanup_lookup. unfold expired. rewrite negb_false_iff, Qle_bool_iff.
    reflexivity.
  - unfold cleanup_expired_data. cbn [sessions interaction_requests continuation_flags].
    f_equal. apply map_eq. intros k. apply option_eq. intros d.
    rewrite !map_lookup_filter_Some. cbn [snd]. unfold expired.
    rewrite !negb_false_iff, !Qle_bool_iff. split.
    + intros [[Hk _] Hlate]. auto.
    + intros [Hk Hlate]. split; [split|]; auto.
      eapply Qle_trans; [|exact Hlate].
      unfold Qminus. apply Qplus_le_compat; [exact Hle | apply Qle_refl].
Qed.
End Surface.

Lemma reply_to_unheld_interaction_witness :
  exists st',
    handle_chat no_rule no_rule answered_once (at_time 120 (u "EOF")) (Some late_reply) =
      Responded [] st' (JsonResult (unknown_interaction (u "interaction-1"))
                                   (u "session-1") true) /\
    (forall agent, sessions answered_once !! u "session-1" = Some agent ->
                   sessions st' !! u "session-1" = Some agent) /\
    continuation_flags st' !! u "session-1" = Some true /\
    interaction_requests st' !! u "interaction-1" =
      Some (answered_request {| request_session := u "session-1"; completed := true;
                                created_at := 0; request_input := Some (u "yes") |}
                             (u "yes")).
Proof.
  refine (reply_to_unheld_interaction no_rule no_rule answered_once
            (at_time 120 (u "EOF")) late_reply (u "session-1") (u "interaction-1") (u "yes")
            {| request_session := u "session-1"; completed := true;
               created_at := 0; request_input := Some (u "yes") |} _ _ _ _ _ _);
    vm_compute; reflexivity.
Defined.

Lemma deleted_session_keeps_its_requests_witness :
  interaction_requests (fst (delete_session (suspended no_rule no_rule) (u "session-1")))
    = interaction_requests (suspended no_rule no_rule).
Proof.
  refine (proj1 (proj2 (proj2 (proj2
            (deleted_session_keeps_its_requests no_rule no_rule
               (suspended no_rule no_rule) (at_time 60 (u "EOF"))
               (u "session-1") (u "interaction-1") (u "yes")
               (turn_agent fresh_agent asking)
               {| request_session := u "session-1"; completed := false;
                  created_at := 0; request_input := None |} _ _ _ _ _ _))))).
  - vm_compute. reflexivity.
  - vm_compute. reflexivity.
  - vm_compute. reflexivity.
  - vm_compute. discriminate.
  - vm_compute. discriminate.
  - vm_compute. discriminate.
Defined.

Lemma rejected_request_leaves_a_session_witness :
  sessions (outcome_state empty_app
              (handle_chat no_rule no_rule empty_app (at_time 0 (u "EOF"))
                           (Some blank_request))) !! session_uuid (at_time 0 (u "EOF")) =
    Some (new_agent (registry (at_time 0 (u "EOF")))
                    (config_max_tokens (at_time 0 (u "EOF")))
                    (system_prompt (at_time 0 (u "EOF")))).
Proof.
  refine (proj2 (rejected_request_leaves_a_session no_rule no_rule empty_app
                   (at_time 0 (u "EOF")) blank_request _ _)); reflexivity.
Defined.

Lemma chat_leaves_other_sessions_witness :
  sessions answered_once !! u "session-2" =
    sessions (suspended no_rule no_rule) !! u "session-2" /\
  continuation_flags answered_once !! u "session-2" =
    continuation_flags (suspended no_rule no_rule) !! u "session-2".
Proof.
  refine (proj1 (chat_leaves_other_sessions no_rule no_rule (suspended no_rule no_rule)
                   (at_time 60 (u "info(content='working')")) late_reply
                   (outcome_trace (answered no_rule no_rule 60)) answered_once
                   (JsonResult (ToolResultResponse (u "info") true (u "working"))
                               (u "session-1") true) _) (u "session-2") _).
  - vm_compute. reflexivity.
  - vm_compute. discriminate.
Defined.

Lemma completion_sets_continuation_witness :
  continuation_flags answered_once !! u "session-1" = Some true.
Proof.
  refine (proj1 (proj2 (proj2
            (completion_sets_continuation no_rule no_rule (suspended no_rule no_rule)
               (at_time 60 (u "info(content='working')")) late_reply
               (outcome_trace (answered no_rule no_rule 60)) answered_once
               (ToolResultResponse (u "info") true (u "working"))
               (u "session-1") true _ _)))).
  - vm_compute. reflexivity.
  - vm_compute. reflexivity.
Defined.

Lemma cleanup_keeps_recent_requests_witness :
  cleanup_expired_data (cleanup_expired_data (suspended no_rule no_rule) 60) 1801 =
    cleanup_expired_data (suspended no_rule no_rule) 1801.
Proof.
  refine (proj2 (cleanup_keeps_recent_requests (suspended no_rule no_rule) 60 1801
                   (u "interaction-1")
                   {| request_session := u "session-1"; completed := false;
                      created_at := 0; request_input := None |} _)).
  vm_compute. discriminate.
Defined.

(** ** The call syntax is read back *)

Lemma span_app (p : char -> bool) (a b : str) :
  forallb p a = true ->
  match b with [] => True | c :: _ => p c = false end ->
  span p (a ++ b) = (a, b).
Proof.
  intros Ha Hb. induction a as [|x a IH]; simpl.
  - destruct b as [|c b]; [reflexivity|]. simpl. now rewrite Hb.
  - simpl in Ha. apply andb_prop in Ha as [Hx Ha]. rewrite Hx, (IH Ha). reflexivity.
Qed.

Lemma split_at_app (c : char) (a b : str) :
  forallb (fun d => negb (d =? c)) a = true ->
  split_at c (a ++ c :: b) = Some (a, b).
Proof.
  intros Ha. induction a as [|x a IH]; simpl.
  - now rewrite N.eqb_refl.
  - simpl in Ha. apply andb_prop in Ha as [Hx Ha].
    apply negb_true_iff in Hx. rewrite Hx, (IH Ha). reflexivity.
Qed.

Lemma ident_char_range (c : char) : ident_char c = true -> 65 <= c <= 122.
Proof.
  unfold ident_char. intros H.
  destruct (N.leb_spec 65 c), (N.leb_spec c 90), (N.leb_spec 97 c), (N.leb_spec c 122),
    (N.eqb_spec c 95); simpl in H; try discriminate; lia.
Qed.

Lemma ident_char_not_space (c : char) : ident_char c = true -> isspace c = false.
Proof.
  intros H. apply ident_char_range in H. unfold isspace.
  replace (c <=? 13) with false by (symmetry; apply N.leb_gt; lia).
  replace (c <=? 32) with false by (symmetry; apply N.leb_gt; lia).
  replace (c =? 133) with false by (symmetry; apply N.eqb_neq; lia).
  replace (c =? 160) with false by (symmetry; apply N.eqb_neq; lia).
  replace (c =? 5760) with false by (symmetry; apply N.eqb_neq; lia).
  replace (8192 <=? c) with false by (symmetry; apply N.leb_gt; lia).
  replace (c =? 8232) with false by (symmetry; apply N.eqb_neq; lia).
  replace (c =? 8233) with false by (symmetry; apply N.eqb_neq; lia).
  replace (c =? 8239) with false by (symmetry; apply N.eqb_neq; lia).
  replace (c =? 8287) with false by (symmetry; apply N.eqb_neq; lia).
  replace (c =? 12288) with false by (symmetry; apply N.eqb_neq; lia).
  rewrite !andb_false_r. reflexivity.
Qed.

Lemma parse_call_args_skip (a b : str) (acc : list (str * str)) :
  parse_call_args (a ++ b) (length a) acc = parse_call_args b 0 acc.
Proof. induction a as [|x a IH]; [reflexivity | exact IH]. Qed.

Lemma identifier_inv (s : str) :
  identifier s = true ->
  exists c s', s = c :: s' /\ ident_char c = true /\ forallb ident_char s' = true.
Proof.
  unfold identifier. intros H. apply andb_prop in H as [Hne Hall].
  destruct s as [|c s']; [discriminate|]. simpl in Hall.
  apply andb_prop in Hall as [Hc Hs]. eauto.
Qed.

Lemma quotable_inv (s : str) :
  quotable s = true ->
  forallb (fun d => negb (d =? 39)) s = true /\ forallb (fun d => negb (d =? 41)) s = true.
Proof.
  unfold quotable. induction s as [|c s IH]; simpl; [auto|].
  intros H. apply andb_prop in H as [Hc Hs]. apply andb_prop in Hc as [H1 H2].
  destruct (IH Hs) as [IH1 IH2]. rewrite H1, H2, IH1, IH2. auto.
Qed.

Lemma render_arg_app (k v rest : str) :
  render_arg (k, v) ++ rest = k ++ 61 :: 39 :: (v ++ 39 :: rest).
Proof.
  unfold render_arg. cbn [fst snd]. rewrite <- app_assoc. cbn [app].
  rewrite <- app_assoc. reflexivity.
Qed.

(** One argument in the call syntax is read as its name and its value. *)
Lemma arg_match_rendered (k v rest : str) :
  identifier k = true ->
  quotable v = true ->
  arg_match_here (render_arg (k, v) ++ rest) = Some (k, v, rest).
Proof.
  intros Hk Hv. rewrite render_arg_app. unfold arg_match_here.
  destruct (identifier_inv k Hk) as (c & k' & -> & Hc & Hk').
  assert (Hspan : span ident_char ((c :: k') ++ 61 :: 39 :: (v ++ 39 :: rest)) =
                  (c :: k', 61 :: 39 :: (v ++ 39 :: rest))).
  { apply span_app; [simpl; rewrite Hc, Hk'; reflexivity | reflexivity]. }
  rewrite Hspan.
  change (snd (span isspace (61 :: 39 :: (v ++ 39 :: rest))))
    with (61 :: 39 :: (v ++ 39 :: rest)).
  cbv iota beta.
  change (snd (span isspace (39 :: (v ++ 39 :: rest)))) with (39 :: (v ++ 39 :: rest)).
  unfold arg_value_here. cbv beta iota zeta.
  change ((39 =? 34) || (39 =? 39)) with true. cbv beta iota.
  destruct (quotable_inv v Hv) as [Hq _].
  match goal with
  | |- context [split_at ?a ?b] =>
      replace (split_at a b) with (Some (v, rest))
        by (symmetry; apply split_at_app; exact Hq)
  end.
  reflexivity.
Qed.

Lemma parse_rendered_arg (k v rest : str) (acc : list (str * str)) :
  identifier k = true ->
  quotable v = true ->
  parse_call_args (render_arg (k, v) ++ rest) 0 acc =
    parse_call_args rest 0 (dict_set k v acc).
Proof.
  intros Hk Hv.
  pose proof (arg_match_rendered k v rest Hk Hv) as Hm.
  rewrite render_arg_app in *.
  destruct (identifier_inv k Hk) as (c & k' & -> & _ & _).
  set (matched := k' ++ [61; 39] ++ v ++ [39]).
  assert (Hs : (c :: k') ++ 61 :: 39 :: (v ++ 39 :: rest) = c :: (matched ++ rest)).
  { subst matched. cbn [app]. rewrite <- !app_assoc. cbn [app].
    rewrite <- app_assoc. reflexivity. }
  rewrite Hs in *. cbn [parse_call_args]. rewrite Hm.
  replace (length (c :: matched ++ rest) - length rest - 1)%nat with (length matched)
    by (simpl; rewrite length_app; lia).
  apply parse_call_args_skip.
Qed.

Lemma parse_separator (s : str) (acc : list (str * str)) :
  parse_call_args ([44; 32] ++ s) 0 acc = parse_call_args s 0 acc.
Proof. reflexivity. Qed.

Lemma parse_rendered_args (kwargs : list (str * str)) (acc : list (str * str)) :
  forallb (fun kv => identifier (fst kv) && quotable (snd kv)) kwargs = true ->
  parse_call_args (render_args kwargs) 0 acc =
    fold_left (fun items kv => dict_set (fst kv) (snd kv) items) kwargs acc.
Proof.
  revert acc. induction kwargs as [|[k v] kwargs IH]; intros acc Hall; [reflexivity|].
  simpl in Hall. apply andb_prop in Hall as [Hkv Hall].
  apply andb_prop in Hkv as [Hk Hv].
  destruct kwargs as [|kv' kwargs].
  - cbn [render_args fold_left fst snd].
    rewrite <- (app_nil_r (render_arg (k, v))). now rewrite parse_rendered_arg.
  - change (render_args ((k, v) :: kv' :: kwargs))
      with (render_arg (k, v) ++ [44; 32] ++ render_args (kv' :: kwargs)).
    rewrite parse_rendered_arg by assumption.
    rewrite parse_separator, IH by exact Hall. reflexivity.
Qed.

Lemma dict_set_fresh (k v : str) (items : list (str * str)) :
  ~ In k (map fst items) -> dict_set k v items = items ++ [(k, v)].
Proof.
  induction items as [|[k' v'] items IH]; intros Hk; [reflexivity|].
  simpl in *. destruct (str_eqb k k') eqn:E.
  - apply str_eqb_eq in E. exfalso. auto.
  - rewrite IH by auto. reflexivity.
Qed.

Lemma fold_dict_set_distinct (kwargs acc : list (str * str)) :
  NoDup (map fst (acc ++ kwargs)) ->
  fold_left (fun items kv => dict_set (fst kv) (snd kv) items) kwargs acc = acc ++ kwargs.
Proof.
  revert acc. induction kwargs as [|[k v] kwargs IH]; intros acc Hnd.
  - now rewrite app_nil_r.
  - cbn [fold_left fst snd]. rewrite dict_set_fresh.
    + rewrite IH; rewrite <- app_assoc; [reflexivity | exact Hnd].
    + rewrite map_app in Hnd. apply NoDup_app in Hnd as (_ & Hdisj & _).
      intros Hin. apply (Hdisj k); [now apply list_elem_of_In|].
      simpl. left.
Qed.

Lemma lstrip_nonspace (c : char) (s : str) : isspace c = false -> lstrip (c :: s) = c :: s.
Proof. intros H. simpl. now rewrite H. Qed.

Lemma strip_trimmed (s : str) : lstrip s = s -> lstrip (rev s) = rev s -> strip s = s.
Proof. intros H1 H2. unfold strip. rewrite H1, H2. apply rev_involutive. Qed.

Lemma render_arg_no_paren (k v : str) :
  identifier k = true -> quotable v = true ->
  forallb (fun d => negb (d =? 41)) (render_arg (k, v)) = true.
Proof.
  intros Hk Hv. unfold render_arg. cbn [fst snd].
  rewrite !forallb_app. unfold char in *. destruct (quotable_inv v Hv) as [_ ->].
  replace (forallb (fun d => negb (d =? 41)) k) with true; [reflexivity|].
  symmetry. unfold identifier in Hk. apply andb_prop in Hk as [_ Hk].
  apply forallb_forall. intros c Hc. rewrite forallb_forall in Hk.
  apply Hk, ident_char_range in Hc. apply negb_true_iff, N.eqb_neq. lia.
Qed.

Lemma render_args_no_paren (kwargs : list (str * str)) :
  forallb (fun kv => identifier (fst kv) && quotable (snd kv)) kwargs = true ->
  forallb (fun d => negb (d =? 41)) (render_args kwargs) = true.
Proof.
  induction kwargs as [|[k v] kwargs IH]; intros Hall; [reflexivity|].
  simpl in Hall. apply andb_prop in Hall as [Hkv Hall].
  apply andb_prop in Hkv as [Hk Hv].
  destruct kwargs as [|kv' kwargs].
  - now apply render_arg_no_paren.
  - change (render_args ((k, v) :: kv' :: kwargs))
      with (render_arg (k, v) ++ [44; 32] ++ render_args (kv' :: kwargs)).
    pose proof (render_arg_no_paren k v Hk Hv) as H1. pose proof (IH Hall) as H2.
    unfold char in *. rewrite !forallb_app, H1, H2. reflexivity.
Qed.

Lemma render_args_trimmed (kwargs : list (str * str)) :
  forallb (fun kv => identifier (fst kv) && quotable (snd kv)) kwargs = true ->
  strip (render_args kwargs) = render_args kwargs.
Proof.
  intros Hall. destruct kwargs as [|[k v] kwargs]; [reflexivity|].
  assert (Hk : identifier k = true).
  { simpl in Hall. apply andb_prop in Hall as [Hkv _]. now apply andb_prop in Hkv as [Hk _]. }
  assert (Hlast : exists body, render_args ((k, v) :: kwargs) = body ++ [39]).
  { clear Hall Hk. revert k v. induction kwargs as [|[k' v'] kwargs IH]; intros k v.
    - exists (k ++ [61; 39] ++ v). unfold render_args, render_arg. cbn [fst snd].
      now rewrite <- !app_assoc.
    - destruct (IH k' v') as [body Hbody].
      exists (render_arg (k, v) ++ [44; 32] ++ body).
      change (render_args ((k, v) :: (k', v') :: kwargs))
        with (render_arg (k, v) ++ [44; 32] ++ render_args ((k', v') :: kwargs)).
      rewrite Hbody, <- !app_assoc. reflexivity. }
  assert (Hfirst : exists c rest, render_args ((k, v) :: kwargs) = c :: rest /\
                                  ident_char c = true).
  { destruct (identifier_inv k Hk) as (c & k' & -> & Hc & _).
    destruct kwargs as [|kv' kwargs]; eexists c, _; split; try exact Hc; reflexivity. }
  destruct Hlast as [body Hbody]. destruct Hfirst as (c & rest & Hrest & Hc).
  apply strip_trimmed.
  - rewrite Hrest. apply lstrip_nonspace, ident_char_not_space, Hc.
  - rewrite Hbody, rev_app_distr. reflexivity.
Qed.

Lemma call_search_here (s : str) (groups : str * str) :
  call_match_here s = Some groups -> call_search s = Some groups.
Proof. intros H. destruct s; cbn [call_search]; rewrite H; reflexivity. Qed.

(** The call syntax rule reads the text of an expressible call back. *)
Lemma call_syntax_rule_rendered (call : tool_call) (available_tools : list str) :
  expressible call = true ->
  member (name call) available_tools = true ->
  call_syntax_rule (render_call call) available_tools = Some call.
Proof.
  unfold expressible. intros Hexp Htool.
  apply andb_prop in Hexp as [Hexp Hnodup]. apply andb_prop in Hexp as [Hname Hargs].
  apply bool_decide_eq_true in Hnodup.
  destruct call as [tool_name kwargs]. cbn [name args] in *.
  unfold call_syntax_rule, render_call. cbn [name args].
  assert (Hhere : call_match_here (tool_name ++ [40] ++ render_args kwargs ++ [41]) =
                  Some (tool_name, render_args kwargs)).
  { unfold call_match_here.
    destruct (identifier_inv tool_name Hname) as (c & n' & -> & Hc & Hn').
    assert (Hspan : span ident_char ((c :: n') ++ [40] ++ render_args kwargs ++ [41]) =
                    (c :: n', [40] ++ render_args kwargs ++ [41])).
    { apply span_app; [simpl; rewrite Hc, Hn'; reflexivity | reflexivity]. }
    rewrite Hspan.
    change (snd (span isspace ([40] ++ render_args kwargs ++ [41])))
      with (40 :: (render_args kwargs ++ [41])).
    cbv beta iota.
    match goal with
    | |- context [split_at ?a ?b] =>
        replace (split_at a b) with (Some (render_args kwargs, @nil char))
          by (symmetry; apply split_at_app, render_args_no_paren, Hargs)
    end.
    reflexivity. }
  assert (Hsearch : call_search (tool_name ++ [40] ++ render_args kwargs ++ [41]) =
                    Some (tool_name, render_args kwargs)).
  { apply call_search_here, Hhere. }
  rewrite Hsearch, Htool, render_args_trimmed by exact Hargs.
  rewrite parse_rendered_args by exact Hargs.
  rewrite (fold_dict_set_distinct kwargs []) by exact Hnodup. reflexivity.
Qed.

(** X24. The call syntax is read back.  When the model answers with the
    text of a call in the form tool(name='value', ...), where the tool is
    one of the described tools, the tool name and the argument names are
    identifiers, no argument is given twice and no value holds a single
    quote or a closing parenthesis, and the text holds no code fence, then
    [parse_response] returns that very call: the same tool, the same
    arguments with the same values in the same order, commas, blanks and
    equals signs inside the values included. *)
Theorem call_syntax_is_read_back
        (json_block_rule tool_mention_rule : str -> list str -> rule_result)
        (call : tool_call) (available_tools : list str) :
  expressible call = true ->
  member (name call) available_tools = true ->
  contains fence (render_call call) = false ->
  parse_response json_block_rule tool_mention_rule (model_reply (render_call call))
                 available_tools = ParsedCall call.
Proof.
  intros Hexp Htool Hfence.
  pose proof (call_syntax_rule_rendered call available_tools Hexp Htool) as Hrule.
  unfold expressible in Hexp. apply andb_prop in Hexp as [Hexp _].
  apply andb_prop in Hexp as [Hname _].
  destruct (identifier_inv (name call) Hname) as (c & n' & Hn & Hc & _).
  assert (Htext : render_call call =
                  c :: (n' ++ [40] ++ render_args (args call) ++ [41])).
  { unfold render_call. rewrite Hn. reflexivity. }
  assert (Hrev : rev (render_call call) =
                 41 :: rev (name call ++ [40] ++ render_args (args call))).
  { unfold render_call.
    replace (name call ++ [40] ++ render_args (args call) ++ [41])
      with ((name call ++ [40] ++ render_args (args call)) ++ [41])
      by (now rewrite <- !app_assoc).
    now rewrite rev_app_distr. }
  assert (Hstrip : strip (render_call call) = render_call call).
  { apply strip_trimmed.
    - rewrite Htext. apply lstrip_nonspace, ident_char_not_space, Hc.
    - rewrite Hrev. reflexivity. }
  assert (Heof : str_eqb (render_call call) (u "EOF")
                 || endswith (u "EOF") (render_call call) = false).
  { apply orb_false_intro.
    - unfold str_eqb. apply bool_decide_eq_false. intros Habs.
      apply (f_equal (@rev char)) in Habs. rewrite Hrev in Habs. discriminate Habs.
    - unfold endswith. rewrite Hrev. reflexivity. }
  clear Hrev. rewrite Htext in *.
  unfold parse_response, model_reply. cbn [first_content ch_message msg_content get_default].
  rewrite Hstrip, Heof.
  unfold parse_content. rewrite Hfence, Hrule. reflexivity.
Qed.

Lemma call_syntax_is_read_back_witness :
  parse_response no_rule no_rule (model_reply (render_call write_notes))
                 [u "exit"; u "read"; u "write"] = ParsedCall write_notes.
Proof.
  refine (call_syntax_is_read_back no_rule no_rule write_notes
            [u "exit"; u "read"; u "write"] _ _ _); vm_compute; reflexivity.
Defined.

(** ** The end mark and the two engines *)

Section EndMark.
Context {World : Type}.
Variables json_block_rule tool_mention_rule : str -> list str -> rule_result.

(** X25. In the API engine the end mark ends the task through the built-in
    exit tool, whatever [tools.json] holds: when the model answers with a
    text that ends with EOF, an agent whose registry was built by
    [load_tools] invokes the built-in exit function with the default
    message, records its result and returns an exit response. *)
Theorem eof_reply_calls_builtin_exit
        (import_module : str -> str -> load_outcome World) (tools_dir : str)
        (tool_definitions : option (list (str * tool_info)))
        (prompt : str) (agent : AIAgent World) (env : turn_env World) (text reply : str) :
  tool_manager agent = load_tools import_module tools_dir tool_definitions ->
  pinned prompt (conversation agent) = true ->
  send_request env (conversation agent ++ [{| msg_role := User; content := text |}])
    = model_reply reply ->
  endswith (u "EOF") (strip reply) = true ->
  exists agent',
    process_message json_block_rule tool_mention_rule agent env text =
      Done [ModelRequest (conversation agent ++ [{| msg_role := User; content := text |}]);
            ToolInvoked (u "exit") [(u "message", u "任务已完成")];
            ResultRecorded eof_exit_call eof_exit_result]
           agent'
           (Returns (ExitResponse (u "任务已完成"))).
Proof.
  intros Htm Hpin Hsend Heof.
  pose proof (eof_rule_first json_block_rule tool_mention_rule reply
                (map fst (get_tool_descriptions (tool_manager agent))) Heof) as Hparse.
  destruct (load_tools_well_loaded import_module tools_dir tool_definitions)
    as (Hexit & _ & _).
  rewrite <- Htm in Hexit.
  unfold process_message.
  change (get_messages (add_user_message (dialogue_manager agent) text))
    with (conversation agent ++ [{| msg_role := User; content := text |}]).
  rewrite Hsend. unfold model_reply in *. rewrite Hparse.
  set (dm2 := match first_content _ with [] => _ | _ :: _ => _ end).
  assert (Hpin2 : pinned prompt (messages dm2) = true).
  { subst dm2. destruct (first_content _).
    - apply pinned_append; [discriminate | exact Hpin].
    - apply pinned_append; [discriminate|]. apply pinned_append; [discriminate | exact Hpin]. }
  unfold dispatch. cbn [name args set_dialogue tool_manager dialogue_manager].
  change (str_eqb (u "exit") (u "info")) with false. cbn [andb].
  rewrite Hexit.
  change (str_eqb (u "exit") (u "interact")) with false. cbv beta iota.
  change (call_tool exit_program (world env) [(u "message", u "任务已完成")])
    with (@inr exn tool_result eof_exit_result).
  cbv beta iota.
  destruct (add_tool_result_pinned prompt dm2 eof_exit_call eof_exit_result Hpin2)
    as (dm' & E & _).
  fold eof_exit_call. rewrite E. eexists. reflexivity.
Qed.
End EndMark.

Section Stalling.
Context {World : Type}.
Variable casemap : str -> str.
Variable parse_response_main : model_response -> list str -> parsed_response.

Lemma run_pass_stalls (agent : MainRun.AIAgent World) (env : MainRun.pass_env World) :
  MainRun.is_bye casemap (MainRun.user_request agent) = false ->
  stalls (was_last_tool_info (MainRun.dialogue_manager agent))
         (parse_response_main
            (MainRun.model env (messages (MainRun.dialogue_manager agent)))
            (map fst (get_tool_descriptions (MainRun.tool_manager agent)))) = true ->
  exists agent',
    MainRun.run_pass casemap parse_response_main agent env =
      MainRun.Next [ModelRequest (messages (MainRun.dialogue_manager agent))] agent' /\
    (MainRun.user_request agent' = MainRun.use_exit_text \/
     MainRun.user_request agent' = MainRun.use_other_tool_text) /\
    MainRun.tool_manager agent' = MainRun.tool_manager agent /\
    was_last_tool_info (MainRun.dialogue_manager agent') =
      was_last_tool_info (MainRun.dialogue_manager agent) /\
    (length (messages (MainRun.dialogue_manager agent)) <
     length (messages (MainRun.dialogue_manager agent')))%nat.
Proof.
  intros Hbye Hstall. unfold MainRun.run_pass. rewrite Hbye.
  unfold get_messages.
  set (response := MainRun.model env (messages (MainRun.dialogue_manager agent))) in *.
  set (dm1 := match response with
              | ResponseBody choices =>
                  match first_content choices with
                  | [] => MainRun.dialogue_manager agent
                  | c :: text =>
                      add_assistant_message (MainRun.dialogue_manager agent) (c :: text)
                  end
              | ResponseError _ _ => MainRun.dialogue_manager agent
              end).
  assert (Hflag : was_last_tool_info dm1 =
                  was_last_tool_info (MainRun.dialogue_manager agent)).
  { subst dm1. destruct response as [|choices]; [reflexivity|].
    destruct (first_content choices); reflexivity. }
  assert (Hlen : (length (messages (MainRun.dialogue_manager agent))
                  <= length (messages dm1))%nat).
  { subst dm1. destruct response as [|choices]; [lia|].
    destruct (first_content choices); [lia|].
    cbn [add_assistant_message append_message messages]. rewrite length_app. lia. }
  destruct (parse_response_main response
              (map fst (get_tool_descriptions (MainRun.tool_manager agent))))
    as [message raw| |call]; [discriminate Hstall| |].
  - eexists. split; [reflexivity|].
    cbn [MainRun.with_request MainRun.user_request MainRun.tool_manager
         MainRun.dialogue_manager add_user_message append_message messages
         was_last_tool_info last_tool_was_info].
    rewrite length_app. cbn [length]. unfold was_last_tool_info in Hflag.
    split; [left; reflexivity|]. split; [reflexivity|]. split; [exact Hflag|].
    clear - Hlen. lia.
  - cbn [stalls] in Hstall. rewrite Hflag, Hstall.
    eexists. split; [reflexivity|].
    cbn [MainRun.with_request MainRun.user_request MainRun.tool_manager
         MainRun.dialogue_manager add_user_message append_message messages
         was_last_tool_info last_tool_was_info].
    rewrite length_app. cbn [length]. unfold was_last_tool_info in Hflag.
    split; [right; reflexivity|]. split; [reflexivity|]. split; [exact Hflag|].
    clear - Hlen. lia.
Qed.

(** X26. In the command-line engine the end mark ends nothing, and neither
    does an info call while the info flag is set: such a pass asks the
    model, invokes no tool, records no result, leaves the flag as it is,
    adds its own request to the conversation and goes round.  So while the
    model answers in these two ways the loop does not end: after any number
    of passes it is still running, it has asked the model once per pass and
    done nothing else, and the conversation, which is not trimmed on the
    way, has grown with every pass. *)
Theorem stalling_replies_never_end_the_run (n : nat) :
  forall (envs : nat -> MainRun.pass_env World) (agent : MainRun.AIAgent World),
    MainRun.is_bye casemap (MainRun.user_request agent) = false ->
    MainRun.is_bye casemap MainRun.use_exit_text = false ->
    MainRun.is_bye casemap MainRun.use_other_tool_text = false ->
    (forall i history,
        stalls (was_last_tool_info (MainRun.dialogue_manager agent))
               (parse_response_main
                  (MainRun.model (envs i) history)
                  (map fst (get_tool_descriptions (MainRun.tool_manager agent)))) = true) ->
    exists trace agent',
      MainRun.run_passes casemap parse_response_main n envs agent = (trace, Some agent') /\
      length trace = n /\
      forallb is_model_request trace = true /\
      existsb is_tool_invoked trace = false /\
      was_last_tool_info (MainRun.dialogue_manager agent') =
        was_last_tool_info (MainRun.dialogue_manager agent) /\
      (length (messages (MainRun.dialogue_manager agent)) + n <=
       length (messages (MainRun.dialogue_manager agent')))%nat.
Proof.
  induction n as [|n IH]; intros envs agent Hbye Hexit Hother Hstall.
  - exists [], agent. cbn [MainRun.run_passes length forallb existsb].
    repeat split. lia.
  - destruct (run_pass_stalls agent (envs 0%nat) Hbye (Hstall 0%nat _))
      as (agent1 & Epass & Hreq & Htm & Hflag & Hlen).
    destruct (IH (fun i => envs (S i)) agent1) as (trace & agent' & E & Hn & Hall & Hno & Hf & Hl).
    + destruct Hreq as [-> | ->]; assumption.
    + exact Hexit.
    + exact Hother.
    + intros i history. rewrite Hflag, Htm. apply Hstall.
    + cbn [MainRun.run_passes]. rewrite Epass, E.
      exists (ModelRequest (messages (MainRun.dialogue_manager agent)) :: trace), agent'.
      cbn [app length forallb existsb is_model_request is_tool_invoked andb orb].
      split; [reflexivity|]. split; [now rewrite Hn|]. split; [exact Hall|].
      split; [exact Hno|]. split; [now rewrite Hf|]. clear - Hl Hlen. lia.
Qed.
End Stalling.

Lemma eof_reply_calls_builtin_exit_witness :
  exists agent',
    process_message no_rule no_rule
        (new_agent sample_registry 16000 (u "You are Axiom Agent."))
        (answering (u "all done. EOF")) (u "stop now") =
      Done [ModelRequest (conversation (new_agent sample_registry 16000
                                                  (u "You are Axiom Agent."))
                            ++ [{| msg_role := User; content := u "stop now" |}]);
            ToolInvoked (u "exit") [(u "message", u "任务已完成")];
            ResultRecorded eof_exit_call eof_exit_result]
           agent'
           (Returns (ExitResponse (u "任务已完成"))).
Proof.
  refine (eof_reply_calls_builtin_exit no_rule no_rule sample_modules (u "tools")
            (Some sample_definitions) (u "You are Axiom Agent.")
            (new_agent sample_registry 16000 (u "You are Axiom Agent."))
            (answering (u "all done. EOF")) (u "stop now") (u "all done. EOF") _ _ _ _).
  - reflexivity.
  - vm_compute. reflexivity.
  - reflexivity.
  - vm_compute. reflexivity.
Defined.

Lemma stalling_replies_never_end_the_run_witness :
  exists trace agent',
    MainRun.run_passes (fun s => s) narrating_parser 3 (fun _ => narrating_pass) narrated_once
      = (trace, Some agent') /\
    length trace = 3%nat /\
    forallb is_model_request trace = true /\
    existsb is_tool_invoked trace = false /\
    was_last_tool_info (MainRun.dialogue_manager agent') =
      was_last_tool_info (MainRun.dialogue_manager narrated_once) /\
    (length (messages (MainRun.dialogue_manager narrated_once)) + 3 <=
     length (messages (MainRun.dialogue_manager agent')))%nat.
Proof.
  refine (stalling_replies_never_end_the_run (fun s => s) narrating_parser 3
            (fun _ => narrating_pass) narrated_once _ _ _ _).
  - vm_compute. reflexivity.
  - vm_compute. reflexivity.
  - vm_compute. reflexivity.
  - intros i history. vm_compute. reflexivity.
Defined.

(** ** Open interaction requests can be answered *)

Section OpenRequests.
Context {World : Type}.
Variables json_block_rule tool_mention_rule : str -> list str -> rule_result.

Lemma dispatch_keeps_pending (agent : AIAgent World) (env : turn_env World)
      (before : list event) (call : tool_call) (k : str) :
  is_Some (pending_interactions agent !! k) ->
  is_Some (pending_interactions (turn_agent agent (dispatch agent env before call)) !! k).
Proof.
  intros Hk. unfold dispatch.
  destruct (str_eqb (name call) (u "info") && was_last_tool_info (dialogue_manager agent)).
  { destruct (add_tool_result (dialogue_manager agent) call info_loop_result); exact Hk. }
  destruct (get_tool_function (tool_manager agent) (name call)) as [f|].
  - destruct (str_eqb (name call) (u "interact")).
    + cbn [turn_agent pending_interactions].
      destruct (decide (k = uuid4 env)) as [->|Hne].
      * rewrite lookup_insert_eq. eauto.
      * now rewrite lookup_insert_ne by congruence.
    + destruct (call_tool f (world env) (args call)) as [e|res]; [exact Hk|].
      destruct (add_tool_result (dialogue_manager agent) call res); exact Hk.
  - destruct (add_tool_result (dialogue_manager agent) call
                (unknown_tool_result (name call))); exact Hk.
Qed.

Lemma process_message_keeps_pending (agent : AIAgent World) (env : turn_env World)
      (text k : str) :
  is_Some (pending_interactions agent !! k) ->
  is_Some (pending_interactions
             (turn_agent agent
                (process_message json_block_rule tool_mention_rule agent env text)) !! k).
Proof.
  intros Hk. unfold process_message.
  destruct (send_request env _) as [err details|choices]; [exact Hk|].
  set (dm2 := match first_content choices with [] => _ | _ :: _ => _ end).
  assert (Hd : forall call before,
             is_Some (pending_interactions
                        (turn_agent agent (dispatch (set_dialogue agent dm2) env before call))
                        !! k)).
  { intros call before.
    pose proof (dispatch_keeps_pending (set_dialogue agent dm2) env before call k Hk) as H.
    destruct (dispatch (set_dialogue agent dm2) env before call); [exact H | exact Hk]. }
  destruct (parse_response _ _ _ _); [exact Hk | apply Hd | apply Hd].
Qed.

Lemma complete_interaction_keeps_pending (agent : AIAgent World) (env : turn_env World)
      (id reply k : str) :
  k <> id ->
  is_Some (pending_interactions agent !! k) ->
  is_Some (pending_interactions
             (turn_agent agent
                (complete_interaction json_block_rule tool_mention_rule agent env id reply))
             !! k).
Proof.
  intros Hne Hk. unfold complete_interaction.
  destruct (pending_interactions agent !! id) as [pending|]; [|exact Hk].
  destruct (add_tool_result (dialogue_manager agent) (pending_call pending)
              (reply_result reply)) as [dm'|]; [|exact Hk].
  set (resumed := {| tool_manager := tool_manager agent;
                     dialogue_manager := dm';
                     pending_interactions := delete id (pending_interactions agent) |}).
  assert (Hres : is_Some (pending_interactions resumed !! k)).
  { subst resumed. cbn [pending_interactions]. now rewrite lookup_delete_ne by congruence. }
  pose proof (process_message_keeps_pending resumed env (u "继续执行任务") k Hres) as H.
  destruct (process_message json_block_rule tool_mention_rule resumed env (u "继续执行任务"));
    [exact H | exact Hk].
Qed.

Lemma create_session_requests_held (st : app_state World) (env : request_env World)
      (sid : str) :
  sessions st !! sid = None ->
  requests_held st -> requests_held (create_session st env sid).
Proof.
  intros Hnew Hinv id data Hreq Hopen. cbn [create_session interaction_requests] in Hreq.
  destruct (Hinv id data Hreq Hopen) as (agent & Hs & Hheld).
  exists agent. split; [|exact Hheld]. cbn [create_session sessions].
  rewrite lookup_insert_ne; [exact Hs|]. intros E. rewrite <- E in Hs. congruence.
Qed.

Lemma chat_turn_requests_held (st : app_state World) (env : request_env World) (sid : str)
      (agent : AIAgent World) (continue_execution : bool) (text : str)
      (trace : list event) (st' : app_state World) (r : http_response) :
  requests_held st ->
  sessions st !! sid = Some agent ->
  chat_turn json_block_rule tool_mention_rule st env sid agent continue_execution text
    = Responded trace st' r ->
  requests_held st'.
Proof.
  intros Hinv Hsession. unfold chat_turn.
  set (sent := if continue_execution && get_default (continuation_flags st !! sid) false
               then u "继续执行任务" else text).
  pose proof (process_message_keeps_pending agent (turn_surroundings env) sent) as Hkeep.
  pose proof (process_message_pending json_block_rule tool_mention_rule agent
                (turn_surroundings env) sent) as [_ Hnew].
  destruct (process_message json_block_rule tool_mention_rule agent
              (turn_surroundings env) sent) as [tr agent' [result|e]|tr]; [| |discriminate].
  - cbn [turn_agent turn_completion] in *. intros H. injection H as _ <- _.
    assert (Hold : forall table : gmap str (AIAgent World),
               table !! sid = Some agent' ->
               (forall other, other <> sid -> table !! other = sessions st !! other) ->
               forall id data,
                 interaction_requests st !! id = Some data ->
                 completed data = false ->
                 exists a, table !! request_session data = Some a /\
                           is_Some (pending_interactions a !! id)).
    { intros table Hown Hother id data Hreq Hopen.
      destruct (Hinv id data Hreq Hopen) as (a & Hs & Hheld).
      destruct (decide (request_session data = sid)) as [E|Hne].
      - exists agent'. split; [rewrite E; exact Hown|].
        apply Hkeep. rewrite E in Hs. congruence.
      - exists a. rewrite Hother by exact Hne. auto. }
    destruct (str_eqb (response_type result) (u "interaction_required")) eqn:Htype.
    + destruct result as [| |id content prompt| |]; try discriminate Htype.
      cbn [interaction_id_of].
      destruct (Hnew id content prompt eq_refl) as (_ & _ & _ & held & _ & Hpending).
      intros k data Hreq Hopen.
      cbn [set_flag set_request set_session interaction_requests sessions] in *.
      destruct (decide (k = id)) as [->|Hne].
      * rewrite lookup_insert_eq in Hreq. injection Hreq as <-.
        cbn [request_session]. rewrite lookup_insert_eq. exists agent'.
        split; [reflexivity|]. rewrite Hpending, lookup_insert_eq. eauto.
      * rewrite lookup_insert_ne in Hreq by congruence.
        apply (Hold (<[sid := agent']> (sessions st))); auto.
        -- apply lookup_insert_eq.
        -- intros other Hother. now rewrite lookup_insert_ne by congruence.
    + intros k data Hreq Hopen.
      cbn [set_flag set_request set_session interaction_requests sessions] in *.
      apply (Hold (<[sid := agent']> (sessions st))); auto.
      * apply lookup_insert_eq.
      * intros other Hother. now rewrite lookup_insert_ne by congruence.
  - cbn [turn_agent] in *. intros H. injection H as _ <- _.
    intros k data Hreq Hopen.
    cbn [set_flag set_request set_session interaction_requests sessions] in *.
    destruct (Hinv k data Hreq Hopen) as (a & Hs & Hheld).
    destruct (decide (request_session data = sid)) as [E|Hne].
    + exists agent'. rewrite E, lookup_insert_eq. split; [reflexivity|].
      apply Hkeep. rewrite E in Hs. congruence.
    + exists a. rewrite lookup_insert_ne by congruence. auto.
Qed.

Lemma chat_completion_requests_held (st : app_state World) (env : request_env World)
      (sid : str) (agent : AIAgent World) (id : str) (pending : interaction_request)
      (text : str) (trace : list event) (st' : app_state World) (r : http_response) :
  requests_held st ->
  sessions st !! sid = Some agent ->
  chat_completion json_block_rule tool_mention_rule st env sid agent id pending text
    = Responded trace st' r ->
  requests_held st'.
Proof.
  intros Hinv Hsession. unfold chat_completion.
  pose proof (complete_interaction_keeps_pending agent (turn_surroundings env) id text)
    as Hkeep.
  assert (Hend : forall agent' flags,
             (forall k, k <> id -> is_Some (pending_interactions agent !! k) ->
                        is_Some (pending_interactions agent' !! k)) ->
             requests_held
               {| sessions := <[sid := agent']> (sessions st);
                  interaction_requests :=
                    <[id := {| request_session := request_session pending;
                               completed := true;
                               created_at := created_at pending;
                               request_input := Some text |}]> (interaction_requests st);
                  continuation_flags := flags |}).
  { intros agent' flags Hk k data Hreq Hopen.
    cbn [interaction_requests sessions] in *.
    destruct (decide (k = id)) as [->|Hne].
    - rewrite lookup_insert_eq in Hreq. injection Hreq as <-. discriminate Hopen.
    - rewrite lookup_insert_ne in Hreq by congruence.
      destruct (Hinv k data Hreq Hopen) as (a & Hs & Hheld).
      destruct (decide (request_session data = sid)) as [E|Hs'].
      + exists agent'. rewrite E, lookup_insert_eq. split; [reflexivity|].
        apply Hk; [exact Hne | rewrite E in Hs; congruence].
      + exists a. rewrite lookup_insert_ne by congruence. auto. }
  destruct (complete_interaction json_block_rule tool_mention_rule agent
              (turn_surroundings env) id text) as [tr agent' [result|e]|tr];
    [| |discriminate]; cbn [turn_agent] in Hkeep; intros H; injection H as _ <- _;
    apply Hend; intros k Hne Hk; apply Hkeep; assumption.
Qed.

Lemma chat_requests_held (st : app_state World) (env : request_env World)
      (data : chat_request) (trace : list event) (st' : app_state World)
      (r : http_response) :
  requests_held st ->
  fresh_session_id st env (Some data) ->
  chat json_block_rule tool_mention_rule st env (Some data) = Responded trace st' r ->
  requests_held st'.
Proof.
  intros Hinv Hfresh. unfold chat. cbn [fresh_session_id] in Hfresh.
  assert (Hpath : forall st2 sid agent,
             requests_held st2 ->
             sessions st2 !! sid = Some agent ->
             forall text,
               match truthy (req_interaction_id data) with
               | Some id =>
                   match interaction_requests st2 !! id with
                   | Some pending =>
                       chat_completion json_block_rule tool_mention_rule st2 env sid agent
                                       id pending text
                   | None =>
                       chat_turn json_block_rule tool_mention_rule st2 env sid agent
                                 (req_continue data) text
                   end
               | None =>
                   chat_turn json_block_rule tool_mention_rule st2 env sid agent
                             (req_continue data) text
               end = Responded trace st' r ->
               requests_held st').
  { intros st2 sid agent Hinv2 Hs text H.
    destruct (truthy (req_interaction_id data)) as [id|];
      [destruct (interaction_requests st2 !! id) as [pending|]|].
    - eapply chat_completion_requests_held; eauto.
    - eapply chat_turn_requests_held; eauto.
    - eapply chat_turn_requests_held; eauto. }
  destruct (empty_object data); [intros H; injection H as _ <- _; exact Hinv|].
  destruct (truthy (req_session_id data)) as [sid|].
  - destruct (truthy (req_message data)) as [text|].
    2:{ intros H. injection H as _ <- _. exact Hinv. }
    destruct (sessions st !! sid) as [agent|] eqn:Hsession.
    + rewrite Hsession. cbn [get_default]. apply Hpath; assumption.
    + cbn [create_session sessions]. rewrite lookup_insert_eq. cbn [get_default].
      apply Hpath; [now apply create_session_requests_held|].
      cbn [create_session sessions]. apply lookup_insert_eq.
  - destruct (truthy (req_message data)) as [text|].
    2:{ intros H. injection H as _ <- _. now apply create_session_requests_held. }
    cbn [create_session sessions]. rewrite lookup_insert_eq. cbv beta iota.
    cbn [create_session sessions]. rewrite lookup_insert_eq. cbn [get_default].
    apply (Hpath (create_session st env (session_uuid env)));
      [now apply create_session_requests_held|].
    cbn [create_session sessions]. apply lookup_insert_eq.
Qed.

Lemma cleanup_requests_held (st : app_state World) (current_time : Q) :
  requests_held st -> requests_held (cleanup_expired_data st current_time).
Proof.
  intros Hinv id data Hreq Hopen. apply cleanup_lookup in Hreq as [Hreq _].
  exact (Hinv id data Hreq Hopen).
Qed.

Lemma served_afresh_requests_held (st : app_state World) :
  served_afresh json_block_rule tool_mention_rule st -> requests_held st.
Proof.
  induction 1 as [|st env body trace st' r Hserved IH Hfresh Hchat].
  - intros id data Hreq. cbn [empty_app interaction_requests] in Hreq.
    rewrite lookup_empty in Hreq. discriminate.
  - unfold handle_chat in Hchat. destruct body as [data|].
    + eapply chat_requests_held; [| |exact Hchat].
      * now apply cleanup_requests_held.
      * exact Hfresh.
    + cbn [chat] in Hchat. injection Hchat as _ <- _. now apply cleanup_requests_held.
Qed.

Lemma served_afresh_served (st : app_state World) :
  served_afresh json_block_rule tool_mention_rule st ->
  served json_block_rule tool_mention_rule st.
Proof.
  induction 1 as [|st env body trace st' r Hserved IH Hfresh Hchat].
  - constructor.
  - econstructor; eauto.
Qed.

(** X27. Open interaction requests can be answered.  In every state that
    the service reaches through answered requests to [/api/chat], no
    session id being drawn twice, an interaction request that has not been
    answered is held by the agent of the session that raised it.  So a
    reply that names it under that session, sent before the request
    expires, resumes that agent: the first thing the request does is to
    record the reply as the result of the pending call. *)
Theorem open_requests_can_be_answered (st : app_state World) (env : request_env World)
        (id text : str) (data : interaction_request) :
  served_afresh json_block_rule tool_mention_rule st ->
  interaction_requests st !! id = Some data ->
  completed data = false ->
  expired (now env) data = false ->
  request_session data <> [] -> id <> [] -> text <> [] ->
  exists agent pending,
    sessions st !! request_session data = Some agent /\
    pending_interactions agent !! id = Some pending /\
    hd_error (outcome_trace
                (handle_chat json_block_rule tool_mention_rule st env
                             (Some (reply_to (request_session data) id text)))) =
      Some (ResultRecorded (pending_call pending) (reply_result text)).
Proof.
  intros Hserved Hreq Hopen Hlive Hsid Hid Htext.
  destruct (served_afresh_requests_held st Hserved id data Hreq Hopen)
    as (agent & Hsession & [pending Hheld]).
  exists agent, pending. split; [exact Hsession|]. split; [exact Hheld|].
  destruct (served_sessions_pinned json_block_rule tool_mention_rule st
              (served_afresh_served st Hserved)) as [Hpinned _].
  destruct (Hpinned _ _ Hsession) as [prompt Hpin].
  unfold handle_chat, chat.
  change (empty_object (reply_to (request_session data) id text)) with false.
  cbn [reply_to req_session_id req_message req_interaction_id].
  assert (Ht : forall s : str, s <> [] -> truthy (Some s) = Some s)
    by (intros [|c s] Hs; [contradiction | reflexivity]).
  rewrite !Ht by assumption.
  change (sessions (cleanup_expired_data st (now env))) with (sessions st).
  rewrite Hsession. cbn [get_default].
  rewrite (proj2 (cleanup_lookup st (now env) id data) (conj Hreq Hlive)).
  change (sessions (cleanup_expired_data st (now env))) with (sessions st).
  rewrite Hsession. cbn [get_default].
  unfold chat_completion, complete_interaction. rewrite Hheld.
  destruct (add_tool_result_pinned prompt (dialogue_manager agent) (pending_call pending)
              (reply_result text) Hpin) as (dm' & E & _).
  rewrite E.
  destruct (process_message _ _ _ _ _) as [tr agent' [result|e]|tr]; reflexivity.
Qed.
End OpenRequests.

Lemma open_requests_can_be_answered_witness :
  exists agent pending,
    sessions (suspended no_rule no_rule) !! u "session-1" = Some agent /\
    pending_interactions agent !! u "interaction-1" = Some pending /\
    hd_error (outcome_trace
                (handle_chat no_rule no_rule (suspended no_rule no_rule)
                             (at_time 60 (u "info(content='working')"))
                             (Some (reply_to (u "session-1") (u "interaction-1") (u "yes"))))) =
      Some (ResultRecorded (pending_call pending) (reply_result (u "yes"))).
Proof.
  refine (open_requests_can_be_answered no_rule no_rule (suspended no_rule no_rule)
            (at_time 60 (u "info(content='working')"))
            (u "interaction-1") (u "yes")
            {| request_session := u "session-1"; completed := false;
               created_at := 0; request_input := None |} _ _ _ _ _ _ _).
  - eapply (afresh_request no_rule no_rule empty_app
              (at_time 0 (u "interact(content='Proceed?')")) (Some first_request)).
    + apply afresh_start.
    + reflexivity.
    + vm_compute. reflexivity.
  - vm_compute. reflexivity.
  - reflexivity.
  - vm_compute. reflexivity.
  - vm_compute. discriminate.
  - vm_compute. discriminate.
  - vm_compute. discriminate.
Defined.
